(** * RAINS resolution engine: objects, validity arithmetic and the
    assert / query procedures.

    Shallow embedding of
    - [rainslib/objects.go]            (module [rainslib]),
    - the table of [TestUpdateSectionValidity] (module [util]),
    - the rainsd engine, [assert], [query] and helpers (module [rainsd]).

    Go integers are modelled as [Z]; none of the embedded functions does
    arithmetic on them other than comparisons and the clock offset
    [time.Now().Add(d).Unix()], which is written [now + d] with [d] in
    whole seconds.  Go strings are byte strings, modelled as [string]. *)

From Stdlib Require Import ZArith List String Ascii Lia Bool OrderedTypeEx
  DecimalString.
From stdpp Require Import base gmap strings list sorting.

Local Open Scope Z_scope.

(** ** Outcome of a Go call that may panic *)

Inductive result (A : Type) : Type :=
| Ok (a : A)
| Panic (msg : string).
Arguments Ok {A} a.
Arguments Panic {A} msg.

(** * rainslib: objects and their comparison *)

Module rainslib.

Definition ObjectType := Z.

Definition OTName : ObjectType := 1.
Definition OTIP6Addr : ObjectType := 2.
Definition OTIP4Addr : ObjectType := 3.
Definition OTRedirection : ObjectType := 4.
Definition OTDelegation : ObjectType := 5.
Definition OTNameset : ObjectType := 6.
Definition OTCertInfo : ObjectType := 7.
Definition OTServiceInfo : ObjectType := 8.
Definition OTRegistrar : ObjectType := 9.
Definition OTRegistrant : ObjectType := 10.
Definition OTInfraKey : ObjectType := 11.
Definition OTExtraKey : ObjectType := 12.
Definition OTNextKey : ObjectType := 13.

Record NameObject := {
  Name : string;
  Types : list ObjectType
}.

(** Dynamic type of [PublicKey.Key] (an [interface{}] in the source):
    an ed25519 key, or a value of any other type. *)
Inductive KeyValue :=
| KeyEd25519 (k : list Byte.byte)
| KeyOther (raw : list Byte.byte).

Record PublicKey := {
  PK_Type : Z;
  PK_KeySpace : Z;
  PK_Key : KeyValue;
  PK_ValidSince : Z;
  PK_ValidUntil : Z
}.

Record CertificateObject := {
  Cert_Type : Z;
  Cert_Usage : Z;
  Cert_HashAlgo : Z;
  Cert_Data : list Byte.byte
}.

Record ServiceInfo := {
  SI_Name : string;
  SI_Port : Z;
  SI_Priority : Z
}.

(** Dynamic type of [Object.Value] (an [interface{}] in the source). The
    cases are those of the type switch in [Object.CompareTo]; [VOther]
    stands for nil and every type the switch does not list. *)
Inductive ObjectValue :=
| VNameObject (v : NameObject)
| VString (v : string)
| VPublicKey (v : PublicKey)
| VNamesetExpression (v : string)
| VCertificateObject (v : CertificateObject)
| VServiceInfo (v : ServiceInfo)
| VOther.

Record Object := {
  Type_ : ObjectType;
  Value : ObjectValue
}.

(** Go's [<] and [>] on strings: lexicographic on bytes. *)
Definition str_lt (a b : string) : bool :=
  match String.compare a b with Lt => true | _ => false end.
Definition str_gt (a b : string) : bool :=
  match String.compare a b with Gt => true | _ => false end.

(** [bytes.Compare]: lexicographic, a proper prefix is smaller. *)
Fixpoint bytes_Compare (a b : list Byte.byte) : Z :=
  match a, b with
  | [], [] => 0
  | [], _ :: _ => -1
  | _ :: _, [] => 1
  | x :: a', y :: b' =>
      match N.compare (Byte.to_N x) (Byte.to_N y) with
      | Lt => -1
      | Gt => 1
      | Eq => bytes_Compare a' b'
      end
  end.

(** The loop [for i, t := range n.Types] of [NameObject.CompareTo]:
    [nameObj.Types[i]] is read at every index of [n.Types], which panics
    once [i] reaches [len(nameObj.Types)]. *)
Fixpoint NameObject_compareTypes (ts us : list ObjectType) : result Z :=
  match ts with
  | [] => Ok 0
  | t :: ts' =>
      match us with
      | [] => Panic "index out of range"
      | u :: us' =>
          if t <? u then Ok (-1)
          else if t >? u then Ok 1
          else NameObject_compareTypes ts' us'
      end
  end.

Definition NameObject_CompareTo (n nameObj : NameObject) : result Z :=
  if str_lt (Name n) (Name nameObj) then Ok (-1)
  else if str_gt (Name n) (Name nameObj) then Ok 1
  else NameObject_compareTypes (Types n) (Types nameObj).

Definition PublicKey_CompareTo (p pkey : PublicKey) : Z :=
  if PK_Type p <? PK_Type pkey then -1
  else if PK_Type p >? PK_Type pkey then 1
  else if PK_KeySpace p <? PK_KeySpace pkey then -1
  else if PK_KeySpace p >? PK_KeySpace pkey then 1
  else if PK_ValidSince p <? PK_ValidSince pkey then -1
  else if PK_ValidSince p >? PK_ValidSince pkey then 1
  else if PK_ValidUntil p <? PK_ValidUntil pkey then -1
  else if PK_ValidUntil p >? PK_ValidUntil pkey then 1
  else
    match PK_Key p with
    | KeyEd25519 k1 =>
        match PK_Key pkey with
        | KeyEd25519 k2 => bytes_Compare k1 k2
        | _ => 0
        end
    | _ => 0
    end.

Definition CertificateObject_CompareTo (c cert : CertificateObject) : Z :=
  if Cert_Type c <? Cert_Type cert then -1
  else if Cert_Type c >? Cert_Type cert then 1
  else if Cert_Usage c <? Cert_Usage cert then -1
  else if Cert_Usage c >? Cert_Usage cert then 1
  else if Cert_HashAlgo c <? Cert_HashAlgo cert then -1
  else if Cert_HashAlgo c >? Cert_HashAlgo cert then 1
  else bytes_Compare (Cert_Data c) (Cert_Data cert).

Definition ServiceInfo_CompareTo (s serviceInfo : ServiceInfo) : Z :=
  if str_lt (SI_Name s) (SI_Name serviceInfo) then -1
  else if str_gt (SI_Name s) (SI_Name serviceInfo) then 1
  else if SI_Port s <? SI_Port serviceInfo then -1
  else if SI_Port s >? SI_Port serviceInfo then 1
  else if SI_Priority s <? SI_Priority serviceInfo then -1
  else if SI_Priority s >? SI_Priority serviceInfo then 1
  else 0.

(** [Object.CompareTo]: the tag first, then the payload by the dynamic
    type of [o.Value]; a payload of another type on the right, or an
    unsupported one on the left, is logged and falls through to
    [return 0]. *)
Definition CompareTo (o object : Object) : result Z :=
  if Type_ o <? Type_ object then Ok (-1)
  else if Type_ o >? Type_ object then Ok 1
  else
    match Value o with
    | VNameObject v1 =>
        match Value object with
        | VNameObject v2 => NameObject_CompareTo v1 v2
        | _ => Ok 0
        end
    | VString v1 =>
        match Value object with
        | VString v2 =>
            if str_lt v1 v2 then Ok (-1)
            else if str_gt v1 v2 then Ok 1
            else Ok 0
        | _ => Ok 0
        end
    | VPublicKey v1 =>
        match Value object with
        | VPublicKey v2 => Ok (PublicKey_CompareTo v1 v2)
        | _ => Ok 0
        end
    | VNamesetExpression v1 =>
        match Value object with
        | VNamesetExpression v2 =>
            if str_lt v1 v2 then Ok (-1)
            else if str_gt v1 v2 then Ok 1
            else Ok 0
        | _ => Ok 0
        end
    | VCertificateObject v1 =>
        match Value object with
        | VCertificateObject v2 => Ok (CertificateObject_CompareTo v1 v2)
        | _ => Ok 0
        end
    | VServiceInfo v1 =>
        match Value object with
        | VServiceInfo v2 => Ok (ServiceInfo_CompareTo v1 v2)
        | _ => Ok 0
        end
    | VOther => Ok 0
    end.

(** Two alias objects for the same name; the second is valid for one
    more object type than the first. *)
Definition alias_ip4 : Object :=
  {| Type_ := OTName;
     Value := VNameObject {| Name := "ethz2.ch"; Types := [OTIP4Addr] |} |}.
Definition alias_ip4_ip6 : Object :=
  {| Type_ := OTName;
     Value := VNameObject {| Name := "ethz2.ch";
                             Types := [OTIP4Addr; OTIP6Addr] |} |}.

(** [sort.Slice] over a slice of object types with [<] as its [less]:
    the slice rearranged in nondecreasing order. Object types are
    integers, so the outcome does not depend on the sorting algorithm. *)
Definition sortTypes (ts : list ObjectType) : list ObjectType :=
  merge_sort Z.le ts.

(** [Object.Sort]. The type assertion copies the [NameObject] but not
    the array behind [Types], so the sort is seen through [o.Value].
    The second component tells whether the error line for an external
    key was logged. *)
Definition Sort (o : Object) : Object * bool :=
  ({| Type_ := Type_ o;
      Value :=
        match Value o with
        | VNameObject name =>
            VNameObject {| Name := Name name;
                           Types := sortTypes (Types name) |}
        | v => v
        end |},
   Type_ o =? OTExtraKey).

(** What [PublicKey.CompareTo] looks at in the key itself: the bytes,
    and only when both keys are ed25519 keys. *)
Definition sameKeyData (p q : PublicKey) : Prop :=
  match PK_Key p, PK_Key q with
  | KeyEd25519 k1, KeyEd25519 k2 => k1 = k2
  | _, _ => True
  end.

(** Objects whose payload is a Go [string]. *)
Definition stringValued (o : Object) : bool :=
  match Value o with
  | VString _ => true
  | _ => false
  end.

End rainslib.

(** * util: validity of a section from key and signature lifetimes *)

Module util.















End util.

(** * rainsd: the resolution engine *)

Module rainsd.
Import rainslib.

(** ** Strings: the two library calls of [getZoneAndName] *)

(** Go's [strings.Split(s, sep)] for a one-byte separator: the pieces
    between the separators, in order; never empty, [Split "" sep] is
    the one-element list holding the empty string. *)
Fixpoint Split (s : string) (sep : ascii) : list string :=
  match s with
  | EmptyString => [EmptyString]
  | String c r =>
      if Ascii.eqb c sep then EmptyString :: Split r sep
      else
        match Split r sep with
        | h :: t => String c h :: t
        | [] => [String c EmptyString]
        end
  end.

(** Go's [strings.Join(elems, sep)]. *)
Fixpoint Join (elems : list string) (sep : string) : string :=
  match elems with
  | [] => EmptyString
  | [a] => a
  | a :: rest => a +:+ sep +:+ Join rest sep
  end.

Record zoneAndName := {
  zone : string;
  name : string
}.

(** [getZoneAndName]: [names[0]] and [names[1:]] both panic on an empty
    slice. *)
Definition getZoneAndName (qname : string) : result (list zoneAndName) :=
  let names := Split qname "." in
  match names with
  | [] => Panic "index out of range"
  | n0 :: rest => Ok [ {| zone := Join rest "."; name := n0 |} ]
  end.

(** [no_dot s]: the byte ['.'] does not occur in [s]. *)
Fixpoint no_dot (s : string) : bool :=
  match s with
  | EmptyString => true
  | String c r => negb (Ascii.eqb c ".") && no_dot r
  end.

(** ** Messages *)

(** A token is 16 opaque bytes, read here as the number they spell;
    [[16]byte{}] is [zeroToken]. *)
Definition Token := N.
Definition zeroToken : Token := 0%N.

(** Modelled from the spec: the declaration of [ConnInfo] and its
    [Equal] method are not among the sources; an address is a type, an
    IP address and a port, and [Equal] holds of equal addresses. *)
Record ConnInfo := {
  CI_Type : Z;
  CI_IPAddr : string;
  CI_Port : Z
}.

#[global] Instance ConnInfo_eq_dec : EqDecision ConnInfo.
Proof. solve_decision. Defined.

Definition ConnInfo_Equal (a b : ConnInfo) : bool := bool_decide (a = b).

Record Signature := {
  Sig_KeySpace : Z;
  Sig_Algorithm : Z;
  Sig_ValidSince : Z;
  Sig_ValidUntil : Z;
  Sig_Data : list Byte.byte
}.

Record AssertionSection := {
  A_SubjectName : string;
  A_SubjectZone : string;
  A_Context : string;
  A_Content : list Object;
  A_Signatures : list Signature
}.

Record ShardSection := {
  S_Content : list AssertionSection;
  S_Context : string;
  S_SubjectZone : string;
  S_RangeFrom : string;
  S_RangeTo : string;
  S_Signatures : list Signature
}.

(** An element of [ZoneSection.Content]: the two cases of the type
    switch in [assertZone], and [ZUnsupported] for any other section
    with signatures. *)
Inductive ZoneContent :=
| ZAssertion (a : AssertionSection)
| ZShard (s : ShardSection)
| ZUnsupported (goType : string).

Record ZoneSection := {
  Z_Content : list ZoneContent;
  Z_Context : string;
  Z_SubjectZone : string;
  Z_Signatures : list Signature
}.

(** [rainslib.MessageSectionWithSig]: the cases of the type switch in
    [assert]. *)
Inductive MessageSectionWithSig :=
| SecAssertion (a : AssertionSection)
| SecShard (s : ShardSection)
| SecZone (z : ZoneSection)
| SecUnknown (goType : string).

(** The methods [ValidFrom()] and [ValidUntil()] of a section with
    signatures; their bodies are not among the sources, so each section
    type comes with an instance taken as given. *)
Class Validity (T : Type) := {
  ValidFrom : T -> Z;
  ValidUntil : T -> Z
}.

Inductive QueryOption :=
| MinE2ELatency
| MinLastHopAnswerSize
| MinInfoLeakage
| CachedAnswersOnly
| ExpiredAssertionsOk
| TokenTracing
| NoVerificationDelegation
| NoProactiveCaching.

#[global] Instance QueryOption_eq_dec : EqDecision QueryOption.
Proof. solve_decision. Defined.

Record QuerySection := {
  Q_Token : Token;
  Q_Name : string;
  Q_Context : string;
  Q_Type : ObjectType;
  Q_Expires : Z;
  Q_Options : list QueryOption
}.

(** Modelled from the spec: [QuerySection.ContainsOption] is not among
    the sources; it holds when the option is one of the query's. *)
Definition ContainsOption (q : QuerySection) (o : QueryOption) : bool :=
  bool_decide (o ∈ Q_Options q).

Inductive NotificationType :=
| Heartbeat
| CapHashNotKnown
| BadMessage
| RcvInconsistentMsg
| NoAssertionsExist
| MsgTooLarge
| UnspecServerErr
| ServerNotCapable
| NoAssertionAvail.

(** The message built by [sendQueryAnswer]; its other fields stay at
    their zero values. *)
Record RainsMessage := {
  Msg_Content : list MessageSectionWithSig;
  Msg_Token : Token
}.

Record sectionWithSigSender := {
  SWS_Section : MessageSectionWithSig;
  SWS_Sender : ConnInfo;
  SWS_Token : Token
}.

Record msgSectionSender := {
  MSS_Section : MessageSectionWithSig;
  MSS_Sender : ConnInfo;
  MSS_Token : Token
}.

(** ** Cache values *)

Record assertionCacheValue := {
  acv_section : AssertionSection;
  acv_validFrom : Z;
  acv_validUntil : Z
}.

Record negativeAssertionCacheValue := {
  ncv_section : MessageSectionWithSig;
  ncv_validFrom : Z;
  ncv_validUntil : Z
}.

Record pendingQuerySetValue := {
  connInfo : ConnInfo;
  token : Token;
  validUntil : Z
}.

(** ** The trace of an engine call

    Every call the engine makes to a collaborator whose code lies
    outside the engine is recorded, in order: log lines, cache
    operations, the channel and the network. *)

Inductive logLevel := LvlDebug | LvlInfo | LvlWarn | LvlError.

Inductive event :=
| EvLog (lvl : logLevel) (msg : string)
| EvAssertionsCacheAdd (context zone name : string) (t : ObjectType)
    (isAuthoritative : bool) (value : assertionCacheValue)
| EvNegAssertionCacheAdd (context zone : string) (isAuthoritative : bool)
    (value : negativeAssertionCacheValue)
| EvPendingQueriesAdd (context zone name : string) (t : ObjectType)
    (value : pendingQuerySetValue)
| EvPendingQueriesGetAllAndDelete (tok : Token)
| EvPendingSignaturesGetAllAndDelete (context zone : string)
| EvNormalChannel (m : msgSectionSender)
| EvSendTo (msg : list Byte.byte) (to : ConnInfo)
| EvSendNotificationMsg (tok : Token) (to : ConnInfo) (t : NotificationType)
| EvSendQuery (context zone : string) (expires : Z) (t : ObjectType)
    (tok : Token) (delegate : ConnInfo).

(** ** Cache interfaces

    [assertionCache], [negativeAssertionCache] and the pending-signature
    cache are interfaces in the source and stay abstract: an
    implementation is a type of cache states with the operations the
    engine calls. A lookup hands back the cache as well, since it may
    reorder the bookkeeping of an LRU cache. *)

Class assertionCache (C : Type) := {
  ac_Add : C -> string -> string -> string -> ObjectType -> bool ->
           assertionCacheValue -> C;
  ac_Get : C -> string -> string -> string -> ObjectType -> bool ->
           list AssertionSection * bool * C
}.

Class negativeAssertionCache (C : Type) := {
  nc_Add : C -> string -> string -> bool -> negativeAssertionCacheValue -> C;
  nc_Get : C -> string -> string -> string ->
           MessageSectionWithSig * bool * C
}.

Class pendingSignatureCache (C : Type) := {
  ps_GetAllAndDelete : C -> string -> string ->
                       list sectionWithSigSender * bool * C
}.

(** Modelled from the spec: the implementation behind the
    [pendingQueryCache] interface is not among the sources. The cache is
    a table from the upstream token to the waiters recorded for it,
    bounded by a capacity counted in waiters. [Add] records a waiter
    under the token it carries, the only token [Add] is given, and
    rejects it when the cache is full; [GetAllAndDelete] fetches all
    waiters of a token and removes them in one step. *)
Record pendingQueryCache := {
  pq_capacity : nat;
  pq_table : gmap N (list pendingQuerySetValue)
}.

Definition pq_waiters (c : pendingQueryCache) : nat :=
  map_fold (fun _ vs n => (length vs + n)%nat) 0%nat (pq_table c).

Definition pq_Add (c : pendingQueryCache) (context zone name : string)
    (t : ObjectType) (value : pendingQuerySetValue)
  : bool * pendingQueryCache :=
  if (pq_capacity c <=? pq_waiters c)%nat then (false, c)
  else
    (true,
     {| pq_capacity := pq_capacity c;
        pq_table :=
          <[ token value :=
               default [] (pq_table c !! token value) ++ [value] ]>
          (pq_table c) |}).

Definition pq_GetAllAndDelete (c : pendingQueryCache) (tok : Token)
  : list pendingQuerySetValue * bool * pendingQueryCache :=
  match pq_table c !! tok with
  | Some values =>
      (values, true,
       {| pq_capacity := pq_capacity c;
          pq_table := delete tok (pq_table c) |})
  | None => ([], false, c)
  end.

Definition createPendingQueryCache (size : nat) : pendingQueryCache :=
  {| pq_capacity := size; pq_table := ∅ |}.

(** ** Configuration *)

(** The options of [Config] the engine reads, durations in whole
    seconds. *)
Record rainsdConfig := {
  MaxCacheAssertionValidity : Z;
  MaxCacheShardValidity : Z;
  MaxCacheZoneValidity : Z;
  AssertionQueryValidity : Z
}.

(** ** Engine state *)

(** The package-level variables of the engine, the source of
    [rainslib.GenerateToken] (the [tokenCount]-th call returns
    [tokenSource tokenCount]) and the trace. *)
Record engine (AC NC PS : Type) := {
  assertionsCache : AC;
  negAssertionCache : NC;
  pendingQueries : pendingQueryCache;
  pendingSignatures : PS;
  tokenSource : nat -> Token;
  tokenCount : nat;
  trace : list event
}.
Arguments assertionsCache {AC NC PS} e.
Arguments negAssertionCache {AC NC PS} e.
Arguments pendingQueries {AC NC PS} e.
Arguments pendingSignatures {AC NC PS} e.
Arguments tokenSource {AC NC PS} e.
Arguments tokenCount {AC NC PS} e.
Arguments trace {AC NC PS} e.

(** The outcome of an engine call: it returns, or it panics; the state
    reached is kept in both cases. *)
Inductive outcome (S A : Type) : Type :=
| Done (a : A) (s : S)
| Panicked (msg : string) (s : S).
Arguments Done {S A} a s.
Arguments Panicked {S A} msg s.

Definition stateOf {S A : Type} (o : outcome S A) : S :=
  match o with
  | Done _ s => s
  | Panicked _ s => s
  end.

(** ** In-memory instances of the cache interfaces

    Unbounded stores that keep every entry, used to run the engine on
    concrete inputs. *)

Record storedAssertion := {
  sa_context : string;
  sa_zone : string;
  sa_name : string;
  sa_type : ObjectType;
  sa_authoritative : bool;
  sa_value : assertionCacheValue
}.

Definition sa_matches (context zone name : string) (t : ObjectType)
    (e : storedAssertion) : bool :=
  String.eqb (sa_context e) context && String.eqb (sa_zone e) zone &&
  String.eqb (sa_name e) name && (sa_type e =? t).

#[global] Instance listAssertionCache : assertionCache (list storedAssertion) := {
  ac_Add c context zone name t isAuthoritative value :=
    c ++ [ {| sa_context := context; sa_zone := zone; sa_name := name;
              sa_type := t; sa_authoritative := isAuthoritative;
              sa_value := value |} ];
  ac_Get c context zone name t expiredAllowed :=
    let hits :=
      List.map (fun e => acv_section (sa_value e))
               (List.filter (sa_matches context zone name t) c) in
    (hits, negb (Nat.eqb (length hits) 0), c)
}.

Record storedNegAssertion := {
  sn_context : string;
  sn_zone : string;
  sn_authoritative : bool;
  sn_value : negativeAssertionCacheValue
}.

(** The in-memory negative cache answers with the first entry stored
    for the context and zone, whatever its range. *)
#[global] Instance listNegAssertionCache
  : negativeAssertionCache (list storedNegAssertion) := {
  nc_Add c context zone isAuthoritative value :=
    c ++ [ {| sn_context := context; sn_zone := zone;
              sn_authoritative := isAuthoritative; sn_value := value |} ];
  nc_Get c context zone point :=
    match List.filter
            (fun e => String.eqb (sn_context e) context &&
                      String.eqb (sn_zone e) zone) c with
    | e :: _ => (ncv_section (sn_value e), true, c)
    | [] => (SecUnknown "nil", false, c)
    end
}.

(** The in-memory pending-signature cache holds sections per context
    and zone. *)
#[global] Instance listPendingSignatureCache
  : pendingSignatureCache (list (string * string * sectionWithSigSender)) := {
  ps_GetAllAndDelete c context zone :=
    let mine (e : string * string * sectionWithSigSender) :=
      String.eqb (fst (fst e)) context && String.eqb (snd (fst e)) zone in
    let hits := List.map snd (List.filter mine c) in
    (hits, negb (Nat.eqb (length hits) 0),
     List.filter (fun e => negb (mine e)) c)
}.

(** Validity of a section read off its signatures: the earliest start
    and the latest end among them. *)
Definition sigsValidFrom (sigs : list Signature) : Z :=
  List.fold_right (fun s acc => Z.min (Sig_ValidSince s) acc)
                  9223372036854775807 sigs.
Definition sigsValidUntil (sigs : list Signature) : Z :=
  List.fold_right (fun s acc => Z.max (Sig_ValidUntil s) acc) 0 sigs.

Definition sigValidityA : Validity AssertionSection :=
  {| ValidFrom a := sigsValidFrom (A_Signatures a);
     ValidUntil a := sigsValidUntil (A_Signatures a) |}.
Definition sigValidityS : Validity ShardSection :=
  {| ValidFrom s := sigsValidFrom (S_Signatures s);
     ValidUntil s := sigsValidUntil (S_Signatures s) |}.
Definition sigValidityZ : Validity ZoneSection :=
  {| ValidFrom z := sigsValidFrom (Z_Signatures z);
     ValidUntil z := sigsValidUntil (Z_Signatures z) |}.

(** ** Sample data

    A server, an upstream, a client, and the sections and query of the
    repository's test message ([GetMessage]): signature validity
    [1000 .. 2000], query ["ethz.ch"] for an IPv4 address. *)

Definition sampleConfig : rainsdConfig :=
  {| MaxCacheAssertionValidity := 3600;
     MaxCacheShardValidity := 3600;
     MaxCacheZoneValidity := 3600;
     AssertionQueryValidity := 10 |}.

Definition sampleServer : ConnInfo :=
  {| CI_Type := 1; CI_IPAddr := "127.0.0.1"; CI_Port := 5022 |}.
Definition sampleUpstream : ConnInfo :=
  {| CI_Type := 1; CI_IPAddr := "192.0.2.1"; CI_Port := 5022 |}.
Definition sampleClient : ConnInfo :=
  {| CI_Type := 1; CI_IPAddr := "192.0.2.7"; CI_Port := 40000 |}.

(** An encoder that always succeeds: one byte for the token, one for
    the number of sections. *)
Definition sampleParse (m : RainsMessage) : option (list Byte.byte) :=
  match Byte.of_N (m.(Msg_Token) mod 256),
        Byte.of_N (N.of_nat (length m.(Msg_Content)) mod 256) with
  | Some t, Some n => Some [t; n]
  | _, _ => Some []
  end.

Definition sampleSignature : Signature :=
  {| Sig_KeySpace := 0; Sig_Algorithm := 1;
     Sig_ValidSince := 1000; Sig_ValidUntil := 2000;
     Sig_Data := [] |}.

Definition ip4Object : Object :=
  {| Type_ := OTIP4Addr; Value := VString "127.0.0.1" |}.
Definition redirObject : Object :=
  {| Type_ := OTRedirection; Value := VString "ns.ethz.ch" |}.

Definition sampleAssertion : AssertionSection :=
  {| A_SubjectName := "ethz"; A_SubjectZone := "ch"; A_Context := ".";
     A_Content := [ip4Object; redirObject];
     A_Signatures := [sampleSignature] |}.

(** The zero-object assertion. *)
Definition emptyAssertion : AssertionSection :=
  {| A_SubjectName := "ethz"; A_SubjectZone := "ch"; A_Context := ".";
     A_Content := [];
     A_Signatures := [sampleSignature] |}.

(** An assertion signed for a window that starts long after the
    sample clock readings. *)
Definition futureAssertion : AssertionSection :=
  {| A_SubjectName := "ethz"; A_SubjectZone := "ch"; A_Context := ".";
     A_Content := [ip4Object];
     A_Signatures :=
       [ {| Sig_KeySpace := 0; Sig_Algorithm := 1;
            Sig_ValidSince := 10000; Sig_ValidUntil := 20000;
            Sig_Data := [] |} ] |}.

Definition sampleQuery : QuerySection :=
  {| Q_Token := 7%N; Q_Name := "ethz.ch"; Q_Context := ".";
     Q_Type := OTIP4Addr; Q_Expires := 159159;
     Q_Options := [MinE2ELatency; MinInfoLeakage] |}.

Definition cachedOnlyQuery : QuerySection :=
  {| Q_Token := 7%N; Q_Name := "ethz.ch"; Q_Context := ".";
     Q_Type := OTIP4Addr; Q_Expires := 159159;
     Q_Options := [CachedAnswersOnly] |}.

Abbreviation sampleEngine :=
  (engine (list storedAssertion) (list storedNegAssertion)
          (list (string * string * sectionWithSigSender))).

(** Empty caches, room for ten waiters; the token source mints
    [1000, 1001, ...]. *)
Definition emptyEngine : sampleEngine :=
  {| assertionsCache := [];
     negAssertionCache := [];
     pendingQueries := createPendingQueryCache 10;
     pendingSignatures := [];
     tokenSource := fun n => (1000 + N.of_nat n)%N;
     tokenCount := 0;
     trace := [] |}.

Definition liveWaiter : pendingQuerySetValue :=
  {| connInfo := sampleClient; token := 7%N; validUntil := 1600 |}.
Definition expiredWaiter : pendingQuerySetValue :=
  {| connInfo := sampleClient; token := 8%N; validUntil := 1400 |}.

(** Two waiters recorded under the upstream token [42]. *)
Definition waitingEngine : sampleEngine :=
  {| assertionsCache := [];
     negAssertionCache := [];
     pendingQueries :=
       {| pq_capacity := 10;
          pq_table := {[ 42%N := [liveWaiter; expiredWaiter] ]} |};
     pendingSignatures := [];
     tokenSource := fun n => (1000 + N.of_nat n)%N;
     tokenCount := 0;
     trace := [] |}.

Definition alwaysConsistent {AC NC T : Type} : AC -> NC -> T -> bool :=
  fun _ _ _ => true.

(** A resolver that knows one upstream for every zone. *)
Definition sampleDelegate {AC : Type} : AC -> string -> string -> ConnInfo :=
  fun _ _ _ => sampleUpstream.

(** A shard and a zone around the sample assertion, and their copies
    signed for a window that starts long after the sample clock
    readings. *)
Definition sampleShard : ShardSection :=
  {| S_Content := [sampleAssertion]; S_Context := "."; S_SubjectZone := "ch";
     S_RangeFrom := "aaa"; S_RangeTo := "zzz";
     S_Signatures := [sampleSignature] |}.

Definition sampleZone : ZoneSection :=
  {| Z_Content := [ZAssertion sampleAssertion; ZShard sampleShard];
     Z_Context := "."; Z_SubjectZone := "ch";
     Z_Signatures := [sampleSignature] |}.

Definition futureShard : ShardSection :=
  {| S_Content := [sampleAssertion]; S_Context := "."; S_SubjectZone := "ch";
     S_RangeFrom := "aaa"; S_RangeTo := "zzz";
     S_Signatures := A_Signatures futureAssertion |}.

Definition futureZone : ZoneSection :=
  {| Z_Content := [ZAssertion sampleAssertion; ZShard sampleShard];
     Z_Context := "."; Z_SubjectZone := "ch";
     Z_Signatures := A_Signatures futureAssertion |}.

(** The engine with the sample assertion in the assertion cache, and
    the engine with the sample shard in the negative cache. *)
Definition cachedEngine : sampleEngine :=
  {| assertionsCache :=
       [ {| sa_context := "."; sa_zone := "ch"; sa_name := "ethz";
            sa_type := OTIP4Addr; sa_authoritative := false;
            sa_value := {| acv_section := sampleAssertion;
                           acv_validFrom := 1000;
                           acv_validUntil := 2000 |} |} ];
     negAssertionCache := [];
     pendingQueries := createPendingQueryCache 10;
     pendingSignatures := [];
     tokenSource := fun n => (1000 + N.of_nat n)%N;
     tokenCount := 0;
     trace := [] |}.

Definition negCachedEngine : sampleEngine :=
  {| assertionsCache := [];
     negAssertionCache :=
       [ {| sn_context := "."; sn_zone := "ch"; sn_authoritative := false;
            sn_value := {| ncv_section := SecShard sampleShard;
                           ncv_validFrom := 1000;
                           ncv_validUntil := 2000 |} |} ];
     pendingQueries := createPendingQueryCache 10;
     pendingSignatures := [];
     tokenSource := fun n => (1000 + N.of_nat n)%N;
     tokenCount := 0;
     trace := [] |}.

Definition neverConsistent {AC NC T : Type} : AC -> NC -> T -> bool :=
  fun _ _ _ => false.

(** A resolver that names the server itself for every zone. *)
Definition selfDelegate {AC : Type} : AC -> string -> string -> ConnInfo :=
  fun _ _ _ => sampleServer.

(** ** rainspub: the zone-file parser

    The parser reads its input through a [bufio.Scanner] splitting on
    words. The scanner is modelled by the word it stands on ([Text],
    empty before the first [Scan] and once the input is exhausted) and
    the words not yet read. *)

Module rainspub.

Record Scanner := {
  Text : string;
  unread : list string
}.

Definition newScanner (words : list string) : Scanner :=
  {| Text := EmptyString; unread := words |}.

(** [scanner.Scan()] *)
Definition Scan (sc : Scanner) : Scanner :=
  match unread sc with
  | [] => {| Text := EmptyString; unread := [] |}
  | w :: rest => {| Text := w; unread := rest |}
  end.

(** Go's [strconv.Atoi] where [int] has 64 bits: an optional sign and
    at least one decimal digit, nothing else, the value within
    [-2^63 .. 2^63-1]; [None] stands for its error. *)
Definition digitValue (c : ascii) : option Z :=
  let n := Z.of_N (N_of_ascii c) in
  if (48 <=? n) && (n <=? 57) then Some (n - 48) else None.

Fixpoint digitsValue (acc : Z) (s : string) : option Z :=
  match s with
  | EmptyString => Some acc
  | String c r =>
      match digitValue c with
      | Some d => digitsValue (acc * 10 + d) r
      | None => None
      end
  end.

Definition Atoi (s : string) : option Z :=
  let signed :=
    match s with
    | String c r =>
        if Ascii.eqb c "-" then (true, r)
        else if Ascii.eqb c "+" then (false, r)
        else (false, s)
    | EmptyString => (false, s)
    end in
  match snd signed with
  | EmptyString => None
  | digits =>
      match digitsValue 0 digits with
      | Some v =>
          let n := if fst signed then - v else v in
          if (- 2 ^ 63 <=? n) && (n <=? 2 ^ 63 - 1) then Some n else None
      | None => None
      end
  end.

(** The errors the parser returns. *)
Inductive parseError :=
| ErrZoneContent (got : string)
    (* "Expected a shard or assertion inside the zone but got=%s" *)
| ErrShardContent (got : string)
    (* "zone file malformated. Expected Assertion inside shard but got=%s" *)
| ErrObjectType
    (* "Encountered non existing object type" *)
| ErrCertProtocol
    (* "Encountered non existing certificate protocol type" *)
| ErrCertUsage
    (* "Encountered non existing certificate usage" *)
| ErrCertHash
    (* "Encountered non existing certificate hash algorithm" *)
| ErrAtoi (input : string).
    (* the error of strconv.Atoi on [input] *)

(** [getCertPT] *)
Definition getCertPT (certType : string) : parseError + Z :=
  if String.eqb certType "0" then inr 0
  else if String.eqb certType "1" then inr 1
  else inl ErrCertProtocol.

(** [getCertUsage] *)
Definition getCertUsage (certType : string) : parseError + Z :=
  if String.eqb certType "2" then inr 2
  else if String.eqb certType "3" then inr 3
  else inl ErrCertUsage.

(** [getCertHashType] *)
Definition getCertHashType (certType : string) : parseError + Z :=
  if String.eqb certType "0" then inr 0
  else if String.eqb certType "1" then inr 1
  else if String.eqb certType "2" then inr 2
  else if String.eqb certType "3" then inr 3
  else inl ErrCertHash.

(** [getCertObject]; [Data] is [scanner.Bytes()], the bytes of the word
    the scanner stands on when the function returns. *)
Definition getCertObject (sc : Scanner)
  : parseError + (CertificateObject * Scanner) :=
  let sc := Scan sc in
  match getCertPT (Text sc) with
  | inl err => inl err
  | inr certType =>
      let sc := Scan sc in
      match getCertUsage (Text sc) with
      | inl err => inl err
      | inr usage =>
          let sc := Scan sc in
          match getCertHashType (Text sc) with
          | inl err => inl err
          | inr hashAlgo =>
              let sc := Scan sc in
              inr ({| Cert_Type := certType; Cert_Usage := usage;
                      Cert_HashAlgo := hashAlgo;
                      Cert_Data := list_byte_of_string (Text sc) |}, sc)
          end
      end
  end.

(** The object types whose data is one word kept as a string. *)
Definition simpleObjectType (tag : string) : option ObjectType :=
  if String.eqb tag ":name:" then Some OTName
  else if String.eqb tag ":ip6:" then Some OTIP6Addr
  else if String.eqb tag ":ip4:" then Some OTIP4Addr
  else if String.eqb tag ":redir:" then Some OTRedirection
  else if String.eqb tag ":nameset:" then Some OTNameset
  else if String.eqb tag ":regr:" then Some OTRegistrar
  else if String.eqb tag ":regt:" then Some OTRegistrant
  else None.

(** The object types that carry a public key, for which the parser
    reads no data. *)
Definition keyObjectTag (tag : string) : bool :=
  String.eqb tag ":deleg:" || String.eqb tag ":infra:" ||
  String.eqb tag ":extra:".

(** The loop of [parseAssertion]: one turn per object, until the
    scanner stands on ["]"]. [fuel] bounds the number of turns; [None]
    means the bound was reached. *)
Fixpoint parseObjects (fuel : nat) (sc : Scanner) (objects : list Object)
  : option (parseError + (list Object * Scanner)) :=
  match fuel with
  | O => None
  | S fuel' =>
      if String.eqb (Text sc) "]" then Some (inr (objects, sc))
      else
        match simpleObjectType (Text sc) with
        | Some t =>
            let sc := Scan sc in
            parseObjects fuel' (Scan sc)
              (objects ++ [ {| Type_ := t; Value := VString (Text sc) |} ])
        | None =>
            if keyObjectTag (Text sc) then
              parseObjects fuel' (Scan sc) objects
            else if String.eqb (Text sc) ":cert:" then
              match getCertObject sc with
              | inl err => Some (inl err)
              | inr (cert, sc) =>
                  parseObjects fuel' (Scan sc)
                    (objects ++ [ {| Type_ := OTCertInfo;
                                     Value := VCertificateObject cert |} ])
              end
            else if String.eqb (Text sc) ":srv:" then
              let sc := Scan sc in
              let srvName := Text sc in
              let sc := Scan sc in
              match Atoi (Text sc) with
              | None => Some (inl (ErrAtoi (Text sc)))
              | Some portNr =>
                  let sc := Scan sc in
                  match Atoi (Text sc) with
                  | None => Some (inl (ErrAtoi (Text sc)))
                  | Some prio =>
                      parseObjects fuel' (Scan sc)
                        (objects ++
                         [ {| Type_ := OTServiceInfo;
                              Value :=
                                VServiceInfo
                                  {| SI_Name := srvName;
                                     SI_Port := portNr mod 2 ^ 16;
                                     SI_Priority := prio mod 2 ^ 64 |} |} ])
                  end
              end
            else Some (inl ErrObjectType)
        end
  end.

(** Enough turns for any input: a turn that goes on reads at least one
    word while there is one, and stops at the second empty word. *)
Definition turnsFor (sc : Scanner) : nat := S (S (length (unread sc))).

(** [parseAssertion] *)
Definition parseAssertion (context zone : string) (sc : Scanner)
  : option (parseError + (AssertionSection * Scanner)) :=
  let sc := Scan sc in
  let name := Text sc in
  let sc := Scan sc in
  let sc := Scan sc in
  match parseObjects (turnsFor sc) sc [] with
  | None => None
  | Some (inl err) => Some (inl err)
  | Some (inr (objects, sc)) =>
      Some (inr ({| A_SubjectName := name; A_SubjectZone := zone;
                    A_Context := context; A_Content := objects;
                    A_Signatures := [] |}, sc))
  end.

(** The loop of [parseShard]. *)
Fixpoint parseShardLoop (fuel : nat) (context zone : string) (sc : Scanner)
    (assertions : list AssertionSection)
  : option (parseError + (list AssertionSection * Scanner)) :=
  match fuel with
  | O => None
  | S fuel' =>
      if String.eqb (Text sc) "]" then Some (inr (assertions, sc))
      else if negb (String.eqb (Text sc) ":A:") then
        Some (inl (ErrShardContent (Text sc)))
      else
        match parseAssertion context zone sc with
        | None => None
        | Some (inl err) => Some (inl err)
        | Some (inr (a, sc)) =>
            parseShardLoop fuel' context zone (Scan sc) (assertions ++ [a])
        end
  end.

(** [parseShard] *)
Definition parseShard (context zone : string) (sc : Scanner)
  : option (parseError + (list AssertionSection * Scanner)) :=
  let sc := Scan sc in
  let sc := Scan sc in
  parseShardLoop (turnsFor sc) context zone sc [].

(** The loop of [parseZoneFile]. *)
Fixpoint parseZoneLoop (fuel : nat) (context zone : string) (sc : Scanner)
    (assertions : list AssertionSection)
  : option (parseError + list AssertionSection) :=
  match fuel with
  | O => None
  | S fuel' =>
      if String.eqb (Text sc) "]" then Some (inr assertions)
      else if String.eqb (Text sc) ":A:" then
        match parseAssertion context zone sc with
        | None => None
        | Some (inl err) => Some (inl err)
        | Some (inr (a, sc)) =>
            parseZoneLoop fuel' context zone (Scan sc) (assertions ++ [a])
        end
      else if String.eqb (Text sc) ":S:" then
        match parseShard context zone sc with
        | None => None
        | Some (inl err) => Some (inl err)
        | Some (inr (asserts, sc)) =>
            parseZoneLoop fuel' context zone (Scan sc) (assertions ++ asserts)
        end
      else Some (inl (ErrZoneContent (Text sc)))
  end.

(** [parseZoneFile] on the words of the file. The first component tells
    whether the warning for a file that does not start with [":Z:"] was
    logged. *)
Definition parseZoneFile (words : list string)
  : bool * option (parseError + list AssertionSection) :=
  let sc := Scan (newScanner words) in
  let warned := negb (String.eqb (Text sc) ":Z:") in
  let sc := Scan sc in
  let context := Text sc in
  let sc := Scan sc in
  let zone := Text sc in
  let sc := Scan sc in
  let sc := Scan sc in
  (warned, parseZoneLoop (turnsFor sc) context zone sc []).

(** [fuel] turns are enough for the loops of the parser started on
    [sc]. *)
Definition enoughTurns (fuel : nat) (sc : Scanner) : Prop :=
  (Text sc = EmptyString /\ unread sc = [] /\ (1 <= fuel)%nat) \/
  (length (unread sc) + 2 <= fuel)%nat.

(** The words [parseAssertion] takes for the start of an object. *)
Definition objectTag (w : string) : bool :=
  match simpleObjectType w with
  | Some _ => true
  | None => keyObjectTag w || String.eqb w ":cert:" || String.eqb w ":srv:"
  end.

(** The object types that carry a public key. *)
Definition keyObjectType (t : ObjectType) : bool :=
  (t =? OTDelegation) || (t =? OTInfraKey) || (t =? OTExtraKey) ||
  (t =? OTNextKey).

(** What [parseZoneFile] gives every assertion of a file, whatever the
    file says inside the assertion. *)
Definition fromHeader (context zone : string) (a : AssertionSection) : Prop :=
  A_Context a = context /\ A_SubjectZone a = zone /\ A_Signatures a = [] /\
  Forall (fun o => keyObjectType (Type_ o) = false) (A_Content a).

(** The words of one object entry with one word of data, and of an
    assertion made of such entries, as the zone-file format writes
    them. *)
Definition entryWords (e : string * string) : list string := [fst e; snd e].

Definition entryObject (e : string * string) : option Object :=
  match simpleObjectType (fst e) with
  | Some t => Some {| Type_ := t; Value := VString (snd e) |}
  | None => None
  end.

Definition isSimpleEntry (e : string * string) : bool :=
  match simpleObjectType (fst e) with
  | Some _ => true
  | None => false
  end.

(** The zone-file format of the comment on [zoneFileParser], for
    assertions made of such entries:
    [:Z: <context> <zone> [ (:S: <shard> | :A: <assertion>)* ]],
    a shard being [[ (:A: <assertion>)* ]] and an assertion
    [<subject-name> [ (:objectType: <object data>)* ]]. *)
Definition assertionSource : Type := string * list (string * string).


Definition assertionOf (context zone : string) (a : assertionSource)
  : AssertionSection :=
  {| A_SubjectName := fst a; A_SubjectZone := zone; A_Context := context;
     A_Content := omap entryObject (snd a); A_Signatures := [] |}.





Definition simpleAssertion (a : assertionSource) : bool :=
  forallb isSimpleEntry (snd a).


End rainspub.

(** ** The capnp encoder

    [encodeObjects] fills a capnp list which its caller allocated with
    one slot per object. The model gives the calls [list.Set(i, obj)] it
    makes, in order, and the error it returns. The allocations of the
    capnp library, which can fail, and [encodePublicKey] are parameters;
    log lines are left out. *)

Module encoder.

(** The conversions [int32(x)] and [uint32(x)]. *)
Definition int32 (z : Z) : Z := (z + 2 ^ 31) mod 2 ^ 32 - 2 ^ 31.
Definition uint32 (z : Z) : Z := z mod 2 ^ 32.

(** [strconv.Itoa] *)
Definition Itoa (z : Z) : string := NilZero.string_of_int (Z.to_int z).

(** The allocations made for the object at index [i]. *)
Inductive allocation :=
| NewObj (i : nat)
| NewTextList (i : nat)
| NewCertificateObject (i : nat)
| NewServiceInfo (i : nat).

(** The type assertions [object.Value.(T)] without [ok]: a value of
    another dynamic type panics. *)
Definition asString (v : ObjectValue) : result string :=
  match v with
  | VString s => Ok s
  | _ => Panic "interface conversion"
  end.

Definition asNamesetExpression (v : ObjectValue) : result string :=
  match v with
  | VNamesetExpression s => Ok s
  | _ => Panic "interface conversion"
  end.

Definition asPublicKey (v : ObjectValue) : result PublicKey :=
  match v with
  | VPublicKey k => Ok k
  | _ => Panic "interface conversion"
  end.

(** The objects [encodeObjects] passes to [list.Set]: those of type
    [OTName], [OTCertInfo] and [OTServiceInfo] reach [continue] before
    it. *)
Definition listed (t : ObjectType) : bool :=
  negb ((t =? OTName) || (t =? OTCertInfo) || (t =? OTServiceInfo)).

Fixpoint listedFrom (i : nat) (objects : list Object) : list nat :=
  match objects with
  | [] => []
  | o :: rest =>
      if listed (Type_ o) then i :: listedFrom (S i) rest
      else listedFrom (S i) rest
  end.

Definition listedSlots (objects : list Object) : list nat :=
  listedFrom 0 objects.

Section Encoder.

Variable encodedKey : Type.
Variable encodePublicKey : PublicKey -> result (string + encodedKey).
Variable allocError : allocation -> option string.

(** The union [Obj.value] of the capnp schema, as the setters fill it. *)
Inductive objValue :=
| NameValue (texts : list string)
| Ip6Value (s : string)
| Ip4Value (s : string)
| RedirValue (s : string)
| DelegValue (k : encodedKey)
| NamesetValue (s : string)
| CertValue (data : list Byte.byte) (type hashAlgo usage : Z)
| ServiceValue (name : string) (port priority : Z)
| RegrValue (s : string)
| RegtValue (s : string)
| InfraValue (k : encodedKey)
| ExtraValue (k : encodedKey).

Record obj := {
  objType : Z;
  value : objValue
}.

(** How one turn of the loop ends: at [list.Set(i, obj)], at
    [continue], or at [return err]. *)
Inductive turn :=
| ListSet (o : obj)
| Continue (o : obj)
| Return (err : string).

Definition setString (t : Z) (mk : string -> objValue) (v : ObjectValue)
  : result turn :=
  match asString v with
  | Panic msg => Panic msg
  | Ok s => Ok (ListSet {| objType := t; value := mk s |})
  end.

Definition setKey (t : Z) (mk : encodedKey -> objValue) (v : ObjectValue)
  : result turn :=
  match asPublicKey v with
  | Panic msg => Panic msg
  | Ok k =>
      match encodePublicKey k with
      | Panic msg => Panic msg
      | Ok (inl err) => Ok (Return err)
      | Ok (inr publicKey) =>
          Ok (ListSet {| objType := t; value := mk publicKey |})
      end
  end.

(** The body of the loop of [encodeObjects]. *)
Definition encodeObject (i : nat) (object : Object) : result turn :=
  match allocError (NewObj i) with
  | Some err => Ok (Return err)
  | None =>
      let t := int32 (Type_ object) in
      if Type_ object =? OTName then
        match Value object with
        | VNameObject nameObject =>
            match allocError (NewTextList i) with
            | Some err => Ok (Return err)
            | None =>
                Ok (Continue
                      {| objType := t;
                         value := NameValue
                                    (Name nameObject ::
                                     map Itoa (Types nameObject)) |})
            end
        | _ => Ok (Return "Type assertion failed")
        end
      else if Type_ object =? OTIP6Addr then
        setString t Ip6Value (Value object)
      else if Type_ object =? OTIP4Addr then
        setString t Ip4Value (Value object)
      else if Type_ object =? OTRedirection then
        setString t RedirValue (Value object)
      else if Type_ object =? OTDelegation then
        setKey t DelegValue (Value object)
      else if Type_ object =? OTNameset then
        match asNamesetExpression (Value object) with
        | Panic msg => Panic msg
        | Ok s => Ok (ListSet {| objType := t; value := NamesetValue s |})
        end
      else if Type_ object =? OTCertInfo then
        match Value object with
        | VCertificateObject cert =>
            match allocError (NewCertificateObject i) with
            | Some err => Ok (Return err)
            | None =>
                Ok (Continue
                      {| objType := t;
                         value := CertValue (Cert_Data cert)
                                    (int32 (Cert_Type cert))
                                    (int32 (Cert_HashAlgo cert))
                                    (int32 (Cert_Usage cert)) |})
            end
        | _ => Ok (Return "Type assertion failed")
        end
      else if Type_ object =? OTServiceInfo then
        match Value object with
        | VServiceInfo servInfo =>
            match allocError (NewServiceInfo i) with
            | Some err => Ok (Return err)
            | None =>
                Ok (Continue
                      {| objType := t;
                         value := ServiceValue (SI_Name servInfo)
                                    (SI_Port servInfo)
                                    (uint32 (SI_Priority servInfo)) |})
            end
        | _ => Ok (Return "Type assertion failed")
        end
      else if Type_ object =? OTRegistrar then
        setString t RegrValue (Value object)
      else if Type_ object =? OTRegistrant then
        setString t RegtValue (Value object)
      else if Type_ object =? OTInfraKey then
        setKey t InfraValue (Value object)
      else if Type_ object =? OTExtraKey then
        setKey t ExtraValue (Value object)
      else Ok (Return "Unsupported object type")
  end.

(** The loop [for i, object := range objects], from index [i] on;
    [sets] are the calls [list.Set] made so far. *)
Fixpoint encodeObjectsFrom (i : nat) (objects : list Object)
    (sets : list (nat * obj)) : result (list (nat * obj) * option string) :=
  match objects with
  | [] => Ok (sets, None)
  | object :: rest =>
      match encodeObject i object with
      | Panic msg => Panic msg
      | Ok (Return err) => Ok (sets, Some err)
      | Ok (Continue _) => encodeObjectsFrom (S i) rest sets
      | Ok (ListSet o) => encodeObjectsFrom (S i) rest (sets ++ [(i, o)])
      end
  end.

(** [encodeObjects] *)
Definition encodeObjects (objects : list Object)
  : result (list (nat * obj) * option string) :=
  encodeObjectsFrom 0 objects [].

End Encoder.

Arguments ListSet {encodedKey} o.
Arguments Continue {encodedKey} o.
Arguments Return {encodedKey} err.
Arguments objType {encodedKey} o.
Arguments value {encodedKey} o.

(** The entries of a zone file whose objects [encodeObjects] takes:
    the parser gives a [:name:] and a [:nameset:] entry a plain string
    for value. *)
Definition encodable (e : string * string) : bool :=
  negb (String.eqb (fst e) ":name:" || String.eqb (fst e) ":nameset:").

End encoder.

(** ** The engine *)

Section Engine.

Context {AC NC PS : Type}.
Context {acI : assertionCache AC} {ncI : negativeAssertionCache NC}
        {psI : pendingSignatureCache PS}.
Context {vA : Validity AssertionSection} {vS : Validity ShardSection}
        {vZ : Validity ZoneSection}.

(** Every function that reads the clock takes [now], the value of
    [time.Now().Unix()]; the several readings made during one call are
    taken to be the same second.

    [Config] and [serverConnInfo] are package-level variables set at
    start-up. *)
Variable Config : rainsdConfig.
Variable serverConnInfo : ConnInfo.

(** Collaborators whose bodies are not among the sources: the
    consistency checks and the delegation resolver read the caches, the
    message parser encodes a message or fails. *)
Variable isAssertionConsistent : AC -> NC -> AssertionSection -> bool.
Variable isShardConsistent : AC -> NC -> ShardSection -> bool.
Variable isZoneConsistent : AC -> NC -> ZoneSection -> bool.
Variable getDelegationAddress : AC -> string -> string -> ConnInfo.
Variable ParseRainsMsg : RainsMessage -> option (list Byte.byte).

Abbreviation state := (engine AC NC PS).

Definition M (A : Type) : Type := state -> outcome state A.

Definition ret {A : Type} (a : A) : M A := fun s => Done a s.

Definition bind {A B : Type} (m : M A) (k : A -> M B) : M B :=
  fun s =>
    match m s with
    | Done a s' => k a s'
    | Panicked msg s' => Panicked msg s'
    end.

Definition panic {A : Type} (msg : string) : M A := fun s => Panicked msg s.

Definition lift {A : Type} (r : result A) : M A :=
  match r with
  | Ok a => ret a
  | Panic msg => panic msg
  end.

Notation "'do' x <- m ; k" := (bind m (fun x => k))
  (at level 10, x name, m at level 100, k at level 200).
Notation "m ;; k" := (bind m (fun _ => k))
  (at level 100, k at level 200, right associativity).

Definition emit (e : event) : M unit :=
  fun s =>
    Done tt
      {| assertionsCache := assertionsCache s;
         negAssertionCache := negAssertionCache s;
         pendingQueries := pendingQueries s;
         pendingSignatures := pendingSignatures s;
         tokenSource := tokenSource s;
         tokenCount := tokenCount s;
         trace := trace s ++ [e] |}.

Definition log (lvl : logLevel) (msg : string) : M unit := emit (EvLog lvl msg).

Definition set_assertionsCache (c : AC) : M unit :=
  fun s =>
    Done tt
      {| assertionsCache := c;
         negAssertionCache := negAssertionCache s;
         pendingQueries := pendingQueries s;
         pendingSignatures := pendingSignatures s;
         tokenSource := tokenSource s;
         tokenCount := tokenCount s;
         trace := trace s |}.

Definition set_negAssertionCache (c : NC) : M unit :=
  fun s =>
    Done tt
      {| assertionsCache := assertionsCache s;
         negAssertionCache := c;
         pendingQueries := pendingQueries s;
         pendingSignatures := pendingSignatures s;
         tokenSource := tokenSource s;
         tokenCount := tokenCount s;
         trace := trace s |}.

Definition set_pendingQueries (c : pendingQueryCache) : M unit :=
  fun s =>
    Done tt
      {| assertionsCache := assertionsCache s;
         negAssertionCache := negAssertionCache s;
         pendingQueries := c;
         pendingSignatures := pendingSignatures s;
         tokenSource := tokenSource s;
         tokenCount := tokenCount s;
         trace := trace s |}.

Definition set_pendingSignatures (c : PS) : M unit :=
  fun s =>
    Done tt
      {| assertionsCache := assertionsCache s;
         negAssertionCache := negAssertionCache s;
         pendingQueries := pendingQueries s;
         pendingSignatures := c;
         tokenSource := tokenSource s;
         tokenCount := tokenCount s;
         trace := trace s |}.

Definition gets {A : Type} (f : state -> A) : M A := fun s => Done (f s) s.

(** [rainslib.GenerateToken()] *)
Definition GenerateToken : M Token :=
  fun s =>
    Done (tokenSource s (tokenCount s))
      {| assertionsCache := assertionsCache s;
         negAssertionCache := negAssertionCache s;
         pendingQueries := pendingQueries s;
         pendingSignatures := pendingSignatures s;
         tokenSource := tokenSource s;
         tokenCount := S (tokenCount s);
         trace := trace s |}.

(** The cache calls of the engine. *)

Definition assertionsCache_Add (context zone name : string) (t : ObjectType)
    (isAuthoritative : bool) (value : assertionCacheValue) : M unit :=
  do c <- gets assertionsCache;
  set_assertionsCache (ac_Add c context zone name t isAuthoritative value) ;;
  emit (EvAssertionsCacheAdd context zone name t isAuthoritative value).

Definition assertionsCache_Get (context zone name : string) (t : ObjectType)
    (expiredAllowed : bool) : M (list AssertionSection * bool) :=
  do c <- gets assertionsCache;
  let r := ac_Get c context zone name t expiredAllowed in
  set_assertionsCache (snd r) ;;
  ret (fst r).

Definition negAssertionCache_Add (context zone : string)
    (isAuthoritative : bool) (value : negativeAssertionCacheValue) : M unit :=
  do c <- gets negAssertionCache;
  set_negAssertionCache (nc_Add c context zone isAuthoritative value) ;;
  emit (EvNegAssertionCacheAdd context zone isAuthoritative value).

Definition negAssertionCache_Get (context zone point : string)
  : M (MessageSectionWithSig * bool) :=
  do c <- gets negAssertionCache;
  let r := nc_Get c context zone point in
  set_negAssertionCache (snd r) ;;
  ret (fst r).

Definition pendingQueries_Add (context zone name : string) (t : ObjectType)
    (value : pendingQuerySetValue) : M bool :=
  do c <- gets pendingQueries;
  let r := pq_Add c context zone name t value in
  set_pendingQueries (snd r) ;;
  emit (EvPendingQueriesAdd context zone name t value) ;;
  ret (fst r).

Definition pendingQueries_GetAllAndDelete (tok : Token)
  : M (list pendingQuerySetValue * bool) :=
  do c <- gets pendingQueries;
  let r := pq_GetAllAndDelete c tok in
  set_pendingQueries (snd r) ;;
  emit (EvPendingQueriesGetAllAndDelete tok) ;;
  ret (fst r).

Definition pendingSignatures_GetAllAndDelete (context zone : string)
  : M (list sectionWithSigSender * bool) :=
  do c <- gets pendingSignatures;
  let r := ps_GetAllAndDelete c context zone in
  set_pendingSignatures (snd r) ;;
  emit (EvPendingSignaturesGetAllAndDelete context zone) ;;
  ret (fst r).

(** [for _, x := range l { body x }] *)
Fixpoint forEach {A : Type} (l : list A) (body : A -> M unit) : M unit :=
  match l with
  | [] => ret tt
  | x :: rest => body x ;; forEach rest body
  end.

(** [sendQueryAnswer] *)
Definition sendQueryAnswer (section : MessageSectionWithSig)
    (sender : ConnInfo) (tok : Token) : M unit :=
  let msg := {| Msg_Content := [section]; Msg_Token := tok |} in
  match ParseRainsMsg msg with
  | None => log LvlError "Was not able to parse message"
  | Some byteMsg => emit (EvSendTo byteMsg sender)
  end.

(** [handlePendingQueries] *)
Definition handlePendingQueries (now : Z) (section : MessageSectionWithSig)
    (tok : Token) : M unit :=
  do r <- pendingQueries_GetAllAndDelete tok;
  if snd r then
    forEach (fst r) (fun v =>
      if validUntil v >? now then
        sendQueryAnswer section (connInfo v) (token v)
      else log LvlInfo "Query expired in pendingQuery queue.")
  else ret tt.

(** [getAssertionValidity] *)
Definition getAssertionValidity (now : Z) (a : AssertionSection)
  : M (Z * Z * bool) :=
  let validFrom := ValidFrom a in
  let validUntil := ValidUntil a in
  if validFrom >? now + MaxCacheAssertionValidity Config then
    log LvlWarn "Assertion validity starts too much in the future. Drop Assertion." ;;
    ret (0, 0, false)
  else if validUntil >? now + MaxCacheAssertionValidity Config then
    log LvlWarn "Reduced the validity of the assertion in the cache. Validity exceeded upper bound" ;;
    ret (validFrom, now + MaxCacheAssertionValidity Config, true)
  else ret (validFrom, validUntil, true).

(** [shouldAssertionBeCached] *)
Definition shouldAssertionBeCached (a : AssertionSection) : M bool :=
  log LvlInfo "Assertion will be cached" ;; ret true.

(** [assertAssertion]; the arguments of [assertionsCache.Add] are
    evaluated before the call, so [a.Content[0]] on an empty content
    panics with nothing added. *)
Definition assertAssertion (now : Z) (a : AssertionSection)
    (isAuthoritative : bool) (tok : Token) : M bool :=
  do r <- getAssertionValidity now a;
  let validFrom := fst (fst r) in
  let validUntil := snd (fst r) in
  if snd r then
    (do c <- shouldAssertionBeCached a;
     if c then
       let value := {| acv_section := a; acv_validFrom := validFrom;
                       acv_validUntil := validUntil |} in
       match A_Content a with
       | [] => panic "index out of range"
       | o :: _ =>
           assertionsCache_Add (A_Context a) (A_SubjectZone a)
             (A_SubjectName a) (Type_ o) isAuthoritative value
       end
     else ret tt) ;;
    ret true
  else if validFrom <? now then
    pendingQueries_GetAllAndDelete tok ;;
    ret false
  else ret true.

(** [rainslib.Delegation], the delegation object type. *)
Definition Delegation : ObjectType := OTDelegation.

(** [handleAssertion] *)
Definition handleAssertion (now : Z) (a : AssertionSection) (tok : Token)
  : M unit :=
  match A_Content a with
  | [] => panic "index out of range"
  | o :: _ =>
      (if Type_ o =? Delegation then
         do r <- pendingSignatures_GetAllAndDelete (A_Context a) (A_SubjectZone a);
         if snd r then
           forEach (fst r) (fun sectionSender =>
             emit (EvNormalChannel
                     {| MSS_Section := SWS_Section sectionSender;
                        MSS_Sender := SWS_Sender sectionSender;
                        MSS_Token := SWS_Token sectionSender |}))
         else ret tt
       else ret tt) ;;
      handlePendingQueries now (SecAssertion a) tok
  end.

(** [getShardValidity] *)
Definition getShardValidity (now : Z) (s : ShardSection) : M (Z * Z * bool) :=
  let validFrom := ValidFrom s in
  let validUntil := ValidUntil s in
  if validFrom >? now + MaxCacheShardValidity Config then
    log LvlWarn "Shard validity starts too much in the future. Drop Shard." ;;
    ret (0, 0, false)
  else if validUntil >? now + MaxCacheShardValidity Config then
    log LvlWarn "Reduced the validity of the shard in the cache. Validity exceeded upper bound" ;;
    ret (validFrom, now + MaxCacheShardValidity Config, true)
  else ret (validFrom, validUntil, true).

(** [shouldShardBeCached] *)
Definition shouldShardBeCached (shard : ShardSection) : M bool :=
  log LvlInfo "Shard will be cached" ;; ret true.

(** [assertShard]; the result of [assertAssertion] on a contained
    assertion is discarded. *)
Definition assertShard (now : Z) (shard : ShardSection)
    (isAuthoritative : bool) (tok : Token) : M bool :=
  do r <- getShardValidity now shard;
  let validFrom := fst (fst r) in
  let validUntil := snd (fst r) in
  if snd r then
    (do c <- shouldShardBeCached shard;
     if c then
       negAssertionCache_Add (S_Context shard) (S_SubjectZone shard)
         isAuthoritative
         {| ncv_section := SecShard shard; ncv_validFrom := validFrom;
            ncv_validUntil := validUntil |}
     else ret tt) ;;
    forEach (S_Content shard) (fun a =>
      assertAssertion now a isAuthoritative zeroToken ;; ret tt) ;;
    ret true
  else if validFrom <? now then
    pendingQueries_GetAllAndDelete tok ;;
    ret false
  else ret true.

(** [getZoneValidity] *)
Definition getZoneValidity (now : Z) (z : ZoneSection) : M (Z * Z * bool) :=
  let validFrom := ValidFrom z in
  let validUntil := ValidUntil z in
  if validFrom >? now + MaxCacheZoneValidity Config then
    log LvlWarn "Zone validity starts too much in the future. Drop Zone." ;;
    ret (0, 0, false)
  else if validUntil >? now + MaxCacheZoneValidity Config then
    log LvlWarn "Reduced the validity of the zone in the cache. Validity exceeded upper bound" ;;
    ret (validFrom, now + MaxCacheZoneValidity Config, true)
  else ret (validFrom, validUntil, true).

(** [shouldZoneBeCached] *)
Definition shouldZoneBeCached (z : ZoneSection) : M bool :=
  log LvlInfo "Zone will be cached" ;; ret true.

(** [assertZone] *)
Definition assertZone (now : Z) (z : ZoneSection) (isAuthoritative : bool)
    (tok : Token) : M bool :=
  do r <- getZoneValidity now z;
  let validFrom := fst (fst r) in
  let validUntil := snd (fst r) in
  if snd r then
    (do c <- shouldZoneBeCached z;
     if c then
       negAssertionCache_Add (Z_Context z) (Z_SubjectZone z) isAuthoritative
         {| ncv_section := SecZone z; ncv_validFrom := validFrom;
            ncv_validUntil := validUntil |}
     else ret tt) ;;
    forEach (Z_Content z) (fun v =>
      match v with
      | ZAssertion a => assertAssertion now a isAuthoritative zeroToken ;; ret tt
      | ZShard s => assertShard now s isAuthoritative zeroToken ;; ret tt
      | ZUnsupported _ =>
          log LvlWarn "Not supported type. Expected *ShardSection or *AssertionSection."
      end) ;;
    ret true
  else if validFrom <? now then
    pendingQueries_GetAllAndDelete tok ;;
    ret false
  else ret true.

(** [assert]; the consistency checks read the caches as they are when
    the section arrives. *)
Definition assert (now : Z) (sectionWSSender : sectionWithSigSender)
    (isAuthoritative : bool) : M unit :=
  (match SWS_Section sectionWSSender with
   | SecAssertion section =>
       log LvlInfo "Start processing Assertion" ;;
       do ac <- gets assertionsCache;
       do nc <- gets negAssertionCache;
       if isAssertionConsistent ac nc section then
         log LvlDebug "Assertion is consistent with cached elements." ;;
         do ok <- assertAssertion now section isAuthoritative
                    (SWS_Token sectionWSSender);
         if ok then handleAssertion now section (SWS_Token sectionWSSender)
         else ret tt
       else log LvlDebug "Assertion is inconsistent with cached elements."
   | SecShard section =>
       log LvlInfo "Start processing Shard" ;;
       do ac <- gets assertionsCache;
       do nc <- gets negAssertionCache;
       if isShardConsistent ac nc section then
         log LvlDebug "Shard is consistent with cached elements." ;;
         do ok <- assertShard now section isAuthoritative
                    (SWS_Token sectionWSSender);
         if ok then
           handlePendingQueries now (SecShard section)
             (SWS_Token sectionWSSender)
         else ret tt
       else log LvlDebug "Shard is inconsistent with cached elements."
   | SecZone section =>
       log LvlInfo "Start processing zone" ;;
       do ac <- gets assertionsCache;
       do nc <- gets negAssertionCache;
       if isZoneConsistent ac nc section then
         log LvlDebug "Zone is consistent with cached elements." ;;
         do ok <- assertZone now section isAuthoritative
                    (SWS_Token sectionWSSender);
         if ok then
           handlePendingQueries now (SecZone section)
             (SWS_Token sectionWSSender)
         else ret tt
       else log LvlDebug "Zone is inconsistent with cached elements."
   | SecUnknown _ => log LvlWarn "Unknown message section"
   end) ;;
  log LvlDebug "Finished handling".

(** The first loop of [query]: the assertion cache. The result tells
    whether [query] returned from inside the loop. *)
Fixpoint query_assertions (q : QuerySection) (sender : ConnInfo)
    (zoneAndNames : list zoneAndName) : M bool :=
  match zoneAndNames with
  | [] => ret false
  | zAn :: rest =>
      do r <- assertionsCache_Get (Q_Context q) (zone zAn) (name zAn)
                (Q_Type q) (ContainsOption q ExpiredAssertionsOk);
      if snd r then
        match fst r with
        | [] => panic "index out of range"
        | a0 :: _ =>
            sendQueryAnswer (SecAssertion a0) sender (Q_Token q) ;;
            log LvlDebug "Finished handling query by sending assertion from cache" ;;
            ret true
        end
      else query_assertions q sender rest
  end.

(** The second loop of [query]: the negative-assertion cache. *)
Fixpoint query_negAssertions (q : QuerySection) (sender : ConnInfo)
    (zoneAndNames : list zoneAndName) : M bool :=
  match zoneAndNames with
  | [] => ret false
  | zAn :: rest =>
      do r <- negAssertionCache_Get (Q_Context q) (zone zAn) (name zAn);
      if snd r then
        sendQueryAnswer (fst r) sender (Q_Token q) ;;
        log LvlDebug "Finished handling query by sending shard or zone from cache" ;;
        ret true
      else query_negAssertions q sender rest
  end.

(** The third loop of [query]: forwarding to the delegate. *)
Fixpoint query_forward (now : Z) (q : QuerySection) (sender : ConnInfo)
    (zoneAndNames : list zoneAndName) : M unit :=
  match zoneAndNames with
  | [] => ret tt
  | zAn :: rest =>
      do ac <- gets assertionsCache;
      let delegate := getDelegationAddress ac (Q_Context q) (zone zAn) in
      if ConnInfo_Equal delegate serverConnInfo then
        emit (EvSendNotificationMsg (Q_Token q) sender NoAssertionAvail) ;;
        log LvlError "Stop processing query. I am authoritative and have no answer in cache"
      else
        do tok <- (if negb (ContainsOption q TokenTracing) then GenerateToken
                   else ret (Q_Token q));
        let validUntil0 := now + AssertionQueryValidity Config in
        let validUntil :=
          if Q_Expires q <? validUntil0 then Q_Expires q else validUntil0 in
        pendingQueries_Add (Q_Context q) (zone zAn) (name zAn) (Q_Type q)
          {| connInfo := sender; token := tok; validUntil := validUntil |} ;;
        log LvlDebug "Added query into to pending query cache" ;;
        emit (EvSendQuery (Q_Context q) (zone zAn) validUntil (Q_Type q) tok
                delegate) ;;
        query_forward now q sender rest
  end.

(** [query] *)
Definition query (now : Z) (q : QuerySection) (sender : ConnInfo) : M unit :=
  log LvlInfo "Start processing query" ;;
  do zoneAndNames <- lift (getZoneAndName (Q_Name q));
  do answered <- query_assertions q sender zoneAndNames;
  if answered then ret tt
  else
    do answered' <- query_negAssertions q sender zoneAndNames;
    if answered' then ret tt
    else if ContainsOption q CachedAnswersOnly then
      emit (EvSendNotificationMsg (Q_Token q) sender NoAssertionAvail) ;;
      log LvlDebug "Finished handling query (unsuccessful) due to Cached Answers only query option"
    else query_forward now q sender zoneAndNames.

(** ** Predicates on traces *)

Definition isCacheAdd (e : event) : bool :=
  match e with
  | EvAssertionsCacheAdd _ _ _ _ _ _ => true
  | EvNegAssertionCacheAdd _ _ _ _ => true
  | _ => false
  end.

Definition isSendQuery (e : event) : bool :=
  match e with
  | EvSendQuery _ _ _ _ _ _ => true
  | _ => false
  end.

Definition isPendingAdd (e : event) : bool :=
  match e with
  | EvPendingQueriesAdd _ _ _ _ _ => true
  | _ => false
  end.

Definition isSendTo (e : event) : bool :=
  match e with
  | EvSendTo _ _ => true
  | _ => false
  end.

(** The bound on the end of validity an insertion must respect, by the
    kind of the inserted section. *)
Definition insertBounded (now : Z) (e : event) : Prop :=
  match e with
  | EvAssertionsCacheAdd _ _ _ _ _ v =>
      acv_validUntil v <= now + MaxCacheAssertionValidity Config
  | EvNegAssertionCacheAdd _ _ _ v =>
      match ncv_section v with
      | SecShard _ => ncv_validUntil v <= now + MaxCacheShardValidity Config
      | SecZone _ => ncv_validUntil v <= now + MaxCacheZoneValidity Config
      | _ => False
      end
  | _ => True
  end.

(** The trace a call adds: what follows the first [length before]
    events. *)
Definition added (before : list event) (after : list event) : list event :=
  drop (length before) after.

(** The events of one turn of the loop in [handlePendingQueries], for
    the waiter [v]. *)
Definition answerEvents (now : Z) (section : MessageSectionWithSig)
    (v : pendingQuerySetValue) : list event :=
  if validUntil v >? now then
    match ParseRainsMsg {| Msg_Content := [section]; Msg_Token := token v |} with
    | Some byteMsg => [EvSendTo byteMsg (connInfo v)]
    | None => [EvLog LvlError "Was not able to parse message"]
    end
  else [EvLog LvlInfo "Query expired in pendingQuery queue."].

(** State updates used to describe the state a call reaches. *)
Definition addEvents (s : state) (evs : list event) : state :=
  {| assertionsCache := assertionsCache s;
     negAssertionCache := negAssertionCache s;
     pendingQueries := pendingQueries s;
     pendingSignatures := pendingSignatures s;
     tokenSource := tokenSource s;
     tokenCount := tokenCount s;
     trace := trace s ++ evs |}.

Definition withPendingQueries (c : pendingQueryCache) (s : state) : state :=
  {| assertionsCache := assertionsCache s;
     negAssertionCache := negAssertionCache s;
     pendingQueries := c;
     pendingSignatures := pendingSignatures s;
     tokenSource := tokenSource s;
     tokenCount := tokenCount s;
     trace := trace s |}.

Definition withAssertionsCache (c : AC) (s : state) : state :=
  {| assertionsCache := c;
     negAssertionCache := negAssertionCache s;
     pendingQueries := pendingQueries s;
     pendingSignatures := pendingSignatures s;
     tokenSource := tokenSource s;
     tokenCount := tokenCount s;
     trace := trace s |}.

Definition withNegAssertionCache (c : NC) (s : state) : state :=
  {| assertionsCache := assertionsCache s;
     negAssertionCache := c;
     pendingQueries := pendingQueries s;
     pendingSignatures := pendingSignatures s;
     tokenSource := tokenSource s;
     tokenCount := tokenCount s;
     trace := trace s |}.

Definition withPendingSignatures (c : PS) (s : state) : state :=
  {| assertionsCache := assertionsCache s;
     negAssertionCache := negAssertionCache s;
     pendingQueries := pendingQueries s;
     pendingSignatures := c;
     tokenSource := tokenSource s;
     tokenCount := tokenCount s;
     trace := trace s |}.

(** The message [handleAssertion] puts on [normalChannel] for a section
    that waited for a delegation. *)
Definition requeued (x : sectionWithSigSender) : event :=
  EvNormalChannel
    {| MSS_Section := SWS_Section x;
       MSS_Sender := SWS_Sender x;
       MSS_Token := SWS_Token x |}.

(** The returned value of a call, if it returned. *)
Definition resultOf {A : Type} (o : outcome state A) : option A :=
  match o with
  | Done a _ => Some a
  | Panicked _ _ => None
  end.

(** The delegation wake-up: the fetch from the pending-signature cache
    and the sections put back on the channel. *)
Definition isWakeUp (e : event) : bool :=
  match e with
  | EvPendingSignaturesGetAllAndDelete _ _ => true
  | EvNormalChannel _ => true
  | _ => false
  end.

(** [post P Q m]: from every state, [m] only appends events, each of
    them satisfies [P], and a returned value satisfies [Q]. *)
Definition post {A : Type} (P : event -> Prop) (Q : A -> Prop) (m : M A)
  : Prop :=
  forall s, exists evs,
    trace (stateOf (m s)) = trace s ++ evs /\ Forall P evs /\
    match m s with
    | Done a _ => Q a
    | Panicked _ _ => True
    end.

Definition anyResult {A : Type} : A -> Prop := fun _ => True.

(** [yields m Q]: from every state, [m] returns, only appends events,
    and the returned value and the appended events satisfy [Q]. *)
Definition yields {A : Type} (m : M A) (Q : A -> list event -> Prop) : Prop :=
  forall s, exists a s' evs,
    m s = Done a s' /\ trace s' = trace s ++ evs /\ Q a evs.

(** [inserts m evs]: [m] returns from every state, and the cache
    insertions among the events it adds are [evs], in that order. *)
Definition inserts {A : Type} (m : M A) (expected : list event) : Prop :=
  yields m (fun _ evs => List.filter isCacheAdd evs = expected).

Definition isLog (e : event) : bool :=
  match e with
  | EvLog _ _ => true
  | _ => false
  end.

(** The events [query] can produce. *)
Definition isQueryEvent (e : event) : bool :=
  match e with
  | EvLog _ _ => true
  | EvSendTo _ _ => true
  | EvSendNotificationMsg _ _ _ => true
  | EvPendingQueriesAdd _ _ _ _ _ => true
  | EvSendQuery _ _ _ _ _ _ => true
  | _ => false
  end.

(** The verdict of the consistency check [assert] runs on a section,
    by its kind; a section of unknown kind is dropped like an
    inconsistent one. *)
Definition passesConsistency (ac : AC) (nc : NC)
    (section : MessageSectionWithSig) : bool :=
  match section with
  | SecAssertion a => isAssertionConsistent ac nc a
  | SecShard sh => isShardConsistent ac nc sh
  | SecZone z => isZoneConsistent ac nc z
  | SecUnknown _ => false
  end.

(** Sections all of whose assertions carry at least one object. *)
Definition hasObject (a : AssertionSection) : bool :=
  match A_Content a with
  | [] => false
  | _ :: _ => true
  end.

Definition shardHasObjects (sh : ShardSection) : bool :=
  forallb hasObject (S_Content sh).

Definition zoneHasObjects (z : ZoneSection) : bool :=
  forallb (fun v =>
             match v with
             | ZAssertion a => hasObject a
             | ZShard sh => shardHasObjects sh
             | ZUnsupported _ => true
             end) (Z_Content z).

Definition sectionHasObjects (section : MessageSectionWithSig) : bool :=
  match section with
  | SecAssertion a => hasObject a
  | SecShard sh => shardHasObjects sh
  | SecZone z => zoneHasObjects z
  | SecUnknown _ => true
  end.

(** The cache insertions expected of a section, in order: none for a
    section whose start of validity is too far ahead; otherwise the
    section itself, with its end cut back to the cap, followed by those
    of the sections it contains. *)
Definition assertionInsertions (now : Z) (isAuthoritative : bool)
    (a : AssertionSection) : list event :=
  if ValidFrom a >? now + MaxCacheAssertionValidity Config then []
  else
    match A_Content a with
    | [] => []
    | o :: _ =>
        [EvAssertionsCacheAdd (A_Context a) (A_SubjectZone a)
           (A_SubjectName a) (Type_ o) isAuthoritative
           {| acv_section := a; acv_validFrom := ValidFrom a;
              acv_validUntil :=
                Z.min (ValidUntil a)
                      (now + MaxCacheAssertionValidity Config) |}]
    end.

Definition shardInsertions (now : Z) (isAuthoritative : bool)
    (sh : ShardSection) : list event :=
  if ValidFrom sh >? now + MaxCacheShardValidity Config then []
  else
    EvNegAssertionCacheAdd (S_Context sh) (S_SubjectZone sh) isAuthoritative
      {| ncv_section := SecShard sh; ncv_validFrom := ValidFrom sh;
         ncv_validUntil :=
           Z.min (ValidUntil sh) (now + MaxCacheShardValidity Config) |}
    :: flat_map (assertionInsertions now isAuthoritative) (S_Content sh).

Definition zoneInsertions (now : Z) (isAuthoritative : bool)
    (z : ZoneSection) : list event :=
  if ValidFrom z >? now + MaxCacheZoneValidity Config then []
  else
    EvNegAssertionCacheAdd (Z_Context z) (Z_SubjectZone z) isAuthoritative
      {| ncv_section := SecZone z; ncv_validFrom := ValidFrom z;
         ncv_validUntil :=
           Z.min (ValidUntil z) (now + MaxCacheZoneValidity Config) |}
    :: flat_map (fun v =>
                   match v with
                   | ZAssertion a => assertionInsertions now isAuthoritative a
                   | ZShard sh => shardInsertions now isAuthoritative sh
                   | ZUnsupported _ => []
                   end) (Z_Content z).

Definition sectionInsertions (now : Z) (isAuthoritative : bool)
    (section : MessageSectionWithSig) : list event :=
  match section with
  | SecAssertion a => assertionInsertions now isAuthoritative a
  | SecShard sh => shardInsertions now isAuthoritative sh
  | SecZone z => zoneInsertions now isAuthoritative z
  | SecUnknown _ => []
  end.

(** ** Facts about the engine monad *)

Lemma post_ret {A : Type} (P : event -> Prop) (Q : A -> Prop) (a : A) :
  Q a -> post P Q (ret a).
Proof.
  intros Ha s. exists []. simpl. rewrite app_nil_r. auto.
Qed.

Lemma post_panic {A : Type} (P : event -> Prop) (Q : A -> Prop) msg :
  post P Q (panic msg).
Proof.
  intros s. exists []. simpl. rewrite app_nil_r. auto.
Qed.

Lemma post_bind {A B : Type} (P : event -> Prop) (Q : A -> Prop)
    (R : B -> Prop) (m : M A) (k : A -> M B) :
  post P Q m -> (forall a, Q a -> post P R (k a)) -> post P R (bind m k).
Proof.
  intros Hm Hk s. unfold bind.
  destruct (Hm s) as (evs & Ht & Hp & Hq).
  destruct (m s) as [a s'|msg s']; simpl in *.
  - destruct (Hk a Hq s') as (evs' & Ht' & Hp' & Hq').
    exists (evs ++ evs'). rewrite Ht', Ht, app_assoc.
    split; [reflexivity|]. split; [apply Forall_app; auto|exact Hq'].
  - exists evs. auto.
Qed.

Lemma post_weaken {A : Type} (P : event -> Prop) (Q Q' : A -> Prop) (m : M A) :
  post P Q m -> (forall a, Q a -> Q' a) -> post P Q' m.
Proof.
  intros Hm Hq s. destruct (Hm s) as (evs & Ht & Hp & Hr).
  exists evs. split; [exact Ht|]. split; [exact Hp|].
  destruct (m s); auto.
Qed.

Lemma post_emit (P : event -> Prop) (Q : unit -> Prop) (e : event) :
  P e -> Q tt -> post P Q (emit e).
Proof.
  intros He Hq s. exists [e]. simpl. auto.
Qed.

Lemma post_log (P : event -> Prop) (Q : unit -> Prop) lvl msg :
  P (EvLog lvl msg) -> Q tt -> post P Q (log lvl msg).
Proof. apply post_emit. Qed.

Lemma post_gets {A : Type} (P : event -> Prop) (Q : A -> Prop)
    (f : state -> A) :
  (forall s, Q (f s)) -> post P Q (gets f).
Proof.
  intros Hq s. exists []. simpl. rewrite app_nil_r. auto.
Qed.

Lemma post_set_assertionsCache (P : event -> Prop) c :
  post P anyResult (set_assertionsCache c).
Proof.
  intros s. exists []. simpl. rewrite app_nil_r. unfold anyResult. auto.
Qed.

Lemma post_set_negAssertionCache (P : event -> Prop) c :
  post P anyResult (set_negAssertionCache c).
Proof.
  intros s. exists []. simpl. rewrite app_nil_r. unfold anyResult. auto.
Qed.

Lemma post_set_pendingQueries (P : event -> Prop) c :
  post P anyResult (set_pendingQueries c).
Proof.
  intros s. exists []. simpl. rewrite app_nil_r. unfold anyResult. auto.
Qed.

Lemma post_set_pendingSignatures (P : event -> Prop) c :
  post P anyResult (set_pendingSignatures c).
Proof.
  intros s. exists []. simpl. rewrite app_nil_r. unfold anyResult. auto.
Qed.

Lemma post_GenerateToken (P : event -> Prop) :
  post P anyResult GenerateToken.
Proof.
  intros s. exists []. simpl. rewrite app_nil_r. unfold anyResult. auto.
Qed.

Lemma post_forEach {A : Type} (P : event -> Prop) (l : list A)
    (body : A -> M unit) :
  (forall x, In x l -> post P anyResult (body x)) ->
  post P anyResult (forEach l body).
Proof.
  induction l as [|x rest IH]; intros Hb; simpl.
  - apply post_ret. exact I.
  - eapply post_bind.
    + apply Hb. left. reflexivity.
    + intros _ _. apply IH. intros y Hy. apply Hb. right. exact Hy.
Qed.

Lemma post_added {A : Type} (P : event -> Prop) (Q : A -> Prop) (m : M A) s :
  post P Q m -> Forall P (added (trace s) (trace (stateOf (m s)))).
Proof.
  intros Hm. destruct (Hm s) as (evs & Ht & Hp & _).
  unfold added. rewrite Ht, drop_app_length. exact Hp.
Qed.

(** ** Every insertion respects the cap of its kind *)

Section Insertions.

Variable P : event -> Prop.
Hypothesis P_log : forall lvl msg, P (EvLog lvl msg).
Hypothesis P_sendTo : forall msg to, P (EvSendTo msg to).
Hypothesis P_fetch : forall tok, P (EvPendingQueriesGetAllAndDelete tok).

Lemma post_pendingQueries_GetAllAndDelete tok :
  post P anyResult (pendingQueries_GetAllAndDelete tok).
Proof using P_fetch.
  unfold pendingQueries_GetAllAndDelete.
  eapply post_bind; [apply post_gets with (Q := anyResult); intros; exact I|].
  intros c _. eapply post_bind; [apply post_set_pendingQueries|].
  intros _ _. eapply post_bind.
  - apply post_emit with (Q := anyResult); [apply P_fetch|exact I].
  - intros _ _. apply post_ret. exact I.
Qed.

Lemma post_pendingSignatures_GetAllAndDelete context zone :
  P (EvPendingSignaturesGetAllAndDelete context zone) ->
  post P anyResult (pendingSignatures_GetAllAndDelete context zone).
Proof.
  intros Hp. unfold pendingSignatures_GetAllAndDelete.
  eapply post_bind; [apply post_gets with (Q := anyResult); intros; exact I|].
  intros c _. eapply post_bind; [apply post_set_pendingSignatures|].
  intros _ _. eapply post_bind.
  - apply post_emit with (Q := anyResult); [exact Hp|exact I].
  - intros _ _. apply post_ret. exact I.
Qed.

Lemma post_sendQueryAnswer section sender tok :
  post P anyResult (sendQueryAnswer section sender tok).
Proof using P_log P_sendTo.
  unfold sendQueryAnswer. destruct (ParseRainsMsg _).
  - apply post_emit; [apply P_sendTo|exact I].
  - apply post_log; [apply P_log|exact I].
Qed.

Lemma post_handlePendingQueries now section tok :
  post P anyResult (handlePendingQueries now section tok).
Proof using P_log P_sendTo P_fetch.
  unfold handlePendingQueries.
  eapply post_bind; [apply post_pendingQueries_GetAllAndDelete|].
  intros r _. destruct (snd r).
  - apply post_forEach. intros v _. destruct (validUntil v >? now).
    + apply post_sendQueryAnswer.
    + apply post_log; [apply P_log|exact I].
  - apply post_ret. exact I.
Qed.

Lemma post_assertionsCache_Add context zone name t isAuthoritative value :
  P (EvAssertionsCacheAdd context zone name t isAuthoritative value) ->
  post P anyResult
    (assertionsCache_Add context zone name t isAuthoritative value).
Proof.
  intros Hv. unfold assertionsCache_Add.
  eapply post_bind; [apply post_gets with (Q := anyResult); intros; exact I|].
  intros c _. eapply post_bind; [apply post_set_assertionsCache|].
  intros _ _. apply post_emit; [exact Hv|exact I].
Qed.

Lemma post_negAssertionCache_Add context zone isAuthoritative value :
  P (EvNegAssertionCacheAdd context zone isAuthoritative value) ->
  post P anyResult (negAssertionCache_Add context zone isAuthoritative value).
Proof.
  intros Hv. unfold negAssertionCache_Add.
  eapply post_bind; [apply post_gets with (Q := anyResult); intros; exact I|].
  intros c _. eapply post_bind; [apply post_set_negAssertionCache|].
  intros _ _. apply post_emit; [exact Hv|exact I].
Qed.

End Insertions.

Lemma post_getAssertionValidity now a :
  post (insertBounded now)
    (fun r => snd r = true ->
              snd (fst r) <= now + MaxCacheAssertionValidity Config)
    (getAssertionValidity now a).
Proof.
  unfold getAssertionValidity.
  destruct (Z.gtb_spec (ValidFrom a) (now + MaxCacheAssertionValidity Config)).
  - eapply post_bind; [apply post_log with (Q := anyResult); exact I|].
    intros _ _. apply post_ret. simpl. discriminate.
  - destruct (Z.gtb_spec (ValidUntil a)
                (now + MaxCacheAssertionValidity Config)).
    + eapply post_bind; [apply post_log with (Q := anyResult); exact I|].
      intros _ _. apply post_ret. simpl. lia.
    + apply post_ret. simpl. lia.
Qed.

Lemma post_getShardValidity now s :
  post (insertBounded now)
    (fun r => snd r = true ->
              snd (fst r) <= now + MaxCacheShardValidity Config)
    (getShardValidity now s).
Proof.
  unfold getShardValidity.
  destruct (Z.gtb_spec (ValidFrom s) (now + MaxCacheShardValidity Config)).
  - eapply post_bind; [apply post_log with (Q := anyResult); exact I|].
    intros _ _. apply post_ret. simpl. discriminate.
  - destruct (Z.gtb_spec (ValidUntil s) (now + MaxCacheShardValidity Config)).
    + eapply post_bind; [apply post_log with (Q := anyResult); exact I|].
      intros _ _. apply post_ret. simpl. lia.
    + apply post_ret. simpl. lia.
Qed.

Lemma post_getZoneValidity now z :
  post (insertBounded now)
    (fun r => snd r = true ->
              snd (fst r) <= now + MaxCacheZoneValidity Config)
    (getZoneValidity now z).
Proof.
  unfold getZoneValidity.
  destruct (Z.gtb_spec (ValidFrom z) (now + MaxCacheZoneValidity Config)).
  - eapply post_bind; [apply post_log with (Q := anyResult); exact I|].
    intros _ _. apply post_ret. simpl. discriminate.
  - destruct (Z.gtb_spec (ValidUntil z) (now + MaxCacheZoneValidity Config)).
    + eapply post_bind; [apply post_log with (Q := anyResult); exact I|].
      intros _ _. apply post_ret. simpl. lia.
    + apply post_ret. simpl. lia.
Qed.

Lemma post_assertAssertion now a isAuthoritative tok :
  post (insertBounded now) anyResult
    (assertAssertion now a isAuthoritative tok).
Proof.
  unfold assertAssertion.
  eapply post_bind; [apply post_getAssertionValidity|].
  intros [[validFrom validUntil] ok] Hr. simpl in *. destruct ok.
  - eapply post_bind with (Q := anyResult).
    + unfold shouldAssertionBeCached.
      eapply post_bind with (Q := anyResult).
      * eapply post_bind; [apply post_log with (Q := anyResult); exact I|].
        intros _ _. apply post_ret. exact I.
      * intros c _. destruct c; [|apply post_ret; exact I].
        destruct (A_Content a); [apply post_panic|].
        apply post_assertionsCache_Add. simpl. auto.
    + intros _ _. apply post_ret. exact I.
  - destruct (validFrom <? now).
    + eapply post_bind.
      * apply post_pendingQueries_GetAllAndDelete; intros; exact I.
      * intros _ _. apply post_ret. exact I.
    + apply post_ret. exact I.
Qed.

Lemma post_assertShard now shard isAuthoritative tok :
  post (insertBounded now) anyResult
    (assertShard now shard isAuthoritative tok).
Proof.
  unfold assertShard.
  eapply post_bind; [apply post_getShardValidity|].
  intros [[validFrom validUntil] ok] Hr. simpl in *. destruct ok.
  - eapply post_bind with (Q := anyResult).
    + unfold shouldShardBeCached.
      eapply post_bind with (Q := anyResult).
      * eapply post_bind; [apply post_log with (Q := anyResult); exact I|].
        intros _ _. apply post_ret. exact I.
      * intros c _. destruct c; [|apply post_ret; exact I].
        apply post_negAssertionCache_Add. simpl. auto.
    + intros _ _. eapply post_bind with (Q := anyResult).
      * apply post_forEach. intros a _.
        eapply post_bind; [apply post_assertAssertion|].
        intros _ _. apply post_ret. exact I.
      * intros _ _. apply post_ret. exact I.
  - destruct (validFrom <? now).
    + eapply post_bind.
      * apply post_pendingQueries_GetAllAndDelete; intros; exact I.
      * intros _ _. apply post_ret. exact I.
    + apply post_ret. exact I.
Qed.

Lemma post_assertZone now z isAuthoritative tok :
  post (insertBounded now) anyResult (assertZone now z isAuthoritative tok).
Proof.
  unfold assertZone.
  eapply post_bind; [apply post_getZoneValidity|].
  intros [[validFrom validUntil] ok] Hr. simpl in *. destruct ok.
  - eapply post_bind with (Q := anyResult).
    + unfold shouldZoneBeCached.
      eapply post_bind with (Q := anyResult).
      * eapply post_bind; [apply post_log with (Q := anyResult); exact I|].
        intros _ _. apply post_ret. exact I.
      * intros c _. destruct c; [|apply post_ret; exact I].
        apply post_negAssertionCache_Add. simpl. auto.
    + intros _ _. eapply post_bind with (Q := anyResult).
      * apply post_forEach. intros v _. destruct v as [a|s|ty].
        -- eapply post_bind; [apply post_assertAssertion|].
           intros _ _. apply post_ret. exact I.
        -- eapply post_bind; [apply post_assertShard|].
           intros _ _. apply post_ret. exact I.
        -- apply post_log; exact I.
      * intros _ _. apply post_ret. exact I.
  - destruct (validFrom <? now).
    + eapply post_bind.
      * apply post_pendingQueries_GetAllAndDelete; intros; exact I.
      * intros _ _. apply post_ret. exact I.
    + apply post_ret. exact I.
Qed.

Lemma post_handleAssertion now a tok :
  post (insertBounded now) anyResult (handleAssertion now a tok).
Proof.
  unfold handleAssertion. destruct (A_Content a) as [|o rest].
  - apply post_panic.
  - eapply post_bind with (Q := anyResult).
    + destruct (Type_ o =? Delegation); [|apply post_ret; exact I].
      eapply post_bind.
      * apply post_pendingSignatures_GetAllAndDelete; exact I.
      * intros r _. destruct (snd r); [|apply post_ret; exact I].
        apply post_forEach. intros x _. apply post_emit; exact I.
    + intros _ _. apply post_handlePendingQueries; intros; exact I.
Qed.

Lemma post_assert now sectionWSSender isAuthoritative :
  post (insertBounded now) anyResult
    (assert now sectionWSSender isAuthoritative).
Proof.
  unfold assert.
  eapply post_bind with (Q := anyResult);
    [|intros _ _; apply post_log; exact I].
  destruct (SWS_Section sectionWSSender) as [a|s|z|ty].
  - eapply post_bind; [apply post_log with (Q := anyResult); exact I|].
    intros _ _.
    eapply post_bind; [apply post_gets with (Q := anyResult); intros; exact I|].
    intros ac _.
    eapply post_bind; [apply post_gets with (Q := anyResult); intros; exact I|].
    intros nc _. destruct (isAssertionConsistent ac nc a).
    + eapply post_bind; [apply post_log with (Q := anyResult); exact I|].
      intros _ _. eapply post_bind; [apply post_assertAssertion|].
      intros ok _. destruct ok; [apply post_handleAssertion|].
      apply post_ret. exact I.
    + apply post_log; exact I.
  - eapply post_bind; [apply post_log with (Q := anyResult); exact I|].
    intros _ _.
    eapply post_bind; [apply post_gets with (Q := anyResult); intros; exact I|].
    intros ac _.
    eapply post_bind; [apply post_gets with (Q := anyResult); intros; exact I|].
    intros nc _. destruct (isShardConsistent ac nc s).
    + eapply post_bind; [apply post_log with (Q := anyResult); exact I|].
      intros _ _. eapply post_bind; [apply post_assertShard|].
      intros ok _. destruct ok.
      * apply post_handlePendingQueries; intros; exact I.
      * apply post_ret. exact I.
    + apply post_log; exact I.
  - eapply post_bind; [apply post_log with (Q := anyResult); exact I|].
    intros _ _.
    eapply post_bind; [apply post_gets with (Q := anyResult); intros; exact I|].
    intros ac _.
    eapply post_bind; [apply post_gets with (Q := anyResult); intros; exact I|].
    intros nc _. destruct (isZoneConsistent ac nc z).
    + eapply post_bind; [apply post_log with (Q := anyResult); exact I|].
      intros _ _. eapply post_bind; [apply post_assertZone|].
      intros ok _. destruct ok.
      * apply post_handlePendingQueries; intros; exact I.
      * apply post_ret. exact I.
    + apply post_log; exact I.
  - apply post_log; exact I.
Qed.

(** ** Running the engine step by step *)

Lemma addEvents_nil (s : state) : addEvents s [] = s.
Proof. destruct s. unfold addEvents. simpl. rewrite app_nil_r. reflexivity. Qed.

Lemma addEvents_app (s : state) l1 l2 :
  addEvents (addEvents s l1) l2 = addEvents s (l1 ++ l2).
Proof. unfold addEvents. simpl. rewrite app_assoc. reflexivity. Qed.


Lemma sendQueryAnswer_run section sender tok s :
  sendQueryAnswer section sender tok s =
  Done tt (addEvents s
    match ParseRainsMsg {| Msg_Content := [section]; Msg_Token := tok |} with
    | Some byteMsg => [EvSendTo byteMsg sender]
    | None => [EvLog LvlError "Was not able to parse message"]
    end).
Proof.
  unfold sendQueryAnswer. destruct (ParseRainsMsg _); reflexivity.
Qed.

Lemma answer_loop_run now section values : forall s,
  forEach values (fun v =>
    if validUntil v >? now then
      sendQueryAnswer section (connInfo v) (token v)
    else log LvlInfo "Query expired in pendingQuery queue.") s =
  Done tt (addEvents s (flat_map (answerEvents now section) values)).
Proof.
  induction values as [|v rest IH]; intros s; simpl.
  - unfold ret. rewrite addEvents_nil. reflexivity.
  - unfold bind at 1.
    assert (Hv : (if validUntil v >? now
                  then sendQueryAnswer section (connInfo v) (token v)
                  else log LvlInfo "Query expired in pendingQuery queue.") s
                 = Done tt (addEvents s (answerEvents now section v))).
    { unfold answerEvents. destruct (validUntil v >? now).
      - apply sendQueryAnswer_run.
      - reflexivity. }
    rewrite Hv, IH, addEvents_app. reflexivity.
Qed.

Lemma requeue_loop_run l : forall s,
  forEach l (fun sectionSender =>
    emit (EvNormalChannel
            {| MSS_Section := SWS_Section sectionSender;
               MSS_Sender := SWS_Sender sectionSender;
               MSS_Token := SWS_Token sectionSender |})) s =
  Done tt (addEvents s (List.map requeued l)).
Proof.
  induction l as [|x rest IH]; intros s; simpl.
  - unfold ret. rewrite addEvents_nil. reflexivity.
  - unfold bind at 1. unfold emit at 1. rewrite IH.
    unfold addEvents. simpl. rewrite <- app_assoc. reflexivity.
Qed.

Lemma pq_GetAllAndDelete_table c tok :
  pq_table (snd (pq_GetAllAndDelete c tok)) = delete tok (pq_table c).
Proof.
  unfold pq_GetAllAndDelete. destruct (pq_table c !! tok) eqn:E; simpl.
  - reflexivity.
  - symmetry. apply delete_id. exact E.
Qed.


Lemma handlePendingQueries_run now section tok s :
  handlePendingQueries now section tok s =
  Done tt
    (addEvents (withPendingQueries (snd (pq_GetAllAndDelete (pendingQueries s) tok)) s)
       (EvPendingQueriesGetAllAndDelete tok ::
        flat_map (answerEvents now section)
          (if snd (fst (pq_GetAllAndDelete (pendingQueries s) tok))
           then fst (fst (pq_GetAllAndDelete (pendingQueries s) tok))
           else []))).
Proof.
  unfold handlePendingQueries, pendingQueries_GetAllAndDelete.
  unfold bind, gets, set_pendingQueries, emit, ret. simpl.
  destruct (snd (fst (pq_GetAllAndDelete (pendingQueries s) tok))).
  - rewrite answer_loop_run. unfold addEvents, withPendingQueries. simpl.
    rewrite <- app_assoc. reflexivity.
  - reflexivity.
Qed.

Lemma pq_GetAllAndDelete_miss c tok :
  snd (fst (pq_GetAllAndDelete c tok)) = false ->
  fst (fst (pq_GetAllAndDelete c tok)) = [].
Proof.
  unfold pq_GetAllAndDelete. destruct (pq_table c !! tok); simpl.
  - discriminate.
  - reflexivity.
Qed.

(** ** Properties of the engine *)


(** C4. An assertion whose [ValidFrom] lies beyond
    [now + MaxCacheAssertionValidity], at a clock reading after the
    epoch: [assertAssertion] returns false from every state, and
    [assert] on it returns with both caches as they were, no cache
    insertion and nothing sent to any waiter; the waiters recorded under
    the message's token are removed as soon as the assertion passes the
    consistency check, which is when [assertAssertion] is reached. *)
Theorem future_assertion_rejected (now : Z) (a : AssertionSection)
    (isAuthoritative : bool) (tok : Token) (sender : ConnInfo) (s : state) :
  0 < now ->
  now + MaxCacheAssertionValidity Config < ValidFrom a ->
  (forall s0,
     exists s1,
       assertAssertion now a isAuthoritative tok s0 = Done false s1 /\
       assertionsCache s1 = assertionsCache s0 /\
       pq_table (pendingQueries s1) = delete tok (pq_table (pendingQueries s0)) /\
       pq_table (pendingQueries s1) !! tok = None) /\
  exists s',
    assert now {| SWS_Section := SecAssertion a; SWS_Sender := sender;
                  SWS_Token := tok |} isAuthoritative s = Done tt s' /\
    assertionsCache s' = assertionsCache s /\
    negAssertionCache s' = negAssertionCache s /\
    Forall (fun e => isCacheAdd e = false /\ isSendTo e = false)
           (added (trace s) (trace s')) /\
    pq_table (pendingQueries s') =
      (if isAssertionConsistent (assertionsCache s) (negAssertionCache s) a
       then delete tok (pq_table (pendingQueries s))
       else pq_table (pendingQueries s)).
Proof.
  intros Hnow Hfuture.
  assert (Hrun : forall s0,
    assertAssertion now a isAuthoritative tok s0 =
    Done false
      (addEvents
         (withPendingQueries (snd (pq_GetAllAndDelete (pendingQueries s0) tok)) s0)
         [EvLog LvlWarn "Assertion validity starts too much in the future. Drop Assertion.";
          EvPendingQueriesGetAllAndDelete tok])).
  { intros s0. unfold assertAssertion, getAssertionValidity.
    destruct (Z.gtb_spec (ValidFrom a) (now + MaxCacheAssertionValidity Config));
      [|lia].
    unfold bind, log, emit, ret. simpl.
    destruct (Z.ltb_spec 0 now); [|lia].
    unfold pendingQueries_GetAllAndDelete, bind, gets, set_pendingQueries,
      emit, ret. simpl.
    unfold addEvents, withPendingQueries. simpl.
    rewrite <- app_assoc. reflexivity. }
  split.
  - intros s0. eexists. split; [apply Hrun|]. simpl.
    split; [reflexivity|].
    split; [apply pq_GetAllAndDelete_table|].
    rewrite pq_GetAllAndDelete_table. apply lookup_delete_eq.
  - unfold assert. simpl.
    unfold bind at 1. unfold bind at 1. unfold log at 1, emit at 1.
    unfold bind at 1. unfold gets at 1. unfold bind at 1. unfold gets at 1.
    simpl.
    destruct (isAssertionConsistent (assertionsCache s) (negAssertionCache s) a).
    + unfold bind at 1. unfold log at 1, emit at 1. unfold bind at 1.
      rewrite Hrun. unfold ret, log, emit. simpl.
      eexists. split; [reflexivity|]. simpl.
      split; [reflexivity|]. split; [reflexivity|].
      split; [|apply pq_GetAllAndDelete_table].
      unfold added. rewrite <- !app_assoc, drop_app_length. simpl.
      repeat constructor.
    + unfold log, emit. simpl.
      eexists. split; [reflexivity|]. simpl.
      split; [reflexivity|]. split; [reflexivity|].
      split; [|reflexivity].
      unfold added. rewrite <- !app_assoc, drop_app_length. simpl.
      repeat constructor.
Qed.

(** C5. A query carrying [CachedAnswersOnly] that misses the assertion
    cache and the negative-assertion cache: [query] returns after
    sending the sender one [NoAssertionAvail] notification under the
    query's token; no query is forwarded, no waiter is recorded, the
    pending-query cache is as it was. *)
Theorem cached_only_miss (now : Z) (q : QuerySection) (sender : ConnInfo)
    (s : state) (zAn : zoneAndName) :
  ContainsOption q CachedAnswersOnly = true ->
  getZoneAndName (Q_Name q) = Ok [zAn] ->
  snd (fst (ac_Get (assertionsCache s) (Q_Context q) (zone zAn) (name zAn)
              (Q_Type q) (ContainsOption q ExpiredAssertionsOk))) = false ->
  snd (fst (nc_Get (negAssertionCache s) (Q_Context q) (zone zAn)
              (name zAn))) = false ->
  exists s',
    query now q sender s = Done tt s' /\
    added (trace s) (trace s') =
      [EvLog LvlInfo "Start processing query";
       EvSendNotificationMsg (Q_Token q) sender NoAssertionAvail;
       EvLog LvlDebug "Finished handling query (unsuccessful) due to Cached Answers only query option"] /\
    Forall (fun e => isSendQuery e = false /\ isPendingAdd e = false)
           (added (trace s) (trace s')) /\
    pendingQueries s' = pendingQueries s.
Proof.
  intros Hopt Hsplit Hac Hnc.
  unfold query. rewrite Hsplit, Hopt. simpl.
  unfold bind, log, emit, ret, assertionsCache_Get, negAssertionCache_Get,
    gets, set_assertionsCache, set_negAssertionCache. simpl.
  unfold bind, ret. simpl. rewrite Hac. simpl. rewrite Hnc. simpl.
  eexists. split; [reflexivity|]. simpl.
  assert (Hadded : forall l e1 e2 e3 : _,
            added l (((l ++ [e1]) ++ [e2]) ++ [e3]) = [e1; e2; e3]).
  { intros. unfold added. rewrite <- !app_assoc. simpl.
    apply (drop_app_length l [e1; e2; e3]). }
  rewrite Hadded. split; [reflexivity|]. split; [|reflexivity].
  repeat constructor.
Qed.

(** C6. Whatever section [assert] is given, every insertion it makes
    into the assertion cache or the negative-assertion cache, for the
    section itself and for the sections it contains, stores an end of
    validity of at most [now] plus the cap of the inserted kind
    ([insertBounded]); and the three validity functions return, for a
    section they accept, its start and the smaller of its end and
    [now] plus the cap, so a later end is cut back to that bound. *)
Theorem insert_validUntil_bounded (now : Z) :
  (forall sectionWSSender isAuthoritative s,
     Forall (insertBounded now)
       (added (trace s)
          (trace (stateOf (assert now sectionWSSender isAuthoritative s))))) /\
  (forall a s,
     resultOf (getAssertionValidity now a s) =
     Some (if ValidFrom a >? now + MaxCacheAssertionValidity Config
           then (0, 0, false)
           else (ValidFrom a,
                 Z.min (ValidUntil a) (now + MaxCacheAssertionValidity Config),
                 true))) /\
  (forall sh s,
     resultOf (getShardValidity now sh s) =
     Some (if ValidFrom sh >? now + MaxCacheShardValidity Config
           then (0, 0, false)
           else (ValidFrom sh,
                 Z.min (ValidUntil sh) (now + MaxCacheShardValidity Config),
                 true))) /\
  (forall z s,
     resultOf (getZoneValidity now z s) =
     Some (if ValidFrom z >? now + MaxCacheZoneValidity Config
           then (0, 0, false)
           else (ValidFrom z,
                 Z.min (ValidUntil z) (now + MaxCacheZoneValidity Config),
                 true))).
Proof.
  split; [|split; [|split]].
  - intros sws isAuthoritative s.
    apply post_added with (Q := anyResult). apply post_assert.
  - intros a s. unfold getAssertionValidity.
    destruct (ValidFrom a >? now + MaxCacheAssertionValidity Config);
      [reflexivity|].
    destruct (Z.gtb_spec (ValidUntil a)
                (now + MaxCacheAssertionValidity Config)); simpl.
    + rewrite Z.min_r by lia. reflexivity.
    + rewrite Z.min_l by lia. reflexivity.
  - intros sh s. unfold getShardValidity.
    destruct (ValidFrom sh >? now + MaxCacheShardValidity Config);
      [reflexivity|].
    destruct (Z.gtb_spec (ValidUntil sh)
                (now + MaxCacheShardValidity Config)); simpl.
    + rewrite Z.min_r by lia. reflexivity.
    + rewrite Z.min_l by lia. reflexivity.
  - intros z s. unfold getZoneValidity.
    destruct (ValidFrom z >? now + MaxCacheZoneValidity Config);
      [reflexivity|].
    destruct (Z.gtb_spec (ValidUntil z)
                (now + MaxCacheZoneValidity Config)); simpl.
    + rewrite Z.min_r by lia. reflexivity.
    + rewrite Z.min_l by lia. reflexivity.
Qed.

Lemma filter_isWakeUp_answers now section l :
  List.filter isWakeUp (flat_map (answerEvents now section) l) = [].
Proof.
  induction l as [|v rest IH]; simpl; [reflexivity|].
  rewrite List.filter_app, IH, app_nil_r. unfold answerEvents.
  destruct (validUntil v >? now); [|reflexivity].
  destruct (ParseRainsMsg _); reflexivity.
Qed.

Lemma filter_isWakeUp_requeued l :
  List.filter isWakeUp (List.map requeued l) = List.map requeued l.
Proof.
  induction l as [|x rest IH]; simpl; [reflexivity|].
  rewrite IH. reflexivity.
Qed.

(** C9. For an assertion whose content starts with the object [o]:
    the only insertion [assertAssertion] can make is one into the
    assertion cache under the type of [o], made when the start of
    validity is acceptable and not otherwise; and [handleAssertion]
    fetches from the pending-signature cache and puts the fetched
    sections back on the channel exactly when the type of [o] is
    [Delegation]. The objects after [o] appear in neither. *)
Theorem first_object_decides (now : Z) (a : AssertionSection) (o : Object)
    (rest : list Object) (isAuthoritative : bool) (tok : Token) (s : state) :
  A_Content a = o :: rest ->
  let tooLate := ValidFrom a >? now + MaxCacheAssertionValidity Config in
  let value :=
    {| acv_section := a; acv_validFrom := ValidFrom a;
       acv_validUntil :=
         Z.min (ValidUntil a) (now + MaxCacheAssertionValidity Config) |} in
  let woken :=
    ps_GetAllAndDelete (pendingSignatures s) (A_Context a) (A_SubjectZone a) in
  (exists r s1,
     assertAssertion now a isAuthoritative tok s = Done r s1 /\
     assertionsCache s1 =
       (if tooLate then assertionsCache s
        else ac_Add (assertionsCache s) (A_Context a) (A_SubjectZone a)
               (A_SubjectName a) (Type_ o) isAuthoritative value) /\
     List.filter isCacheAdd (added (trace s) (trace s1)) =
       (if tooLate then []
        else [EvAssertionsCacheAdd (A_Context a) (A_SubjectZone a)
                (A_SubjectName a) (Type_ o) isAuthoritative value])) /\
  (exists s2,
     handleAssertion now a tok s = Done tt s2 /\
     List.filter isWakeUp (added (trace s) (trace s2)) =
       (if Type_ o =? Delegation then
          EvPendingSignaturesGetAllAndDelete (A_Context a) (A_SubjectZone a) ::
          List.map requeued (if snd (fst woken) then fst (fst woken) else [])
        else []) /\
     pendingSignatures s2 =
       (if Type_ o =? Delegation then snd woken else pendingSignatures s)).
Proof.
  intros Hcontent tooLate value woken. split.
  - unfold assertAssertion, getAssertionValidity, shouldAssertionBeCached,
      assertionsCache_Add, pendingQueries_GetAllAndDelete.
    rewrite Hcontent. subst tooLate.
    destruct (ValidFrom a >? now + MaxCacheAssertionValidity Config).
    + unfold bind, log, emit, ret, gets, set_pendingQueries. simpl.
      destruct (0 <? now); simpl.
      * eexists _, _. split; [reflexivity|]. simpl. split; [reflexivity|].
        unfold added. rewrite <- !app_assoc, drop_app_length. reflexivity.
      * eexists _, _. split; [reflexivity|]. simpl. split; [reflexivity|].
        unfold added. rewrite drop_app_length. reflexivity.
    + destruct (Z.gtb_spec (ValidUntil a)
                  (now + MaxCacheAssertionValidity Config)).
      * unfold bind, log, emit, ret, gets, set_assertionsCache. simpl.
        eexists _, _. split; [reflexivity|]. simpl. subst value.
        rewrite Z.min_r by lia. split; [reflexivity|].
        unfold added. rewrite <- !app_assoc, drop_app_length. reflexivity.
      * unfold bind, log, emit, ret, gets, set_assertionsCache. simpl.
        eexists _, _. split; [reflexivity|]. simpl. subst value.
        rewrite Z.min_l by lia. split; [reflexivity|].
        unfold added. rewrite <- !app_assoc, drop_app_length. reflexivity.
  - unfold handleAssertion. rewrite Hcontent.
    destruct (Type_ o =? Delegation).
    + unfold pendingSignatures_GetAllAndDelete.
      unfold bind at 1. unfold bind at 1. unfold bind at 1.
      unfold gets at 1. unfold bind at 1. unfold set_pendingSignatures at 1.
      unfold bind at 1. unfold emit at 1. unfold ret at 1. simpl.
      fold woken. destruct (snd (fst woken)).
      * rewrite requeue_loop_run, handlePendingQueries_run.
        eexists. split; [reflexivity|]. simpl.
        split; [|reflexivity].
        unfold added. rewrite <- !app_assoc, drop_app_length. simpl.
        rewrite List.filter_app, filter_isWakeUp_requeued. simpl.
        rewrite filter_isWakeUp_answers, app_nil_r. reflexivity.
      * unfold ret at 1. rewrite handlePendingQueries_run.
        eexists. split; [reflexivity|]. simpl.
        split; [|reflexivity].
        unfold added. rewrite <- !app_assoc, drop_app_length. simpl.
        rewrite filter_isWakeUp_answers. reflexivity.
    + unfold bind at 1. unfold ret at 1. rewrite handlePendingQueries_run.
      eexists. split; [reflexivity|]. simpl.
      split; [|reflexivity].
      unfold added. rewrite drop_app_length. simpl.
      apply filter_isWakeUp_answers.
Qed.

(** What [query] does on the forwarding path, for a split into one zone
    and name: the token sent upstream is the query's own under
    [TokenTracing] and the next minted token otherwise, and that same
    token is the one stored in the waiter. *)
Lemma query_forwards (now : Z) (q : QuerySection) (sender : ConnInfo)
    (s : state) (zAn : zoneAndName) :
  ContainsOption q CachedAnswersOnly = false ->
  getZoneAndName (Q_Name q) = Ok [zAn] ->
  snd (fst (ac_Get (assertionsCache s) (Q_Context q) (zone zAn) (name zAn)
              (Q_Type q) (ContainsOption q ExpiredAssertionsOk))) = false ->
  snd (fst (nc_Get (negAssertionCache s) (Q_Context q) (zone zAn)
              (name zAn))) = false ->
  let ac1 := snd (ac_Get (assertionsCache s) (Q_Context q) (zone zAn)
                    (name zAn) (Q_Type q)
                    (ContainsOption q ExpiredAssertionsOk)) in
  let delegate := getDelegationAddress ac1 (Q_Context q) (zone zAn) in
  ConnInfo_Equal delegate serverConnInfo = false ->
  let outbound :=
    if ContainsOption q TokenTracing then Q_Token q
    else tokenSource s (tokenCount s) in
  let waiter :=
    {| connInfo := sender; token := outbound;
       validUntil := Z.min (Q_Expires q) (now + AssertionQueryValidity Config) |} in
  exists s',
    query now q sender s = Done tt s' /\
    pendingQueries s' =
      snd (pq_Add (pendingQueries s) (Q_Context q) (zone zAn) (name zAn)
             (Q_Type q) waiter) /\
    added (trace s) (trace s') =
      [EvLog LvlInfo "Start processing query";
       EvPendingQueriesAdd (Q_Context q) (zone zAn) (name zAn) (Q_Type q) waiter;
       EvLog LvlDebug "Added query into to pending query cache";
       EvSendQuery (Q_Context q) (zone zAn)
         (Z.min (Q_Expires q) (now + AssertionQueryValidity Config))
         (Q_Type q) outbound delegate].
Proof.
  intros Hopt Hsplit Hac Hnc ac1 delegate Hdel outbound waiter.
  assert (Hmin : (if Q_Expires q <? now + AssertionQueryValidity Config
                  then Q_Expires q else now + AssertionQueryValidity Config)
                 = Z.min (Q_Expires q) (now + AssertionQueryValidity Config)).
  { destruct (Z.ltb_spec (Q_Expires q) (now + AssertionQueryValidity Config)).
    - rewrite Z.min_l by lia. reflexivity.
    - rewrite Z.min_r by lia. reflexivity. }
  unfold query. rewrite Hsplit, Hopt. simpl.
  unfold bind, log, emit, ret, assertionsCache_Get, negAssertionCache_Get,
    gets, set_assertionsCache, set_negAssertionCache. simpl.
  unfold bind, ret. simpl. rewrite Hac. simpl. rewrite Hnc. simpl.
  fold ac1. fold delegate. rewrite Hdel. rewrite Hmin.
  unfold pendingQueries_Add, bind, gets, set_pendingQueries, emit, ret,
    GenerateToken.
  subst waiter outbound.
  destruct (ContainsOption q TokenTracing); simpl.
  - eexists. split; [reflexivity|]. simpl. split; [reflexivity|].
    unfold added. rewrite <- !app_assoc. simpl.
    apply (drop_app_length (trace s)).
  - eexists. split; [reflexivity|]. simpl. split; [reflexivity|].
    unfold added. rewrite <- !app_assoc. simpl.
    apply (drop_app_length (trace s)).
Qed.

(** What [assert] does with a consistent assertion that has no object
    and an acceptable start of validity: it panics at [a.Content[0]]
    with both caches as they were. *)
Lemma assert_empty_content_panics (now : Z) (a : AssertionSection)
    (isAuthoritative : bool) (tok : Token) (sender : ConnInfo) (s : state) :
  A_Content a = [] ->
  ValidFrom a <= now + MaxCacheAssertionValidity Config ->
  isAssertionConsistent (assertionsCache s) (negAssertionCache s) a = true ->
  exists s',
    assert now {| SWS_Section := SecAssertion a; SWS_Sender := sender;
                  SWS_Token := tok |} isAuthoritative s =
      Panicked "index out of range" s' /\
    assertionsCache s' = assertionsCache s /\
    negAssertionCache s' = negAssertionCache s.
Proof.
  intros Hcontent Hfrom Hcons.
  unfold assert. simpl.
  unfold bind at 1. unfold bind at 1. unfold log at 1, emit at 1.
  unfold bind at 1. unfold gets at 1. unfold bind at 1. unfold gets at 1.
  simpl. rewrite Hcons.
  unfold bind at 1. unfold log at 1, emit at 1. unfold bind at 1.
  unfold assertAssertion, getAssertionValidity, shouldAssertionBeCached.
  rewrite Hcontent.
  destruct (Z.gtb_spec (ValidFrom a) (now + MaxCacheAssertionValidity Config));
    [lia|].
  destruct (ValidUntil a >? now + MaxCacheAssertionValidity Config);
    unfold bind, log, emit, ret, panic; simpl;
    eexists; (split; [reflexivity|]); simpl; auto.
Qed.

(** ** Calls that return: the events they add *)

Lemma yields_ret {A : Type} (a : A) (Q : A -> list event -> Prop) :
  Q a [] -> yields (ret a) Q.
Proof.
  intros Hq s. exists a, s, []. rewrite app_nil_r. auto.
Qed.

Lemma yields_bind {A B : Type} (m : M A) (k : A -> M B)
    (Q : A -> list event -> Prop) (R : B -> list event -> Prop) :
  yields m Q ->
  (forall a evs1, Q a evs1 -> yields (k a) (fun b evs2 => R b (evs1 ++ evs2))) ->
  yields (bind m k) R.
Proof.
  intros Hm Hk s. destruct (Hm s) as (a & s1 & evs1 & Hrun & Ht & Hq).
  destruct (Hk a evs1 Hq s1) as (b & s2 & evs2 & Hrun2 & Ht2 & Hr).
  exists b, s2, (evs1 ++ evs2). unfold bind. rewrite Hrun, Hrun2.
  split; [reflexivity|]. split; [|exact Hr].
  rewrite Ht2, Ht, app_assoc. reflexivity.
Qed.

Lemma yields_weaken {A : Type} (m : M A) (Q Q' : A -> list event -> Prop) :
  yields m Q -> (forall a evs, Q a evs -> Q' a evs) -> yields m Q'.
Proof.
  intros Hm Hq s. destruct (Hm s) as (a & s1 & evs & Hrun & Ht & H).
  exists a, s1, evs. auto.
Qed.

Lemma yields_emit (e : event) :
  yields (emit e) (fun _ evs => evs = [e]).
Proof. intros s. exists tt, (addEvents s [e]), [e]. auto. Qed.

Lemma yields_gets {A : Type} (f : state -> A) :
  yields (gets f) (fun _ evs => evs = []).
Proof.
  intros s. exists (f s), s, []. rewrite app_nil_r. auto.
Qed.

Lemma yields_set_assertionsCache c :
  yields (set_assertionsCache c) (fun _ evs => evs = []).
Proof.
  intros s. eexists tt, _, []. split; [reflexivity|]. simpl.
  rewrite app_nil_r. auto.
Qed.

Lemma yields_set_negAssertionCache c :
  yields (set_negAssertionCache c) (fun _ evs => evs = []).
Proof.
  intros s. eexists tt, _, []. split; [reflexivity|]. simpl.
  rewrite app_nil_r. auto.
Qed.

Lemma yields_set_pendingQueries c :
  yields (set_pendingQueries c) (fun _ evs => evs = []).
Proof.
  intros s. eexists tt, _, []. split; [reflexivity|]. simpl.
  rewrite app_nil_r. auto.
Qed.

Lemma yields_set_pendingSignatures c :
  yields (set_pendingSignatures c) (fun _ evs => evs = []).
Proof.
  intros s. eexists tt, _, []. split; [reflexivity|]. simpl.
  rewrite app_nil_r. auto.
Qed.

Lemma inserts_ret {A : Type} (a : A) : inserts (ret a) [].
Proof. apply yields_ret. reflexivity. Qed.

Lemma inserts_bind {A B : Type} (m : M A) (k : A -> M B) e1 e2 :
  inserts m e1 -> (forall a, inserts (k a) e2) -> inserts (bind m k) (e1 ++ e2).
Proof.
  intros Hm Hk. eapply yields_bind; [exact Hm|].
  intros a evs1 H1. eapply yields_weaken; [apply Hk|].
  intros ? evs2 H2. cbv beta in *. rewrite List.filter_app, H1, H2. reflexivity.
Qed.

Lemma inserts_bind_nil {A B : Type} (m : M A) (k : A -> M B) e :
  inserts m [] -> (forall a, inserts (k a) e) -> inserts (bind m k) e.
Proof. intros Hm Hk. apply (inserts_bind m k [] e Hm Hk). Qed.

Lemma inserts_emit (e : event) :
  inserts (emit e) (if isCacheAdd e then [e] else []).
Proof.
  eapply yields_weaken; [apply yields_emit|].
  intros _ evs ->. simpl. destruct (isCacheAdd e); reflexivity.
Qed.

Lemma inserts_log lvl msg : inserts (log lvl msg) [].
Proof. apply (inserts_emit (EvLog lvl msg)). Qed.

Lemma inserts_gets {A : Type} (f : state -> A) : inserts (gets f) [].
Proof.
  eapply yields_weaken; [apply yields_gets|]. intros _ evs ->. reflexivity.
Qed.

Lemma inserts_forEach {X : Type} (l : list X) (body : X -> M unit)
    (g : X -> list event) :
  (forall x, In x l -> inserts (body x) (g x)) ->
  inserts (forEach l body) (flat_map g l).
Proof.
  induction l as [|x rest IH]; intros Hb; simpl.
  - apply inserts_ret.
  - apply inserts_bind.
    + apply Hb. left. reflexivity.
    + intros _. apply IH. intros y Hy. apply Hb. right. exact Hy.
Qed.

Lemma inserts_forEach_nil {X : Type} (l : list X) (body : X -> M unit) :
  (forall x, inserts (body x) []) -> inserts (forEach l body) [].
Proof.
  intros Hb. induction l as [|x rest IH]; simpl.
  - apply inserts_ret.
  - apply inserts_bind_nil; [apply Hb|]. intros _. exact IH.
Qed.

Lemma inserts_pendingQueries_GetAllAndDelete tok :
  inserts (pendingQueries_GetAllAndDelete tok) [].
Proof.
  unfold pendingQueries_GetAllAndDelete.
  apply inserts_bind_nil; [apply inserts_gets|]. intros c.
  apply inserts_bind_nil.
  { eapply yields_weaken; [apply yields_set_pendingQueries|].
    intros _ evs ->. reflexivity. }
  intros _. apply inserts_bind_nil.
  { apply (inserts_emit (EvPendingQueriesGetAllAndDelete tok)). }
  intros _. apply inserts_ret.
Qed.

Lemma inserts_pendingSignatures_GetAllAndDelete context zone :
  inserts (pendingSignatures_GetAllAndDelete context zone) [].
Proof.
  unfold pendingSignatures_GetAllAndDelete.
  apply inserts_bind_nil; [apply inserts_gets|]. intros c.
  apply inserts_bind_nil.
  { eapply yields_weaken; [apply yields_set_pendingSignatures|].
    intros _ evs ->. reflexivity. }
  intros _. apply inserts_bind_nil.
  { apply (inserts_emit (EvPendingSignaturesGetAllAndDelete context zone)). }
  intros _. apply inserts_ret.
Qed.

Lemma inserts_sendQueryAnswer section sender tok :
  inserts (sendQueryAnswer section sender tok) [].
Proof.
  unfold sendQueryAnswer. destruct (ParseRainsMsg _).
  - apply (inserts_emit (EvSendTo _ _)).
  - apply inserts_log.
Qed.

Lemma inserts_handlePendingQueries now section tok :
  inserts (handlePendingQueries now section tok) [].
Proof.
  unfold handlePendingQueries.
  apply inserts_bind_nil; [apply inserts_pendingQueries_GetAllAndDelete|].
  intros r. destruct (snd r); [|apply inserts_ret].
  apply inserts_forEach_nil. intros v. destruct (validUntil v >? now).
  - apply inserts_sendQueryAnswer.
  - apply inserts_log.
Qed.

Lemma inserts_handleAssertion now a tok :
  hasObject a = true -> inserts (handleAssertion now a tok) [].
Proof.
  unfold hasObject, handleAssertion. destruct (A_Content a) as [|o rest];
    [discriminate|]. intros _.
  apply inserts_bind_nil; [|intros _; apply inserts_handlePendingQueries].
  destruct (Type_ o =? Delegation); [|apply inserts_ret].
  apply inserts_bind_nil; [apply inserts_pendingSignatures_GetAllAndDelete|].
  intros r. destruct (snd r); [|apply inserts_ret].
  apply inserts_forEach_nil. intros x. apply (inserts_emit (EvNormalChannel _)).
Qed.

Lemma inserts_after {A : Type} (m : M A) (evs1 e : list event) :
  List.filter isCacheAdd evs1 = [] ->
  inserts m e ->
  yields m (fun _ evs2 => List.filter isCacheAdd (evs1 ++ evs2) = e).
Proof.
  intros H1 Hm. eapply yields_weaken; [exact Hm|].
  intros ? evs2 H2. cbv beta in *. rewrite List.filter_app, H1, H2. reflexivity.
Qed.

Lemma yields_getAssertionValidity now a :
  yields (getAssertionValidity now a)
    (fun r evs =>
       List.filter isCacheAdd evs = [] /\
       r = if ValidFrom a >? now + MaxCacheAssertionValidity Config
           then (0, 0, false)
           else (ValidFrom a,
                 Z.min (ValidUntil a) (now + MaxCacheAssertionValidity Config),
                 true)).
Proof.
  unfold getAssertionValidity.
  destruct (ValidFrom a >? now + MaxCacheAssertionValidity Config).
  - eapply yields_bind; [apply inserts_log|]. intros ? evs1 H1.
    apply yields_ret. rewrite app_nil_r. auto.
  - destruct (Z.gtb_spec (ValidUntil a)
                (now + MaxCacheAssertionValidity Config)).
    + eapply yields_bind; [apply inserts_log|]. intros ? evs1 H1.
      apply yields_ret. rewrite app_nil_r, Z.min_r by lia. auto.
    + apply yields_ret. rewrite Z.min_l by lia. auto.
Qed.

Lemma yields_getShardValidity now sh :
  yields (getShardValidity now sh)
    (fun r evs =>
       List.filter isCacheAdd evs = [] /\
       r = if ValidFrom sh >? now + MaxCacheShardValidity Config
           then (0, 0, false)
           else (ValidFrom sh,
                 Z.min (ValidUntil sh) (now + MaxCacheShardValidity Config),
                 true)).
Proof.
  unfold getShardValidity.
  destruct (ValidFrom sh >? now + MaxCacheShardValidity Config).
  - eapply yields_bind; [apply inserts_log|]. intros ? evs1 H1.
    apply yields_ret. rewrite app_nil_r. auto.
  - destruct (Z.gtb_spec (ValidUntil sh)
                (now + MaxCacheShardValidity Config)).
    + eapply yields_bind; [apply inserts_log|]. intros ? evs1 H1.
      apply yields_ret. rewrite app_nil_r, Z.min_r by lia. auto.
    + apply yields_ret. rewrite Z.min_l by lia. auto.
Qed.

Lemma yields_getZoneValidity now z :
  yields (getZoneValidity now z)
    (fun r evs =>
       List.filter isCacheAdd evs = [] /\
       r = if ValidFrom z >? now + MaxCacheZoneValidity Config
           then (0, 0, false)
           else (ValidFrom z,
                 Z.min (ValidUntil z) (now + MaxCacheZoneValidity Config),
                 true)).
Proof.
  unfold getZoneValidity.
  destruct (ValidFrom z >? now + MaxCacheZoneValidity Config).
  - eapply yields_bind; [apply inserts_log|]. intros ? evs1 H1.
    apply yields_ret. rewrite app_nil_r. auto.
  - destruct (Z.gtb_spec (ValidUntil z)
                (now + MaxCacheZoneValidity Config)).
    + eapply yields_bind; [apply inserts_log|]. intros ? evs1 H1.
      apply yields_ret. rewrite app_nil_r, Z.min_r by lia. auto.
    + apply yields_ret. rewrite Z.min_l by lia. auto.
Qed.

Lemma inserts_rejected (validFrom now : Z) tok :
  inserts (if validFrom <? now
           then bind (pendingQueries_GetAllAndDelete tok) (fun _ => ret false)
           else ret true) [].
Proof.
  destruct (validFrom <? now); [|apply inserts_ret].
  apply inserts_bind_nil; [apply inserts_pendingQueries_GetAllAndDelete|].
  intros _. apply inserts_ret.
Qed.

Lemma inserts_assertionsCache_Add context zone name t isAuthoritative value :
  inserts (assertionsCache_Add context zone name t isAuthoritative value)
    [EvAssertionsCacheAdd context zone name t isAuthoritative value].
Proof.
  unfold assertionsCache_Add.
  apply inserts_bind_nil; [apply inserts_gets|]. intros c.
  apply inserts_bind_nil.
  { eapply yields_weaken; [apply yields_set_assertionsCache|].
    intros _ evs ->. reflexivity. }
  intros _. apply (inserts_emit (EvAssertionsCacheAdd _ _ _ _ _ _)).
Qed.

Lemma inserts_negAssertionCache_Add context zone isAuthoritative value :
  inserts (negAssertionCache_Add context zone isAuthoritative value)
    [EvNegAssertionCacheAdd context zone isAuthoritative value].
Proof.
  unfold negAssertionCache_Add.
  apply inserts_bind_nil; [apply inserts_gets|]. intros c.
  apply inserts_bind_nil.
  { eapply yields_weaken; [apply yields_set_negAssertionCache|].
    intros _ evs ->. reflexivity. }
  intros _. apply (inserts_emit (EvNegAssertionCacheAdd _ _ _ _)).
Qed.

Lemma yields_shouldBeCached (msg : string) :
  yields (bind (log LvlInfo msg) (fun _ => ret true))
    (fun c evs => List.filter isCacheAdd evs = [] /\ c = true).
Proof.
  eapply yields_bind; [apply inserts_log|]. intros ? evs1 H1.
  apply yields_ret. rewrite app_nil_r. auto.
Qed.

Lemma inserts_assertAssertion now a isAuthoritative tok :
  hasObject a = true ->
  inserts (assertAssertion now a isAuthoritative tok)
          (assertionInsertions now isAuthoritative a).
Proof.
  unfold hasObject, assertAssertion, assertionInsertions,
    shouldAssertionBeCached.
  destruct (A_Content a) as [|o rest]; [discriminate|]. intros _.
  eapply yields_bind; [apply yields_getAssertionValidity|].
  intros r evs1 [H1 ->].
  destruct (ValidFrom a >? now + MaxCacheAssertionValidity Config); simpl.
  - apply inserts_after; [exact H1|]. apply inserts_rejected.
  - apply inserts_after; [exact H1|].
    apply (inserts_bind _ _ [_] []); [|intros _; apply inserts_ret].
    eapply yields_bind; [apply yields_shouldBeCached|].
    intros c evs2 [H2 ->]. apply inserts_after; [exact H2|].
    apply inserts_assertionsCache_Add.
Qed.

Lemma inserts_assertShard now sh isAuthoritative tok :
  shardHasObjects sh = true ->
  inserts (assertShard now sh isAuthoritative tok)
          (shardInsertions now isAuthoritative sh).
Proof.
  unfold shardHasObjects, assertShard, shardInsertions, shouldShardBeCached.
  intros Hobjs.
  eapply yields_bind; [apply yields_getShardValidity|].
  intros r evs1 [H1 ->].
  destruct (ValidFrom sh >? now + MaxCacheShardValidity Config); simpl.
  - apply inserts_after; [exact H1|]. apply inserts_rejected.
  - apply inserts_after; [exact H1|].
    apply (inserts_bind _ _ [_] _).
    { eapply yields_bind; [apply yields_shouldBeCached|].
      intros c evs2 [H2 ->]. apply inserts_after; [exact H2|].
      apply inserts_negAssertionCache_Add. }
    intros _.
    rewrite <- (app_nil_r (flat_map _ _)).
    apply inserts_bind; [|intros _; apply inserts_ret].
    apply inserts_forEach. intros a Ha.
    rewrite <- (app_nil_r (assertionInsertions _ _ _)).
    apply inserts_bind; [|intros _; apply inserts_ret].
    apply inserts_assertAssertion.
    rewrite forallb_forall in Hobjs. apply Hobjs. exact Ha.
Qed.

Lemma inserts_assertZone now z isAuthoritative tok :
  zoneHasObjects z = true ->
  inserts (assertZone now z isAuthoritative tok)
          (zoneInsertions now isAuthoritative z).
Proof.
  unfold zoneHasObjects, assertZone, zoneInsertions, shouldZoneBeCached.
  intros Hobjs.
  eapply yields_bind; [apply yields_getZoneValidity|].
  intros r evs1 [H1 ->].
  destruct (ValidFrom z >? now + MaxCacheZoneValidity Config); simpl.
  - apply inserts_after; [exact H1|]. apply inserts_rejected.
  - apply inserts_after; [exact H1|].
    apply (inserts_bind _ _ [_] _).
    { eapply yields_bind; [apply yields_shouldBeCached|].
      intros c evs2 [H2 ->]. apply inserts_after; [exact H2|].
      apply inserts_negAssertionCache_Add. }
    intros _.
    rewrite <- (app_nil_r (flat_map _ _)).
    apply inserts_bind; [|intros _; apply inserts_ret].
    apply inserts_forEach. intros v Hv.
    rewrite forallb_forall in Hobjs. specialize (Hobjs v Hv).
    destruct v as [a|sh|ty].
    + rewrite <- (app_nil_r (assertionInsertions _ _ _)).
      apply inserts_bind; [|intros _; apply inserts_ret].
      apply inserts_assertAssertion. exact Hobjs.
    + rewrite <- (app_nil_r (shardInsertions _ _ _)).
      apply inserts_bind; [|intros _; apply inserts_ret].
      apply inserts_assertShard. exact Hobjs.
    + apply inserts_log.
Qed.

Lemma wrapped_run (m : M unit) (e : list event) (s s1 : state) (l0 : event)
    lvl msg :
  inserts m e ->
  trace s1 = trace s ++ [l0] ->
  isCacheAdd l0 = false ->
  exists s',
    match m s1 with
    | Done _ s2 => log lvl msg s2
    | Panicked p s2 => Panicked p s2
    end = Done tt s' /\
    List.filter isCacheAdd (added (trace s) (trace s')) = e.
Proof.
  intros Hm Ht Hl0. destruct (Hm s1) as ([] & s2 & evs & Hrun & Ht2 & He).
  rewrite Hrun. eexists. split; [reflexivity|]. simpl.
  rewrite Ht2, Ht. unfold added. rewrite <- !app_assoc, drop_app_length.
  simpl. rewrite Hl0, List.filter_app, He. simpl. apply app_nil_r.
Qed.

(** X1: For a section all of whose assertions carry an object, [assert]
    returns, and its cache insertions are, in order, those of
    [sectionInsertions] when the section passes the consistency check
    and none otherwise: a shard or zone first, then what it contains,
    each contained section on its own validity, so that one left out
    for its start of validity does not stop the ones after it. *)
Theorem assert_insertions (now : Z) (sectionWSSender : sectionWithSigSender)
    (isAuthoritative : bool) (s : state) :
  sectionHasObjects (SWS_Section sectionWSSender) = true ->
  exists s',
    assert now sectionWSSender isAuthoritative s = Done tt s' /\
    List.filter isCacheAdd (added (trace s) (trace s')) =
      (if passesConsistency (assertionsCache s) (negAssertionCache s)
            (SWS_Section sectionWSSender)
       then sectionInsertions now isAuthoritative (SWS_Section sectionWSSender)
       else []).
Proof.
  intros Hobjs. unfold assert.
  destruct (SWS_Section sectionWSSender) as [a|sh|z|ty]; simpl in *.
  - unfold bind at 1. unfold bind at 1. unfold log at 1, emit at 1.
    unfold bind at 1. unfold gets at 1. unfold bind at 1. unfold gets at 1.
    simpl.
    destruct (isAssertionConsistent (assertionsCache s) (negAssertionCache s) a).
    + eapply wrapped_run; [|reflexivity|reflexivity].
      apply inserts_bind_nil; [apply inserts_log|]. intros _.
      rewrite <- (app_nil_r (assertionInsertions _ _ _)).
      apply inserts_bind; [apply inserts_assertAssertion; exact Hobjs|].
      intros ok. destruct ok; [|apply inserts_ret].
      apply inserts_handleAssertion. exact Hobjs.
    + eapply wrapped_run; [|reflexivity|reflexivity]. apply inserts_log.
  - unfold bind at 1. unfold bind at 1. unfold log at 1, emit at 1.
    unfold bind at 1. unfold gets at 1. unfold bind at 1. unfold gets at 1.
    simpl.
    destruct (isShardConsistent (assertionsCache s) (negAssertionCache s) sh).
    + eapply wrapped_run; [|reflexivity|reflexivity].
      apply inserts_bind_nil; [apply inserts_log|]. intros _.
      rewrite <- (app_nil_r (shardInsertions _ _ _)).
      apply inserts_bind; [apply inserts_assertShard; exact Hobjs|].
      intros ok. destruct ok; [|apply inserts_ret].
      apply inserts_handlePendingQueries.
    + eapply wrapped_run; [|reflexivity|reflexivity]. apply inserts_log.
  - unfold bind at 1. unfold bind at 1. unfold log at 1, emit at 1.
    unfold bind at 1. unfold gets at 1. unfold bind at 1. unfold gets at 1.
    simpl.
    destruct (isZoneConsistent (assertionsCache s) (negAssertionCache s) z).
    + eapply wrapped_run; [|reflexivity|reflexivity].
      apply inserts_bind_nil; [apply inserts_log|]. intros _.
      rewrite <- (app_nil_r (zoneInsertions _ _ _)).
      apply inserts_bind; [apply inserts_assertZone; exact Hobjs|].
      intros ok. destruct ok; [|apply inserts_ret].
      apply inserts_handlePendingQueries.
    + eapply wrapped_run; [|reflexivity|reflexivity]. apply inserts_log.
  - unfold bind, log, emit. simpl. eexists. split; [reflexivity|]. simpl.
    unfold added. rewrite <- !app_assoc, drop_app_length. reflexivity.
Qed.

(** X2: A section that does not pass the consistency check of its kind (or
    whose kind is unknown) is dropped by [assert]: the call returns, and
    the state it reaches differs from the one it started in only by log
    lines. *)
Theorem assert_inconsistent_dropped (now : Z)
    (sectionWSSender : sectionWithSigSender) (isAuthoritative : bool)
    (s : state) :
  passesConsistency (assertionsCache s) (negAssertionCache s)
    (SWS_Section sectionWSSender) = false ->
  exists evs,
    assert now sectionWSSender isAuthoritative s = Done tt (addEvents s evs) /\
    forallb isLog evs = true.
Proof.
  unfold passesConsistency, assert. intros Hcons.
  destruct (SWS_Section sectionWSSender) as [a|sh|z|ty].
  - exists [EvLog LvlInfo "Start processing Assertion";
            EvLog LvlDebug "Assertion is inconsistent with cached elements.";
            EvLog LvlDebug "Finished handling"].
    split; [|reflexivity].
    unfold bind at 1. unfold bind at 1. unfold log at 1, emit at 1.
    unfold bind at 1. unfold gets at 1. unfold bind at 1. unfold gets at 1.
    simpl. rewrite Hcons. unfold log, emit, addEvents. simpl.
    rewrite <- !app_assoc. reflexivity.
  - exists [EvLog LvlInfo "Start processing Shard";
            EvLog LvlDebug "Shard is inconsistent with cached elements.";
            EvLog LvlDebug "Finished handling"].
    split; [|reflexivity].
    unfold bind at 1. unfold bind at 1. unfold log at 1, emit at 1.
    unfold bind at 1. unfold gets at 1. unfold bind at 1. unfold gets at 1.
    simpl. rewrite Hcons. unfold log, emit, addEvents. simpl.
    rewrite <- !app_assoc. reflexivity.
  - exists [EvLog LvlInfo "Start processing zone";
            EvLog LvlDebug "Zone is inconsistent with cached elements.";
            EvLog LvlDebug "Finished handling"].
    split; [|reflexivity].
    unfold bind at 1. unfold bind at 1. unfold log at 1, emit at 1.
    unfold bind at 1. unfold gets at 1. unfold bind at 1. unfold gets at 1.
    simpl. rewrite Hcons. unfold log, emit, addEvents. simpl.
    rewrite <- !app_assoc. reflexivity.
  - exists [EvLog LvlWarn "Unknown message section";
            EvLog LvlDebug "Finished handling"].
    split; [|reflexivity].
    unfold bind, log, emit, addEvents. simpl.
    rewrite <- !app_assoc. reflexivity.
Qed.

(** X3: A query answered from the assertion cache: when the lookup for the
    split of the query name reports a hit whose first entry is [a0],
    [query] hands [a0] to [sendQueryAnswer] for the sender under the
    query's own token and returns. The negative-assertion cache is not
    consulted, no token is minted, nothing is recorded or forwarded. *)
Theorem query_assertion_cache_hit (now : Z) (q : QuerySection)
    (sender : ConnInfo) (s : state) (zAn : zoneAndName)
    (a0 : AssertionSection) (more : list AssertionSection) :
  getZoneAndName (Q_Name q) = Ok [zAn] ->
  fst (ac_Get (assertionsCache s) (Q_Context q) (zone zAn) (name zAn)
         (Q_Type q) (ContainsOption q ExpiredAssertionsOk))
    = (a0 :: more, true) ->
  exists s',
    query now q sender s = Done tt s' /\
    added (trace s) (trace s') =
      EvLog LvlInfo "Start processing query" ::
      match ParseRainsMsg {| Msg_Content := [SecAssertion a0];
                             Msg_Token := Q_Token q |} with
      | Some byteMsg => [EvSendTo byteMsg sender]
      | None => [EvLog LvlError "Was not able to parse message"]
      end ++
      [EvLog LvlDebug "Finished handling query by sending assertion from cache"] /\
    negAssertionCache s' = negAssertionCache s /\
    pendingQueries s' = pendingQueries s /\
    tokenCount s' = tokenCount s.
Proof.
  intros Hsplit Hhit. unfold query. rewrite Hsplit. simpl.
  unfold bind, log, emit, ret, assertionsCache_Get, gets,
    set_assertionsCache. simpl.
  unfold bind, ret. simpl. rewrite Hhit. simpl.
  unfold sendQueryAnswer, log, emit.
  destruct (ParseRainsMsg _); simpl;
    (eexists; split; [reflexivity|]; simpl; split; [|auto];
     unfold added; rewrite <- !app_assoc; simpl;
     apply (drop_app_length (trace s))).
Qed.

(** X4: A query answered from the negative-assertion cache: on a miss of
    the assertion cache and a hit of the negative one, the shard or
    zone found is handed to [sendQueryAnswer] for the sender under the
    query's own token; no token is minted, nothing is recorded or
    forwarded. *)
Theorem query_negative_cache_hit (now : Z) (q : QuerySection)
    (sender : ConnInfo) (s : state) (zAn : zoneAndName)
    (found : MessageSectionWithSig) :
  getZoneAndName (Q_Name q) = Ok [zAn] ->
  snd (fst (ac_Get (assertionsCache s) (Q_Context q) (zone zAn) (name zAn)
              (Q_Type q) (ContainsOption q ExpiredAssertionsOk))) = false ->
  fst (nc_Get (negAssertionCache s) (Q_Context q) (zone zAn) (name zAn))
    = (found, true) ->
  exists s',
    query now q sender s = Done tt s' /\
    added (trace s) (trace s') =
      EvLog LvlInfo "Start processing query" ::
      match ParseRainsMsg {| Msg_Content := [found];
                             Msg_Token := Q_Token q |} with
      | Some byteMsg => [EvSendTo byteMsg sender]
      | None => [EvLog LvlError "Was not able to parse message"]
      end ++
      [EvLog LvlDebug "Finished handling query by sending shard or zone from cache"] /\
    pendingQueries s' = pendingQueries s /\
    tokenCount s' = tokenCount s.
Proof.
  intros Hsplit Hmiss Hhit. unfold query. rewrite Hsplit. simpl.
  unfold bind, log, emit, ret, assertionsCache_Get, negAssertionCache_Get,
    gets, set_assertionsCache, set_negAssertionCache. simpl.
  unfold bind, ret. simpl. rewrite Hmiss. simpl. rewrite Hhit. simpl.
  unfold sendQueryAnswer, log, emit.
  destruct (ParseRainsMsg _); simpl;
    (eexists; split; [reflexivity|]; simpl; split; [|auto];
     unfold added; rewrite <- !app_assoc; simpl;
     apply (drop_app_length (trace s))).
Qed.

(** X5: A query this server is authoritative for: on a miss of both caches,
    without [CachedAnswersOnly], when the delegate for the zone is the
    server itself, the sender gets one [NoAssertionAvail] notification
    under the query's token; no token is minted, nothing is recorded or
    forwarded. *)
Theorem query_self_delegation (now : Z) (q : QuerySection)
    (sender : ConnInfo) (s : state) (zAn : zoneAndName) :
  ContainsOption q CachedAnswersOnly = false ->
  getZoneAndName (Q_Name q) = Ok [zAn] ->
  snd (fst (ac_Get (assertionsCache s) (Q_Context q) (zone zAn) (name zAn)
              (Q_Type q) (ContainsOption q ExpiredAssertionsOk))) = false ->
  snd (fst (nc_Get (negAssertionCache s) (Q_Context q) (zone zAn)
              (name zAn))) = false ->
  ConnInfo_Equal
    (getDelegationAddress
       (snd (ac_Get (assertionsCache s) (Q_Context q) (zone zAn) (name zAn)
               (Q_Type q) (ContainsOption q ExpiredAssertionsOk)))
       (Q_Context q) (zone zAn))
    serverConnInfo = true ->
  exists s',
    query now q sender s = Done tt s' /\
    added (trace s) (trace s') =
      [EvLog LvlInfo "Start processing query";
       EvSendNotificationMsg (Q_Token q) sender NoAssertionAvail;
       EvLog LvlError "Stop processing query. I am authoritative and have no answer in cache"] /\
    pendingQueries s' = pendingQueries s /\
    tokenCount s' = tokenCount s.
Proof.
  intros Hopt Hsplit Hac Hnc Hself.
  unfold query. rewrite Hsplit, Hopt. simpl.
  unfold bind, log, emit, ret, assertionsCache_Get, negAssertionCache_Get,
    gets, set_assertionsCache, set_negAssertionCache. simpl.
  unfold bind, ret. simpl. rewrite Hac. simpl. rewrite Hnc. simpl.
  rewrite Hself. simpl.
  eexists. split; [reflexivity|]. simpl. split; [|auto].
  unfold added. rewrite <- !app_assoc. simpl.
  apply (drop_app_length (trace s)).
Qed.

Lemma post_assertionsCache_Get (P : event -> Prop) context zone name t e :
  post P anyResult (assertionsCache_Get context zone name t e).
Proof.
  unfold assertionsCache_Get.
  eapply post_bind; [apply post_gets with (Q := anyResult); intros; exact I|].
  intros c _. eapply post_bind; [apply post_set_assertionsCache|].
  intros _ _. apply post_ret. exact I.
Qed.

Lemma post_negAssertionCache_Get (P : event -> Prop) context zone point :
  post P anyResult (negAssertionCache_Get context zone point).
Proof.
  unfold negAssertionCache_Get.
  eapply post_bind; [apply post_gets with (Q := anyResult); intros; exact I|].
  intros c _. eapply post_bind; [apply post_set_negAssertionCache|].
  intros _ _. apply post_ret. exact I.
Qed.

Lemma post_query_answer section sender tok :
  post (fun e => isQueryEvent e = true) anyResult
       (sendQueryAnswer section sender tok).
Proof. apply post_sendQueryAnswer; reflexivity. Qed.

Lemma post_query_assertions q sender zoneAndNames :
  post (fun e => isQueryEvent e = true) anyResult
       (query_assertions q sender zoneAndNames).
Proof.
  induction zoneAndNames as [|zAn rest IH]; simpl.
  - apply post_ret. exact I.
  - eapply post_bind; [apply post_assertionsCache_Get|].
    intros r _. destruct (snd r); [|exact IH].
    destruct (fst r); [apply post_panic|].
    eapply post_bind; [apply post_query_answer|]. intros _ _.
    eapply post_bind; [apply post_log with (Q := anyResult); reflexivity|].
    intros _ _. apply post_ret. exact I.
Qed.

Lemma post_query_negAssertions q sender zoneAndNames :
  post (fun e => isQueryEvent e = true) anyResult
       (query_negAssertions q sender zoneAndNames).
Proof.
  induction zoneAndNames as [|zAn rest IH]; simpl.
  - apply post_ret. exact I.
  - eapply post_bind; [apply post_negAssertionCache_Get|].
    intros r _. destruct (snd r); [|exact IH].
    eapply post_bind; [apply post_query_answer|]. intros _ _.
    eapply post_bind; [apply post_log with (Q := anyResult); reflexivity|].
    intros _ _. apply post_ret. exact I.
Qed.

Lemma post_query_forward now q sender zoneAndNames :
  post (fun e => isQueryEvent e = true) anyResult
       (query_forward now q sender zoneAndNames).
Proof.
  induction zoneAndNames as [|zAn rest IH]; simpl.
  - apply post_ret. exact I.
  - eapply post_bind; [apply post_gets with (Q := anyResult); intros; exact I|].
    intros ac _. destruct (ConnInfo_Equal _ _).
    + eapply post_bind; [apply post_emit with (Q := anyResult); reflexivity|].
      intros _ _. apply post_log; reflexivity.
    + eapply post_bind with (Q := anyResult).
      { destruct (negb _); [apply post_GenerateToken|apply post_ret; exact I]. }
      intros tok _. eapply post_bind with (Q := anyResult).
      { unfold pendingQueries_Add.
        eapply post_bind;
          [apply post_gets with (Q := anyResult); intros; exact I|].
        intros c _. eapply post_bind; [apply post_set_pendingQueries|].
        intros _ _.
        eapply post_bind; [apply post_emit with (Q := anyResult); reflexivity|].
        intros _ _. apply post_ret. exact I. }
      intros _ _.
      eapply post_bind; [apply post_log with (Q := anyResult); reflexivity|].
      intros _ _.
      eapply post_bind; [apply post_emit with (Q := anyResult); reflexivity|].
      intros _ _. exact IH.
Qed.

(** X6: Whatever the query and the state, and whether it returns or panics,
    [query] only logs, sends an answer or a notification, records a
    waiter and forwards a query: it never inserts into the assertion or
    negative-assertion cache, never fetches or deletes waiters or
    pending signatures, and puts nothing on the channel. *)
Theorem query_only_answers_or_forwards (now : Z) (q : QuerySection)
    (sender : ConnInfo) (s : state) :
  Forall (fun e => isQueryEvent e = true)
         (added (trace s) (trace (stateOf (query now q sender s)))).
Proof.
  apply post_added with (Q := anyResult). unfold query.
  eapply post_bind; [apply post_log with (Q := anyResult); reflexivity|].
  intros _ _. eapply post_bind with (Q := anyResult).
  { destruct (getZoneAndName (Q_Name q)); simpl;
      [apply post_ret; exact I|apply post_panic]. }
  intros zoneAndNames _.
  eapply post_bind; [apply post_query_assertions|].
  intros answered _. destruct answered; [apply post_ret; exact I|].
  eapply post_bind; [apply post_query_negAssertions|].
  intros answered _. destruct answered; [apply post_ret; exact I|].
  destruct (ContainsOption q CachedAnswersOnly).
  - eapply post_bind; [apply post_emit with (Q := anyResult); reflexivity|].
    intros _ _. apply post_log; reflexivity.
  - apply post_query_forward.
Qed.

(** X7: A shard whose start of validity lies beyond
    [now + MaxCacheShardValidity], at a clock reading after the epoch:
    [assertShard] returns false after one warning and one fetch of the
    waiters under the given token. The shard is not inserted and none of
    the assertions it contains is looked at. *)
Theorem future_shard_rejected (now : Z) (sh : ShardSection)
    (isAuthoritative : bool) (tok : Token) (s : state) :
  0 < now ->
  now + MaxCacheShardValidity Config < ValidFrom sh ->
  exists s',
    assertShard now sh isAuthoritative tok s = Done false s' /\
    added (trace s) (trace s') =
      [EvLog LvlWarn "Shard validity starts too much in the future. Drop Shard.";
       EvPendingQueriesGetAllAndDelete tok] /\
    assertionsCache s' = assertionsCache s /\
    negAssertionCache s' = negAssertionCache s /\
    pendingQueries s' = snd (pq_GetAllAndDelete (pendingQueries s) tok).
Proof.
  intros Hnow Hfuture. unfold assertShard, getShardValidity.
  destruct (Z.gtb_spec (ValidFrom sh) (now + MaxCacheShardValidity Config));
    [|lia].
  unfold bind, log, emit, ret. simpl.
  destruct (Z.ltb_spec 0 now); [|lia].
  unfold pendingQueries_GetAllAndDelete, bind, gets, set_pendingQueries,
    emit, ret. simpl.
  eexists. split; [reflexivity|]. simpl. split; [|auto].
  unfold added. rewrite <- !app_assoc. simpl.
  apply (drop_app_length (trace s)).
Qed.

(** X8: A zone whose start of validity lies beyond
    [now + MaxCacheZoneValidity], at a clock reading after the epoch:
    [assertZone] returns false after one warning and one fetch of the
    waiters under the given token. The zone is not inserted and none of
    the shards and assertions it contains is looked at. *)
Theorem future_zone_rejected (now : Z) (z : ZoneSection)
    (isAuthoritative : bool) (tok : Token) (s : state) :
  0 < now ->
  now + MaxCacheZoneValidity Config < ValidFrom z ->
  exists s',
    assertZone now z isAuthoritative tok s = Done false s' /\
    added (trace s) (trace s') =
      [EvLog LvlWarn "Zone validity starts too much in the future. Drop Zone.";
       EvPendingQueriesGetAllAndDelete tok] /\
    assertionsCache s' = assertionsCache s /\
    negAssertionCache s' = negAssertionCache s /\
    pendingQueries s' = snd (pq_GetAllAndDelete (pendingQueries s) tok).
Proof.
  intros Hnow Hfuture. unfold assertZone, getZoneValidity.
  destruct (Z.gtb_spec (ValidFrom z) (now + MaxCacheZoneValidity Config));
    [|lia].
  unfold bind, log, emit, ret. simpl.
  destruct (Z.ltb_spec 0 now); [|lia].
  unfold pendingQueries_GetAllAndDelete, bind, gets, set_pendingQueries,
    emit, ret. simpl.
  eexists. split; [reflexivity|]. simpl. split; [|auto].
  unfold added. rewrite <- !app_assoc. simpl.
  apply (drop_app_length (trace s)).
Qed.

End Engine.

End rainsd.

(** * Splitting a query name *)

Section QueryName.
Import rainsd.

Lemma Split_not_nil (s : string) (sep : ascii) : Split s sep <> [].
Proof.
  destruct s as [|c r]; simpl; [discriminate|].
  destruct (Ascii.eqb c sep); [discriminate|].
  destruct (Split r sep); discriminate.
Qed.

Lemma Join_cons_char (c : ascii) (h : string) (t : list string) (sep : string) :
  Join (String c h :: t) sep = String c (Join (h :: t) sep).
Proof. destruct t; reflexivity. Qed.

Lemma Join_Split (z : string) : Join (Split z ".") "." = z.
Proof.
  induction z as [|c r IH]; simpl; [reflexivity|].
  destruct (Ascii.eqb_spec c ".") as [->|Hc].
  - destruct (Split r ".") as [|h t] eqn:E.
    + exfalso. exact (Split_not_nil _ _ E).
    + change (Join (EmptyString :: h :: t) ".")
        with (String "." (Join (h :: t) ".")).
      rewrite IH. reflexivity.
  - destruct (Split r ".") as [|h t] eqn:E.
    + exfalso. exact (Split_not_nil _ _ E).
    + rewrite Join_cons_char, IH. reflexivity.
Qed.

Lemma Split_first (s : string) :
  exists h t,
    Split s "." = h :: t /\ no_dot h = true /\
    ((no_dot s = true /\ h = s /\ t = []) \/
     (exists z, s = h +:+ "." +:+ z /\ t = Split z ".")).
Proof.
  induction s as [|c r IH]; simpl.
  - exists EmptyString, []. split; [reflexivity|]. split; [reflexivity|].
    left. auto.
  - destruct (Ascii.eqb_spec c ".") as [->|Hc]; simpl.
    + exists EmptyString, (Split r "."). split; [reflexivity|].
      split; [reflexivity|]. right. exists r. auto.
    + destruct IH as (h & t & Hs & Hh & Hcase). rewrite Hs.
      exists (String c h), t. split; [reflexivity|].
      assert (Hneq : Ascii.eqb c "." = false)
        by (apply Ascii.eqb_neq; exact Hc).
      split; [simpl; rewrite Hneq, Hh; reflexivity|].
      destruct Hcase as [(Hr & -> & ->)|(z & -> & ->)].
      * left. rewrite Hr. auto.
      * right. exists z. auto.
Qed.

(** C10. [getZoneAndName] returns, for every query name, a list of
    exactly one pair and never panics. The name has no ['.']; when the
    query name has none either, the name is the whole query name and
    the zone is empty (so the empty query name gives two empty
    strings); otherwise the query name is the name, one ['.'], and the
    zone, in that order: the name is what precedes the first ['.'] and
    the zone is all that follows it. *)
Theorem getZoneAndName_first_dot (qname : string) :
  exists n z,
    getZoneAndName qname = Ok [ {| zone := z; name := n |} ] /\
    no_dot n = true /\
    ((no_dot qname = true /\ n = qname /\ z = EmptyString) \/
     (no_dot qname = false /\ qname = n +:+ "." +:+ z)).
Proof.
  destruct (Split_first qname) as (h & t & Hs & Hh & Hcase).
  unfold getZoneAndName. rewrite Hs.
  destruct Hcase as [(Hq & -> & ->)|(z & -> & ->)].
  - exists qname, EmptyString. split; [reflexivity|].
    split; [exact Hh|]. left. auto.
  - exists h, z. rewrite Join_Split. split; [reflexivity|].
    split; [exact Hh|]. right. split; [|reflexivity].
    clear Hs. induction h as [|c r IH]; simpl in *.
    + reflexivity.
    + apply andb_true_iff in Hh as [Hc Hr]. rewrite Hc. simpl.
      apply IH. exact Hr.
Qed.

End QueryName.

(** * Comparison of objects *)

(** C7. [CompareTo] on two alias objects that differ only in that the
    second lists one more type: the first compared to the second gives
    0 although the two are different, and the second compared to the
    first panics when it reads past the end of the shorter list. So 0
    is returned for objects that are not equal, and the comparison is
    not defined in both directions. *)
Theorem CompareTo_alias_prefix :
  rainslib.CompareTo rainslib.alias_ip4 rainslib.alias_ip4_ip6 = Ok 0 /\
  rainslib.alias_ip4 <> rainslib.alias_ip4_ip6 /\
  rainslib.CompareTo rainslib.alias_ip4_ip6 rainslib.alias_ip4 =
    Panic "index out of range".
Proof.
  split; [reflexivity|]. split; [discriminate|reflexivity].
Qed.

(** * Validity of an updated section *)

Section UpdateValidity.
Import util.





End UpdateValidity.

(** * The engine on the sample data *)

Section Samples.
Import rainslib rainsd.

(** C2. The sample query, which does not ask for token tracing and
    carries the token 7, at clock 1500 on an engine with empty caches
    and an upstream other than the server: one query is forwarded, under
    the minted token 1000 and expiring at 1510, and one waiter is
    recorded under 1000. The token kept in that waiter is 1000, not the
    client's 7; so when the answer arrives under 1000 at clock 1501, the
    message sent to the client is the one encoded with token 1000, not
    the one with the client's token. *)
Theorem forwarded_waiter_keeps_minted_token :
  let s1 :=
    stateOf (query sampleConfig sampleServer sampleDelegate sampleParse
               1500 sampleQuery sampleClient emptyEngine) in
  let s2 :=
    stateOf (assert (vA := sigValidityA) (vS := sigValidityS)
               (vZ := sigValidityZ) sampleConfig alwaysConsistent
               alwaysConsistent alwaysConsistent sampleParse 1501
               {| SWS_Section := SecAssertion sampleAssertion;
                  SWS_Sender := sampleUpstream; SWS_Token := 1000%N |}
               false s1) in
  let answer (tok : Token) :=
    sampleParse {| Msg_Content := [SecAssertion sampleAssertion];
                   Msg_Token := tok |} in
  ContainsOption sampleQuery TokenTracing = false /\
  Q_Token sampleQuery = 7%N /\
  List.filter isSendQuery (trace s1) =
    [EvSendQuery "." "ch" 1510 OTIP4Addr 1000%N sampleUpstream] /\
  pq_table (pendingQueries s1) !! 1000%N =
    Some [ {| connInfo := sampleClient; token := 1000%N;
              validUntil := 1510 |} ] /\
  List.map (fun b => EvSendTo b sampleClient) (option_list (answer 1000%N)) =
    List.filter isSendTo (added (trace s1) (trace s2)) /\
  answer 1000%N <> answer (Q_Token sampleQuery).
Proof.
  cbv zeta. repeat split; try reflexivity. vm_compute. discriminate.
Qed.

(** C8. The zero-object assertion, consistent and within its validity
    at clock 1500: [assert] does not return, it panics with "index out
    of range"; nothing was inserted into either cache before that. *)
Theorem zero_object_assertion_panics :
  match
    assert (vA := sigValidityA) (vS := sigValidityS) (vZ := sigValidityZ)
      sampleConfig alwaysConsistent alwaysConsistent alwaysConsistent
      sampleParse 1500
      {| SWS_Section := SecAssertion emptyAssertion;
         SWS_Sender := sampleUpstream; SWS_Token := 42%N |}
      false waitingEngine
  with
  | Panicked msg s' =>
      msg = "index out of range"%string /\
      assertionsCache s' = [] /\ negAssertionCache s' = [] /\
      List.filter isCacheAdd (trace s') = []
  | Done _ _ => False
  end.
Proof.
  vm_compute. repeat split.
Qed.

(** The future assertion at clock 1500: rejected, the two waiters under
    token 42 are gone and nothing was sent to them. *)
Lemma future_assertion_rejected_sample :
  0 < 1500 /\
  1500 + MaxCacheAssertionValidity sampleConfig
    < ValidFrom (Validity := sigValidityA) futureAssertion /\
  exists s',
    assert (vA := sigValidityA) (vS := sigValidityS) (vZ := sigValidityZ)
      sampleConfig alwaysConsistent alwaysConsistent alwaysConsistent
      sampleParse 1500
      {| SWS_Section := SecAssertion futureAssertion;
         SWS_Sender := sampleUpstream; SWS_Token := 42%N |}
      false waitingEngine = Done tt s' /\
    assertionsCache s' = [] /\
    pq_table (pendingQueries s') !! 42%N = None /\
    Forall (fun e => isCacheAdd e = false /\ isSendTo e = false)
           (added (trace waitingEngine) (trace s')).
Proof.
  assert (H1 : 0 < 1500) by reflexivity.
  assert (H2 : 1500 + MaxCacheAssertionValidity sampleConfig
               < ValidFrom (Validity := sigValidityA) futureAssertion)
    by reflexivity.
  split; [exact H1|]. split; [exact H2|].
  destruct (future_assertion_rejected (vA := sigValidityA)
              (vS := sigValidityS) (vZ := sigValidityZ) sampleConfig
              alwaysConsistent alwaysConsistent alwaysConsistent sampleParse
              1500 futureAssertion false 42%N sampleUpstream waitingEngine
              H1 H2)
    as [_ (s' & Hrun & Hac & _ & Hev & Hpq)].
  exists s'. split; [exact Hrun|]. split; [exact Hac|].
  split; [|exact Hev].
  rewrite Hpq. apply lookup_delete_eq.
Defined.

(** The cached-only query on empty caches at clock 1500. *)
Lemma cached_only_miss_sample :
  let zAn := {| zone := "ch"; name := "ethz" |} in
  ContainsOption cachedOnlyQuery CachedAnswersOnly = true /\
  getZoneAndName (Q_Name cachedOnlyQuery) = Ok [zAn] /\
  snd (fst (ac_Get (assertionsCache emptyEngine) (Q_Context cachedOnlyQuery)
              (zone zAn) (name zAn) (Q_Type cachedOnlyQuery)
              (ContainsOption cachedOnlyQuery ExpiredAssertionsOk))) = false /\
  snd (fst (nc_Get (negAssertionCache emptyEngine)
              (Q_Context cachedOnlyQuery) (zone zAn) (name zAn))) = false /\
  exists s',
    query sampleConfig sampleServer sampleDelegate sampleParse 1500
      cachedOnlyQuery sampleClient emptyEngine = Done tt s' /\
    List.filter (fun e => negb (isSendQuery e || isPendingAdd e))
                (added (trace emptyEngine) (trace s')) =
    added (trace emptyEngine) (trace s') /\
    In (EvSendNotificationMsg 7%N sampleClient NoAssertionAvail) (trace s').
Proof.
  cbv zeta.
  assert (H1 : ContainsOption cachedOnlyQuery CachedAnswersOnly = true)
    by reflexivity.
  assert (H2 : getZoneAndName (Q_Name cachedOnlyQuery)
               = Ok [ {| zone := "ch"; name := "ethz" |} ]) by reflexivity.
  assert (H3 : snd (fst (ac_Get (assertionsCache emptyEngine)
                           (Q_Context cachedOnlyQuery) "ch" "ethz"
                           (Q_Type cachedOnlyQuery)
                           (ContainsOption cachedOnlyQuery ExpiredAssertionsOk)))
               = false) by reflexivity.
  assert (H4 : snd (fst (nc_Get (negAssertionCache emptyEngine)
                           (Q_Context cachedOnlyQuery) "ch" "ethz")) = false)
    by reflexivity.
  split; [exact H1|]. split; [exact H2|].
  split; [exact H3|]. split; [exact H4|].
  destruct (cached_only_miss sampleConfig sampleServer sampleDelegate
              sampleParse 1500 cachedOnlyQuery sampleClient emptyEngine
              {| zone := "ch"; name := "ethz" |} H1 H2 H3 H4)
    as (s' & Hrun & Hadded & _ & _).
  exists s'. split; [exact Hrun|]. rewrite Hadded.
  split; [reflexivity|].
  change (trace s') with (added (trace emptyEngine) (trace s')).
  rewrite Hadded. right. left. reflexivity.
Defined.

(** The sample assertion, whose first object is an IPv4 address and
    whose second is a redirection, at clock 1500. *)
Lemma first_object_decides_sample :
  A_Content sampleAssertion = ip4Object :: [redirObject] /\
  (exists r s1,
     assertAssertion (vA := sigValidityA) sampleConfig 1500 sampleAssertion
       false 42%N waitingEngine = Done r s1 /\
     List.map sa_type (assertionsCache s1) = [OTIP4Addr]) /\
  (exists s2,
     handleAssertion sampleParse 1500 sampleAssertion 42%N waitingEngine
       = Done tt s2 /\
     List.filter isWakeUp (added (trace waitingEngine) (trace s2)) = []).
Proof.
  assert (H1 : A_Content sampleAssertion = ip4Object :: [redirObject])
    by reflexivity.
  split; [exact H1|].
  destruct (first_object_decides (vA := sigValidityA) sampleConfig
              sampleParse 1500 sampleAssertion ip4Object [redirObject]
              false 42%N waitingEngine H1)
    as [(r & s1 & Hrun1 & Hac & _) (s2 & Hrun2 & Hwake & _)].
  split.
  - exists r, s1. split; [exact Hrun1|]. rewrite Hac. reflexivity.
  - exists s2. split; [exact Hrun2|]. rewrite Hwake. reflexivity.
Defined.

End Samples.

(** * More on the comparison of objects *)

Section ObjectOrder.
Import rainslib.

Lemma byte_to_N_inj (x y : Byte.byte) : Byte.to_N x = Byte.to_N y -> x = y.
Proof.
  intros H. assert (Hs : Some x = Some y)
    by (rewrite <- (Byte.of_to_N x), <- (Byte.of_to_N y), H; reflexivity).
  congruence.
Qed.

Lemma bytes_Compare_antisym (a : list Byte.byte) : forall b,
  bytes_Compare a b = - bytes_Compare b a.
Proof.
  induction a as [|x a IH]; intros [|y b]; simpl; try reflexivity.
  rewrite (N.compare_antisym (Byte.to_N x) (Byte.to_N y)).
  destruct (Byte.to_N x ?= Byte.to_N y)%N; simpl; auto.
Qed.

Lemma bytes_Compare_eq (a : list Byte.byte) : forall b,
  bytes_Compare a b = 0 <-> a = b.
Proof.
  induction a as [|x a IH]; intros [|y b]; simpl; split; intros H;
    try reflexivity; try discriminate.
  - destruct (Byte.to_N x ?= Byte.to_N y)%N eqn:E; try discriminate.
    apply N.compare_eq_iff, byte_to_N_inj in E. apply IH in H. congruence.
  - injection H as -> ->. rewrite N.compare_refl. apply IH. reflexivity.
Qed.

Lemma bytes_Compare_range (a : list Byte.byte) : forall b,
  bytes_Compare a b = -1 \/ bytes_Compare a b = 0 \/ bytes_Compare a b = 1.
Proof.
  induction a as [|x a IH]; intros [|y b]; simpl; auto.
  destruct (Byte.to_N x ?= Byte.to_N y)%N; auto.
Qed.

Lemma bytes_Compare_trans (a : list Byte.byte) : forall b c,
  bytes_Compare a b = -1 -> bytes_Compare b c = -1 -> bytes_Compare a c = -1.
Proof.
  induction a as [|x a IH]; intros [|y b] [|z c]; simpl; intros H1 H2;
    try reflexivity; try discriminate.
  destruct (Byte.to_N x ?= Byte.to_N y)%N eqn:E1;
    destruct (Byte.to_N y ?= Byte.to_N z)%N eqn:E2; try discriminate.
  - apply N.compare_eq_iff in E1, E2. rewrite E1, E2, N.compare_refl. eauto.
  - apply N.compare_eq_iff in E1. rewrite E1, E2. reflexivity.
  - apply N.compare_eq_iff in E2. rewrite <- E2, E1. reflexivity.
  - assert (E3 : (Byte.to_N x ?= Byte.to_N z)%N = Lt).
    { apply N.compare_lt_iff. apply N.compare_lt_iff in E1.
      apply N.compare_lt_iff in E2. eapply N.lt_trans; eassumption. }
    rewrite E3. reflexivity.
Qed.

Lemma str_gt_lt (a b : string) : str_gt a b = str_lt b a.
Proof.
  unfold str_gt, str_lt. rewrite (String.compare_antisym a b).
  destruct (String.compare b a); reflexivity.
Qed.

Lemma str_lt_irrefl (a : string) : str_lt a a = false.
Proof.
  unfold str_lt.
  assert (E : String.compare a a = Eq)
    by (apply (proj2 (String_as_OT.cmp_eq a a)); reflexivity).
  rewrite E. reflexivity.
Qed.

Lemma str_eq_of_not_lt (a b : string) :
  str_lt a b = false -> str_lt b a = false -> a = b.
Proof.
  unfold str_lt. rewrite (String.compare_antisym b a).
  destruct (String.compare a b) eqn:E; simpl; try discriminate.
  intros _ _. apply String.compare_eq_iff. exact E.
Qed.

Lemma str_lt_asym (a b : string) : str_lt a b = true -> str_lt b a = false.
Proof.
  unfold str_lt. rewrite (String.compare_antisym b a).
  destruct (String.compare a b); simpl; try discriminate. reflexivity.
Qed.

Lemma str_lt_trans (a b c : string) :
  str_lt a b = true -> str_lt b c = true -> str_lt a c = true.
Proof.
  unfold str_lt. intros H1 H2.
  destruct (String.compare a b) eqn:E1; try discriminate.
  destruct (String.compare b c) eqn:E2; try discriminate.
  apply String_as_OT.cmp_lt in E1, E2.
  assert (E3 := String_as_OT.lt_trans _ _ _ E1 E2).
  apply String_as_OT.cmp_lt in E3. unfold String_as_OT.cmp in E3.
  rewrite E3. reflexivity.
Qed.

Ltac cmp_cases :=
  repeat match goal with
  | |- context [?x <? ?y] => destruct (Z.ltb_spec x y)
  | |- context [?x >? ?y] => destruct (Z.gtb_spec x y)
  | H : context [?x <? ?y] |- _ => destruct (Z.ltb_spec x y)
  | H : context [?x >? ?y] |- _ => destruct (Z.gtb_spec x y)
  end.

(** X9: [CertificateObject.CompareTo] is a total order on certificate
    objects: swapping the arguments negates the result, the result is 0
    exactly when the two certificates are equal (type, usage, hash
    algorithm and data bytes), and "smaller than" is transitive. *)
Theorem CertificateObject_CompareTo_order (c d e : CertificateObject) :
  CertificateObject_CompareTo c d = - CertificateObject_CompareTo d c /\
  (CertificateObject_CompareTo c d = 0 <-> c = d) /\
  (CertificateObject_CompareTo c d = -1 ->
   CertificateObject_CompareTo d e = -1 ->
   CertificateObject_CompareTo c e = -1).
Proof.
  split; [|split].
  - unfold CertificateObject_CompareTo. cmp_cases; try lia.
    apply bytes_Compare_antisym.
  - split.
    + unfold CertificateObject_CompareTo. cmp_cases; try discriminate.
      intros Hbytes. apply bytes_Compare_eq in Hbytes.
      destruct c, d; simpl in *. f_equal; try lia. exact Hbytes.
    + intros <-. unfold CertificateObject_CompareTo. cmp_cases; try lia.
      apply bytes_Compare_eq. reflexivity.
  - unfold CertificateObject_CompareTo. intros Hcd Hde.
    cmp_cases; try lia; try discriminate.
    eapply bytes_Compare_trans; eassumption.
Qed.

(** X10: [ServiceInfo.CompareTo] is a total order on service
    information: swapping the arguments negates the result, the result
    is 0 exactly when name, port and priority are equal, and "smaller
    than" is transitive. *)
Theorem ServiceInfo_CompareTo_order (s t u : ServiceInfo) :
  ServiceInfo_CompareTo s t = - ServiceInfo_CompareTo t s /\
  (ServiceInfo_CompareTo s t = 0 <-> s = t) /\
  (ServiceInfo_CompareTo s t = -1 ->
   ServiceInfo_CompareTo t u = -1 ->
   ServiceInfo_CompareTo s u = -1).
Proof.
  split; [|split].
  - unfold ServiceInfo_CompareTo. rewrite !str_gt_lt.
    destruct (str_lt (SI_Name s) (SI_Name t)) eqn:E1;
      destruct (str_lt (SI_Name t) (SI_Name s)) eqn:E2; try reflexivity.
    + apply str_lt_asym in E1. congruence.
    + cmp_cases; lia.
  - split.
    + unfold ServiceInfo_CompareTo. rewrite !str_gt_lt.
      destruct (str_lt (SI_Name s) (SI_Name t)) eqn:E1; [discriminate|].
      destruct (str_lt (SI_Name t) (SI_Name s)) eqn:E2; [discriminate|].
      assert (Hname := str_eq_of_not_lt _ _ E1 E2).
      cmp_cases; try discriminate. intros _.
      destruct s, t; simpl in *. f_equal; try lia. exact Hname.
    + intros <-. unfold ServiceInfo_CompareTo.
      rewrite str_gt_lt, str_lt_irrefl. cmp_cases; lia.
  - unfold ServiceInfo_CompareTo. rewrite !str_gt_lt. intros Hst Htu.
    destruct (str_lt (SI_Name s) (SI_Name t)) eqn:E1.
    + destruct (str_lt (SI_Name t) (SI_Name u)) eqn:E2.
      * rewrite (str_lt_trans _ _ _ E1 E2). reflexivity.
      * destruct (str_lt (SI_Name u) (SI_Name t)) eqn:E3; [discriminate|].
        rewrite <- (str_eq_of_not_lt _ _ E2 E3), E1. reflexivity.
    + destruct (str_lt (SI_Name t) (SI_Name s)) eqn:E2; [discriminate|].
      rewrite (str_eq_of_not_lt _ _ E1 E2) in *.
      destruct (str_lt (SI_Name t) (SI_Name u)); [reflexivity|].
      destruct (str_lt (SI_Name u) (SI_Name t)); [discriminate|].
      cmp_cases; try lia; try discriminate.
Qed.

(** X11: [PublicKey.CompareTo] is antisymmetric and transitive, but
    0 does not mean equal: it is returned exactly when type, key space
    and both validity bounds agree and, if both keys are ed25519 keys,
    their bytes agree. A key of any other type is never looked at. *)
Theorem PublicKey_CompareTo_order (p q r : PublicKey) :
  PublicKey_CompareTo p q = - PublicKey_CompareTo q p /\
  (PublicKey_CompareTo p q = 0 <->
   PK_Type p = PK_Type q /\ PK_KeySpace p = PK_KeySpace q /\
   PK_ValidSince p = PK_ValidSince q /\ PK_ValidUntil p = PK_ValidUntil q /\
   sameKeyData p q) /\
  (PublicKey_CompareTo p q = -1 ->
   PublicKey_CompareTo q r = -1 ->
   PublicKey_CompareTo p r = -1).
Proof.
  split; [|split].
  - unfold PublicKey_CompareTo. cmp_cases; try lia.
    destruct (PK_Key p), (PK_Key q); try reflexivity.
    apply bytes_Compare_antisym.
  - unfold PublicKey_CompareTo, sameKeyData. split.
    + cmp_cases; try discriminate. intros Hk.
      repeat (split; [lia|]).
      destruct (PK_Key p), (PK_Key q); try exact I.
      apply bytes_Compare_eq. exact Hk.
    + intros (H1 & H2 & H3 & H4 & Hk). cmp_cases; try lia.
      destruct (PK_Key p), (PK_Key q); try reflexivity.
      apply bytes_Compare_eq. exact Hk.
  - unfold PublicKey_CompareTo. intros Hpq Hqr.
    cmp_cases; try lia; try discriminate.
    destruct (PK_Key p), (PK_Key q), (PK_Key r); try discriminate.
    eapply bytes_Compare_trans; eassumption.
Qed.

Lemma compareTypes_panic (ts : list ObjectType) : forall us msg,
  NameObject_compareTypes ts us = Panic msg <->
  msg = "index out of range"%string /\ exists t rest, ts = us ++ t :: rest.
Proof.
  induction ts as [|t ts IH]; intros us msg; simpl.
  - split; [discriminate|]. intros (_ & t & rest & H).
    destruct us; discriminate.
  - destruct us as [|u us].
    + split.
      * intros [= <-]. split; [reflexivity|]. exists t, ts. reflexivity.
      * intros (-> & _). reflexivity.
    + destruct (Z.ltb_spec t u).
      { split; [discriminate|]. intros (_ & t' & rest & [= -> _]). lia. }
      destruct (Z.gtb_spec t u).
      { split; [discriminate|]. intros (_ & t' & rest & [= -> _]). lia. }
      rewrite IH. split.
      * intros (-> & t' & rest & ->). split; [reflexivity|].
        exists t', rest. simpl. f_equal. lia.
      * intros (-> & t' & rest & [= _ ->]). split; [reflexivity|].
        exists t', rest. reflexivity.
Qed.

Lemma compareTypes_zero (ts : list ObjectType) : forall us,
  NameObject_compareTypes ts us = Ok 0 <-> exists k, us = ts ++ k.
Proof.
  induction ts as [|t ts IH]; intros us; simpl.
  - split; [|reflexivity]. intros _. exists us. reflexivity.
  - destruct us as [|u us].
    + split; [discriminate|]. intros (k & H). discriminate.
    + destruct (Z.ltb_spec t u).
      { split; [discriminate|]. intros (k & [= -> _]). lia. }
      destruct (Z.gtb_spec t u).
      { split; [discriminate|]. intros (k & [= -> _]). lia. }
      rewrite IH. split.
      * intros (k & ->). exists k. simpl. f_equal. lia.
      * intros (k & [= _ ->]). exists k. reflexivity.
Qed.

Lemma compareTypes_same_length (ts : list ObjectType) : forall us,
  length ts = length us ->
  exists r, NameObject_compareTypes ts us = Ok r /\
            NameObject_compareTypes us ts = Ok (- r) /\
            (r = 0 <-> ts = us).
Proof.
  induction ts as [|t ts IH]; intros [|u us] Hlen; simpl in *;
    try discriminate.
  - exists 0. repeat split; intros; reflexivity.
  - injection Hlen as Hlen.
    destruct (Z.ltb_spec t u); destruct (Z.gtb_spec t u); try lia;
      destruct (Z.ltb_spec u t); destruct (Z.gtb_spec u t); try lia.
    + exists (-1). split; [reflexivity|]. split; [reflexivity|].
      split; [discriminate|]. intros [= -> _]. lia.
    + exists 1. split; [reflexivity|]. split; [reflexivity|].
      split; [discriminate|]. intros [= -> _]. lia.
    + destruct (IH us Hlen) as (r & Hr1 & Hr2 & Hr3).
      exists r. split; [exact Hr1|]. split; [exact Hr2|].
      rewrite Hr3. split; [intros ->; f_equal; lia|intros [= _ ->]; reflexivity].
Qed.

(** X12: [NameObject.CompareTo] panics exactly when the names are
    equal and the types of the argument are a proper prefix of the types
    of the receiver; it returns 0 exactly when the names are equal and
    the types of the receiver are a prefix of the types of the
    argument. *)
Theorem NameObject_CompareTo_prefix (n m : NameObject) :
  ((exists msg, NameObject_CompareTo n m = Panic msg) <->
   Name n = Name m /\ exists t rest, Types n = Types m ++ t :: rest) /\
  (NameObject_CompareTo n m = Ok 0 <->
   Name n = Name m /\ exists k, Types m = Types n ++ k).
Proof.
  unfold NameObject_CompareTo. rewrite str_gt_lt.
  destruct (str_lt (Name n) (Name m)) eqn:E1.
  { split; (split; [intros H; first [discriminate H|destruct H as [? H]; discriminate H]|]);
      intros (Hname & _); rewrite Hname, str_lt_irrefl in E1; discriminate. }
  destruct (str_lt (Name m) (Name n)) eqn:E2.
  { split; (split; [intros H; first [discriminate H|destruct H as [? H]; discriminate H]|]);
      intros (Hname & _); rewrite Hname, str_lt_irrefl in E2; discriminate. }
  assert (Hname := str_eq_of_not_lt _ _ E1 E2). split.
  - split.
    + intros (msg & H). apply compareTypes_panic in H as (_ & H). auto.
    + intros (_ & H). exists "index out of range"%string.
      apply compareTypes_panic. auto.
  - rewrite compareTypes_zero. tauto.
Qed.

(** X13: on two name objects with as many types each,
    [NameObject.CompareTo] returns, swapping the arguments negates the
    result, and the result is 0 exactly when the two are equal. *)
Theorem NameObject_CompareTo_same_length (n m : NameObject) :
  length (Types n) = length (Types m) ->
  exists r, NameObject_CompareTo n m = Ok r /\
            NameObject_CompareTo m n = Ok (- r) /\
            (r = 0 <-> n = m).
Proof.
  intros Hlen. unfold NameObject_CompareTo. rewrite !str_gt_lt.
  destruct (str_lt (Name n) (Name m)) eqn:E1;
    destruct (str_lt (Name m) (Name n)) eqn:E2.
  - apply str_lt_asym in E1. congruence.
  - exists (-1). split; [reflexivity|]. split; [reflexivity|].
    split; [discriminate|]. intros ->. rewrite str_lt_irrefl in E1.
    discriminate.
  - exists 1. split; [reflexivity|]. split; [reflexivity|].
    split; [discriminate|]. intros ->. rewrite str_lt_irrefl in E2.
    discriminate.
  - destruct (compareTypes_same_length _ _ Hlen) as (r & Hr1 & Hr2 & Hr3).
    exists r. split; [exact Hr1|]. split; [exact Hr2|]. rewrite Hr3.
    assert (Hname := str_eq_of_not_lt _ _ E1 E2).
    destruct n, m; simpl in *. split; [intros ->; f_equal; exact Hname|].
    intros [= _ ->]. reflexivity.
Qed.

Lemma PublicKey_CompareTo_refl (p : PublicKey) : PublicKey_CompareTo p p = 0.
Proof.
  unfold PublicKey_CompareTo. cmp_cases; try lia.
  destruct (PK_Key p); [|reflexivity]. apply bytes_Compare_eq. reflexivity.
Qed.

Lemma CertificateObject_CompareTo_refl (c : CertificateObject) :
  CertificateObject_CompareTo c c = 0.
Proof.
  unfold CertificateObject_CompareTo. cmp_cases; try lia.
  apply bytes_Compare_eq. reflexivity.
Qed.

Lemma ServiceInfo_CompareTo_refl (s : ServiceInfo) :
  ServiceInfo_CompareTo s s = 0.
Proof.
  unfold ServiceInfo_CompareTo. rewrite str_gt_lt, str_lt_irrefl.
  cmp_cases; lia.
Qed.

(** X14: every object compares equal to itself: [Object.CompareTo]
    returns 0 on an object and itself without panic, whatever its type
    and payload. *)
Theorem CompareTo_reflexive (o : Object) : CompareTo o o = Ok 0.
Proof.
  unfold CompareTo. rewrite Z.ltb_irrefl.
  replace (Type_ o >? Type_ o) with false
    by (symmetry; rewrite Z.gtb_ltb; apply Z.ltb_irrefl).
  destruct (Value o) as [n|v|p|v|c|s|].
  - unfold NameObject_CompareTo. rewrite str_gt_lt, str_lt_irrefl.
    apply compareTypes_zero. exists []. rewrite app_nil_r. reflexivity.
  - rewrite str_gt_lt, str_lt_irrefl. reflexivity.
  - rewrite PublicKey_CompareTo_refl. reflexivity.
  - rewrite str_gt_lt, str_lt_irrefl. reflexivity.
  - rewrite CertificateObject_CompareTo_refl. reflexivity.
  - rewrite ServiceInfo_CompareTo_refl. reflexivity.
  - reflexivity.
Qed.

(** X15: on objects whose payload is a string, [Object.CompareTo]
    is a total order by type first and payload second: it returns -1, 0
    or 1, swapping the arguments negates the result, the result is 0
    exactly for equal objects, and "smaller than" is transitive. *)
Theorem CompareTo_strings (o p q : Object) :
  stringValued o = true -> stringValued p = true -> stringValued q = true ->
  exists r,
    CompareTo o p = Ok r /\ CompareTo p o = Ok (- r) /\
    (r = -1 \/ r = 0 \/ r = 1) /\
    (r = 0 <-> o = p) /\
    (r = -1 -> CompareTo p q = Ok (-1) -> CompareTo o q = Ok (-1)).
Proof.
  unfold stringValued, CompareTo.
  destruct o as [to [| vo | | | | |]]; simpl; try discriminate.
  destruct p as [tp [| vp | | | | |]]; simpl; try discriminate.
  destruct q as [tq [| vq | | | | |]]; simpl; try discriminate.
  intros _ _ _. rewrite !str_gt_lt.
  destruct (Z.ltb_spec to tp); destruct (Z.gtb_spec to tp); try lia;
    destruct (Z.ltb_spec tp to); destruct (Z.gtb_spec tp to); try lia.
  - exists (-1). repeat split; auto; try discriminate; try (intros [= -> _]; lia).
    intros _. destruct (Z.ltb_spec tp tq); destruct (Z.gtb_spec tp tq);
      try lia; destruct (Z.ltb_spec to tq); try lia; try reflexivity.
    destruct (str_lt vp vq); [|destruct (str_lt vq vp)]; discriminate.
  - exists 1. repeat split; auto; try discriminate; try (intros [= -> _]; lia).
  - assert (to = tp) as -> by lia.
    destruct (str_lt vo vp) eqn:E1; destruct (str_lt vp vo) eqn:E2.
    + apply str_lt_asym in E1. congruence.
    + exists (-1). repeat split; auto; try discriminate.
      * intros [= ->]. rewrite str_lt_irrefl in E1. discriminate.
      * intros _. destruct (Z.ltb_spec tp tq); [reflexivity|].
        destruct (Z.gtb_spec tp tq); [discriminate|].
        destruct (str_lt vp vq) eqn:E3.
        -- rewrite (str_lt_trans _ _ _ E1 E3). reflexivity.
        -- destruct (str_lt vq vp); discriminate.
    + exists 1. repeat split; auto; try discriminate.
      intros [= ->]. rewrite str_lt_irrefl in E2. discriminate.
    + exists 0. repeat split; auto; try discriminate.
      intros _. f_equal. f_equal. apply str_eq_of_not_lt; assumption.
Qed.

(** [Object.Sort] keeps the type and every payload but the types of a
    name object, which it puts in ascending order; sorting twice gives
    nothing new. *)
Lemma Sort_sorts (o : Object) :
  Type_ (fst (Sort o)) = Type_ o /\
  match Value o, Value (fst (Sort o)) with
  | VNameObject name, VNameObject name' =>
      Name name' = Name name /\
      Sorted Z.le (Types name') /\
      Permutation (Types name') (Types name)
  | v, v' => v' = v
  end /\
  fst (Sort (fst (Sort o))) = fst (Sort o).
Proof.
  split; [reflexivity|]. split.
  - unfold Sort. simpl. destruct (Value o); try reflexivity.
    split; [reflexivity|]. simpl. unfold sortTypes.
    split; [apply Sorted_merge_sort; apply _|apply merge_sort_Permutation].
  - unfold Sort. simpl. f_equal. destruct (Value o); try reflexivity.
    simpl. f_equal. f_equal. unfold sortTypes.
    apply (Sorted_unique Z.le).
    + apply Sorted_merge_sort; apply _.
    + apply Sorted_merge_sort; apply _.
    + apply merge_sort_Permutation.
Qed.

(** X16: two name objects of the same type and name whose types
    are the same up to order compare equal once both are sorted:
    [Object.CompareTo] returns 0, and does not panic, on the two results
    of [Object.Sort]. *)
Theorem Sort_then_CompareTo (t : ObjectType) (name : string)
    (ts us : list ObjectType) :
  Permutation ts us ->
  CompareTo
    (fst (Sort {| Type_ := t;
                  Value := VNameObject {| Name := name; Types := ts |} |}))
    (fst (Sort {| Type_ := t;
                  Value := VNameObject {| Name := name; Types := us |} |}))
  = Ok 0.
Proof.
  intros Hperm.
  assert (Hsame : sortTypes ts = sortTypes us).
  { unfold sortTypes. apply (Sorted_unique Z.le).
    - apply Sorted_merge_sort; apply _.
    - apply Sorted_merge_sort; apply _.
    - rewrite !merge_sort_Permutation. exact Hperm. }
  unfold Sort, CompareTo, NameObject_CompareTo. simpl. rewrite Hsame.
  rewrite Z.ltb_irrefl, Z.gtb_ltb, Z.ltb_irrefl, str_gt_lt, str_lt_irrefl.
  apply compareTypes_zero. exists []. rewrite app_nil_r. reflexivity.
Qed.
End ObjectOrder.

(** * The zone-file parser of rainspub *)

Section ZoneFile.

Import rainslib rainsd rainsd.rainspub.

Lemma enoughTurns_Scan f sc : enoughTurns f sc -> enoughTurns f (Scan sc).
Proof.
  unfold enoughTurns, Scan.
  destruct sc as [t [|w r]]; simpl; intros [(? & Hu & ?)|?];
    try discriminate Hu.
  - left. auto.
  - left. repeat split; auto. lia.
  - right. lia.
Qed.

Lemma enoughTurns_step f sc :
  enoughTurns (S f) sc -> Text sc <> EmptyString -> enoughTurns f (Scan sc).
Proof.
  unfold enoughTurns, Scan.
  destruct sc as [t [|w r]]; simpl; intros [(Ht & Hu & ?)|?] Hne;
    try contradiction.
  - left. repeat split; auto. lia.
  - right. lia.
Qed.

Lemma enoughTurns_turnsFor sc : enoughTurns (turnsFor sc) sc.
Proof. right. unfold turnsFor. lia. Qed.

Lemma enoughTurns_S f sc : enoughTurns (S f) sc -> (1 <= S f)%nat.
Proof. intros _. lia. Qed.

Lemma simpleObjectType_nonempty w t :
  simpleObjectType w = Some t -> w <> EmptyString.
Proof. intros H ->. discriminate H. Qed.

Lemma keyObjectTag_nonempty w : keyObjectTag w = true -> w <> EmptyString.
Proof. intros H ->. discriminate H. Qed.

Lemma eqb_nonempty w (c : ascii) (r : string) :
  String.eqb w (String c r) = true -> w <> EmptyString.
Proof. intros H ->. discriminate H. Qed.

Lemma simpleObjectType_notKey w t :
  simpleObjectType w = Some t -> keyObjectType t = false.
Proof.
  unfold simpleObjectType.
  repeat match goal with
         | |- context [if ?b then _ else _] => destruct b
         end; intros H; inversion H; reflexivity.
Qed.

Lemma getCertObject_scans sc cert sc' :
  getCertObject sc = inr (cert, sc') -> sc' = Scan (Scan (Scan (Scan sc))).
Proof.
  unfold getCertObject.
  destruct (getCertPT _); [discriminate|].
  destruct (getCertUsage _); [discriminate|].
  destruct (getCertHashType _); [discriminate|].
  intros H. inversion H. reflexivity.
Qed.

(** One turn of the loop of [parseAssertion], by cases. *)
Ltac objects_turn :=
  cbn [parseObjects];
  destruct (String.eqb (Text _) "]") eqn:Hclose;
  [| destruct (simpleObjectType (Text _)) as [t|] eqn:Hsimple;
     [| destruct (keyObjectTag (Text _)) eqn:Hkey;
        [| destruct (String.eqb (Text _) ":cert:") eqn:Hcert;
           [| destruct (String.eqb (Text _) ":srv:") eqn:Hsrv ]]]].

Lemma parseObjects_total fuel : forall sc objects,
  enoughTurns fuel sc -> exists r, parseObjects fuel sc objects = Some r.
Proof.
  induction fuel as [|fuel IH]; intros sc objects Hen.
  - destruct Hen as [(_ & _ & H)|H]; lia.
  - objects_turn.
    + eauto.
    + apply IH. apply enoughTurns_Scan, enoughTurns_step; auto.
      eapply simpleObjectType_nonempty; eauto.
    + apply IH. apply enoughTurns_step; auto.
      apply keyObjectTag_nonempty; auto.
    + destruct (getCertObject sc) as [err|[cert sc']] eqn:Hc; [eauto|].
      apply getCertObject_scans in Hc. subst sc'.
      apply IH. do 4 apply enoughTurns_Scan. apply enoughTurns_step; auto.
      eapply eqb_nonempty; eauto.
    + destruct (Atoi _); [|eauto]. destruct (Atoi _); [|eauto].
      apply IH. do 3 apply enoughTurns_Scan. apply enoughTurns_step; auto.
      eapply eqb_nonempty; eauto.
    + eauto.
Qed.

Lemma parseObjects_result fuel : forall sc objects objects' sc',
  parseObjects fuel sc objects = Some (inr (objects', sc')) ->
  Text sc' = "]" /\
  (forall f, enoughTurns f sc -> enoughTurns f sc') /\
  (Forall (fun o => keyObjectType (Type_ o) = false) objects ->
   Forall (fun o => keyObjectType (Type_ o) = false) objects').
Proof.
  induction fuel as [|fuel IH]; intros sc objects objects' sc'.
  - discriminate.
  - objects_turn; intros H.
    + inversion H; subst. split; [|auto].
      apply String.eqb_eq. exact Hclose.
    + apply IH in H. destruct H as (Ht & Hf & Hk). split; [exact Ht|]. split.
      * intros f Hen. apply Hf. do 2 apply enoughTurns_Scan. exact Hen.
      * intros Ho. apply Hk. apply Forall_app. split; [exact Ho|].
        constructor; [|constructor]. simpl.
        eapply simpleObjectType_notKey; eauto.
    + apply IH in H. destruct H as (Ht & Hf & Hk). split; [exact Ht|]. split.
      * intros f Hen. apply Hf. apply enoughTurns_Scan. exact Hen.
      * exact Hk.
    + destruct (getCertObject sc) as [err|[cert sc1]] eqn:Hc;
        [discriminate|].
      apply getCertObject_scans in Hc. subst sc1.
      apply IH in H. destruct H as (Ht & Hf & Hk). split; [exact Ht|]. split.
      * intros f Hen. apply Hf. do 5 apply enoughTurns_Scan. exact Hen.
      * intros Ho. apply Hk. apply Forall_app. split; [exact Ho|].
        constructor; [|constructor]. reflexivity.
    + destruct (Atoi _); [|discriminate]. destruct (Atoi _); [|discriminate].
      apply IH in H. destruct H as (Ht & Hf & Hk). split; [exact Ht|]. split.
      * intros f Hen. apply Hf. do 4 apply enoughTurns_Scan. exact Hen.
      * intros Ho. apply Hk. apply Forall_app. split; [exact Ho|].
        constructor; [|constructor]. reflexivity.
    + discriminate.
Qed.

Lemma parseAssertion_total context zone sc :
  exists r, parseAssertion context zone sc = Some r.
Proof.
  unfold parseAssertion.
  destruct (parseObjects_total _ (Scan (Scan (Scan sc))) []
              (enoughTurns_turnsFor _)) as [r ->].
  destruct r as [err|[objects sc']]; eauto.
Qed.

Lemma parseAssertion_result context zone sc a sc' :
  parseAssertion context zone sc = Some (inr (a, sc')) ->
  Text sc' = "]" /\
  (forall f, enoughTurns f sc -> enoughTurns f sc') /\
  fromHeader context zone a.
Proof.
  unfold parseAssertion.
  destruct (parseObjects _ _ _) as [[err|[objects sc1]]|] eqn:Hp;
    try discriminate.
  intros H. inversion H; subst.
  apply parseObjects_result in Hp. destruct Hp as (Ht & Hf & Hk).
  split; [exact Ht|]. split.
  - intros f Hen. apply Hf. do 3 apply enoughTurns_Scan. exact Hen.
  - repeat split. cbn. apply Hk. constructor.
Qed.

Lemma parseShardLoop_total fuel context zone : forall sc assertions,
  enoughTurns fuel sc ->
  exists r, parseShardLoop fuel context zone sc assertions = Some r.
Proof.
  induction fuel as [|fuel IH]; intros sc assertions Hen.
  - destruct Hen as [(_ & _ & H)|H]; lia.
  - cbn [parseShardLoop].
    destruct (String.eqb (Text sc) "]"); [eauto|].
    destruct (String.eqb (Text sc) ":A:") eqn:HA; [|simpl; eauto]. simpl.
    destruct (parseAssertion_total context zone sc) as [r Hr]. rewrite Hr.
    destruct r as [err|[a sc']]; [eauto|].
    apply parseAssertion_result in Hr. destruct Hr as (Ht & Hf & _).
    apply IH. apply enoughTurns_step.
    + apply Hf. exact Hen.
    + rewrite Ht. discriminate.
Qed.

Lemma parseShardLoop_result fuel context zone : forall sc assertions r sc',
  parseShardLoop fuel context zone sc assertions = Some (inr (r, sc')) ->
  Text sc' = "]" /\
  (forall f, enoughTurns f sc -> enoughTurns f sc') /\
  (Forall (fromHeader context zone) assertions ->
   Forall (fromHeader context zone) r).
Proof.
  induction fuel as [|fuel IH]; intros sc assertions r sc'.
  - discriminate.
  - cbn [parseShardLoop].
    destruct (String.eqb (Text sc) "]") eqn:Hclose.
    { intros H. inversion H; subst. split; [|auto].
      apply String.eqb_eq. exact Hclose. }
    destruct (String.eqb (Text sc) ":A:") eqn:HA; [|discriminate]. simpl.
    destruct (parseAssertion context zone sc) as [[err|[a sc1]]|] eqn:Hp;
      try discriminate.
    intros H. apply IH in H. destruct H as (Ht & Hf & Hk).
    apply parseAssertion_result in Hp. destruct Hp as (_ & Hf1 & Ha).
    split; [exact Ht|]. split.
    + intros f Hen. apply Hf. apply enoughTurns_Scan. apply Hf1. exact Hen.
    + intros Hall. apply Hk. apply Forall_app. split; [exact Hall|].
      constructor; [exact Ha|constructor].
Qed.

Lemma parseShard_total context zone sc :
  exists r, parseShard context zone sc = Some r.
Proof.
  unfold parseShard. apply parseShardLoop_total. apply enoughTurns_turnsFor.
Qed.

Lemma parseShard_result context zone sc r sc' :
  parseShard context zone sc = Some (inr (r, sc')) ->
  Text sc' = "]" /\
  (forall f, enoughTurns f sc -> enoughTurns f sc') /\
  Forall (fromHeader context zone) r.
Proof.
  unfold parseShard. intros H. apply parseShardLoop_result in H.
  destruct H as (Ht & Hf & Hk). split; [exact Ht|]. split.
  - intros f Hen. apply Hf. do 2 apply enoughTurns_Scan. exact Hen.
  - apply Hk. constructor.
Qed.

Lemma parseZoneLoop_total fuel context zone : forall sc assertions,
  enoughTurns fuel sc ->
  exists r, parseZoneLoop fuel context zone sc assertions = Some r.
Proof.
  induction fuel as [|fuel IH]; intros sc assertions Hen.
  - destruct Hen as [(_ & _ & H)|H]; lia.
  - cbn [parseZoneLoop].
    destruct (String.eqb (Text sc) "]"); [eauto|].
    destruct (String.eqb (Text sc) ":A:") eqn:HA.
    { destruct (parseAssertion_total context zone sc) as [r Hr]. rewrite Hr.
      destruct r as [err|[a sc']]; [eauto|].
      apply parseAssertion_result in Hr. destruct Hr as (Ht & Hf & _).
      apply IH. apply enoughTurns_step.
      + apply Hf. exact Hen.
      + rewrite Ht. discriminate. }
    destruct (String.eqb (Text sc) ":S:") eqn:HS; [|eauto].
    destruct (parseShard_total context zone sc) as [r Hr]. rewrite Hr.
    destruct r as [err|[a sc']]; [eauto|].
    apply parseShard_result in Hr. destruct Hr as (Ht & Hf & _).
    apply IH. apply enoughTurns_step.
    + apply Hf. exact Hen.
    + rewrite Ht. discriminate.
Qed.

Lemma parseZoneLoop_result fuel context zone : forall sc assertions r,
  parseZoneLoop fuel context zone sc assertions = Some (inr r) ->
  Forall (fromHeader context zone) assertions ->
  Forall (fromHeader context zone) r.
Proof.
  induction fuel as [|fuel IH]; intros sc assertions r.
  - discriminate.
  - cbn [parseZoneLoop].
    destruct (String.eqb (Text sc) "]").
    { intros H. inversion H; subst. auto. }
    destruct (String.eqb (Text sc) ":A:").
    { destruct (parseAssertion context zone sc) as [[err|[a sc1]]|] eqn:Hp;
        try discriminate.
      intros H Hall. apply IH in H; [exact H|].
      apply parseAssertion_result in Hp. destruct Hp as (_ & _ & Ha).
      apply Forall_app. split; [exact Hall|]. constructor; [exact Ha|constructor]. }
    destruct (String.eqb (Text sc) ":S:"); [|discriminate].
    destruct (parseShard context zone sc) as [[err|[a sc1]]|] eqn:Hp;
      try discriminate.
    intros H Hall. apply IH in H; [exact H|].
    apply parseShard_result in Hp. destruct Hp as (_ & _ & Ha).
    apply Forall_app. split; [exact Hall|exact Ha].
Qed.

Lemma Text_newScanner_1 words :
  Text (Scan (Scan (newScanner words))) = nth 1 words EmptyString.
Proof. destruct words as [|w0 [|w1 r]]; reflexivity. Qed.

Lemma Text_newScanner_2 words :
  Text (Scan (Scan (Scan (newScanner words)))) = nth 2 words EmptyString.
Proof. destruct words as [|w0 [|w1 [|w2 r]]]; reflexivity. Qed.

(** X17: [parseZoneFile] returns on every input: none of the loops of
    [parseZoneFile], [parseShard] and [parseAssertion] runs for more
    turns than the file has words left, plus two. *)
Theorem parseZoneFile_returns (words : list string) :
  exists r, snd (parseZoneFile words) = Some r.
Proof.
  unfold parseZoneFile. cbn [snd].
  apply parseZoneLoop_total. apply enoughTurns_turnsFor.
Qed.

(** X18: every assertion [parseZoneFile] returns carries the context and
    the zone of the file's header (its second and third word), has no
    signature, and holds no delegation, infrastructure-key, external-key
    or next-key object, whatever the file says. *)
Theorem parseZoneFile_assertions (words : list string) (warned : bool)
    (assertions : list AssertionSection) :
  parseZoneFile words = (warned, Some (inr assertions)) ->
  Forall (fromHeader (nth 1 words EmptyString) (nth 2 words EmptyString))
         assertions.
Proof.
  intros H. apply (f_equal snd) in H.
  rewrite <- Text_newScanner_1, <- Text_newScanner_2.
  eapply parseZoneLoop_result; [exact H|constructor].
Qed.

Lemma closing_Scan sc :
  In "]" (Text (Scan sc) :: unread (Scan sc)) ->
  In "]" (Text sc :: unread sc).
Proof.
  unfold Scan. destruct sc as [t [|w r]]; simpl.
  - intros [H|[]]. discriminate H.
  - auto.
Qed.

Lemma parseObjects_closing fuel : forall sc objects r,
  parseObjects fuel sc objects = Some (inr r) ->
  In "]" (Text sc :: unread sc).
Proof.
  induction fuel as [|fuel IH]; intros sc objects r.
  - discriminate.
  - objects_turn; intros H.
    + left. apply String.eqb_eq. exact Hclose.
    + apply IH in H. do 2 apply closing_Scan in H. exact H.
    + apply IH in H. apply closing_Scan in H. exact H.
    + destruct (getCertObject sc) as [err|[cert sc1]] eqn:Hc;
        [discriminate|].
      apply getCertObject_scans in Hc. subst sc1.
      apply IH in H. do 5 apply closing_Scan in H. exact H.
    + destruct (Atoi _); [|discriminate]. destruct (Atoi _); [|discriminate].
      apply IH in H. do 4 apply closing_Scan in H. exact H.
    + discriminate.
Qed.

Lemma parseAssertion_closing context zone sc r :
  parseAssertion context zone sc = Some (inr r) ->
  In "]" (Text sc :: unread sc).
Proof.
  unfold parseAssertion.
  destruct (parseObjects _ _ _) as [[err|[objects sc1]]|] eqn:Hp;
    try discriminate.
  intros _. apply parseObjects_closing in Hp.
  do 3 apply closing_Scan in Hp. exact Hp.
Qed.

Lemma parseShardLoop_closing fuel context zone sc assertions r :
  parseShardLoop fuel context zone sc assertions = Some (inr r) ->
  In "]" (Text sc :: unread sc).
Proof.
  destruct fuel as [|fuel]; [discriminate|]. cbn [parseShardLoop].
  destruct (String.eqb (Text sc) "]") eqn:Hclose.
  { intros _. left. apply String.eqb_eq. exact Hclose. }
  destruct (negb _); [discriminate|].
  destruct (parseAssertion context zone sc) as [[err|[a sc1]]|] eqn:Hp;
    try discriminate.
  intros _. eapply parseAssertion_closing; eauto.
Qed.

Lemma parseZoneLoop_closing fuel context zone sc assertions r :
  parseZoneLoop fuel context zone sc assertions = Some (inr r) ->
  In "]" (Text sc :: unread sc).
Proof.
  destruct fuel as [|fuel]; [discriminate|]. cbn [parseZoneLoop].
  destruct (String.eqb (Text sc) "]") eqn:Hclose.
  { intros _. left. apply String.eqb_eq. exact Hclose. }
  destruct (String.eqb (Text sc) ":A:").
  { destruct (parseAssertion context zone sc) as [[err|[a sc1]]|] eqn:Hp;
      try discriminate.
    intros _. eapply parseAssertion_closing; eauto. }
  destruct (String.eqb (Text sc) ":S:"); [|discriminate].
  destruct (parseShard context zone sc) as [[err|[a sc1]]|] eqn:Hp;
    try discriminate.
  intros _. unfold parseShard in Hp. apply parseShardLoop_closing in Hp.
  do 2 apply closing_Scan in Hp. exact Hp.
Qed.

(** X19: a file without any closing bracket is refused: [parseZoneFile]
    returns an error, it neither loops at the end of the input nor
    returns the assertions read so far. *)
Theorem parseZoneFile_unterminated (words : list string) :
  ~ In "]" words ->
  exists err, snd (parseZoneFile words) = Some (inl err).
Proof.
  intros Hno. unfold parseZoneFile. cbn [snd].
  match goal with
  | |- exists err, parseZoneLoop ?f ?c ?z ?sc ?a = _ =>
      destruct (parseZoneLoop_total f c z sc a (enoughTurns_turnsFor sc))
        as [[err|r] Hr]
  end.
  - eauto.
  - exfalso. apply Hno.
    apply parseZoneLoop_closing in Hr. do 5 apply closing_Scan in Hr.
    destruct Hr as [Hr|Hr]; [discriminate Hr|exact Hr].
Qed.

Lemma simple_not_closing tag t :
  simpleObjectType tag = Some t -> String.eqb tag "]" = false.
Proof.
  intros H. destruct (String.eqb tag "]") eqn:E; [|reflexivity].
  apply String.eqb_eq in E. subst tag. discriminate H.
Qed.

Lemma parseObjects_entries es : forall tail objects fuel t0,
  forallb isSimpleEntry es = true ->
  parseObjects (length es + fuel)
    (Scan {| Text := t0; unread := flat_map entryWords es ++ tail |}) objects
  = parseObjects fuel (Scan {| Text := t0; unread := tail |})
      (objects ++ omap entryObject es).
Proof.
  induction es as [|[tag v] es IH]; intros tail objects fuel t0 Hs.
  - simpl. rewrite app_nil_r. reflexivity.
  - cbn [forallb] in Hs. apply andb_true_iff in Hs. destruct Hs as [Hh Hs].
    unfold isSimpleEntry in Hh. cbn [fst] in Hh.
    destruct (simpleObjectType tag) as [t|] eqn:Ht; [|discriminate].
    cbn [length Nat.add flat_map entryWords fst snd app Scan unread Text
         parseObjects].
    rewrite (simple_not_closing _ _ Ht), Ht.
    rewrite IH by exact Hs.
    change (omap entryObject ((tag, v) :: es))
      with (match entryObject (tag, v) with
            | Some y => y :: omap entryObject es
            | None => omap entryObject es
            end).
    unfold entryObject at 2. cbn [fst snd]. rewrite Ht.
    rewrite <- app_assoc. reflexivity.
Qed.

Lemma entryWords_length es : (length es <= length (flat_map entryWords es))%nat.
Proof. induction es as [|e es IH]; simpl; lia. Qed.

Lemma turnsFor_Scan t0 (l tail : list string) :
  exists k, turnsFor (Scan {| Text := t0; unread := l ++ tail |})
            = (length l + (length tail + k))%nat /\ (1 <= k)%nat.
Proof.
  unfold turnsFor, Scan. destruct l as [|w l]; simpl.
  - destruct tail as [|w tail]; simpl.
    + exists 2%nat. lia.
    + exists 1%nat. lia.
  - rewrite length_app. exists 1%nat. lia.
Qed.

Lemma parseAssertion_entries context zone t0 name open es tail :
  forallb isSimpleEntry es = true ->
  exists fuel, (length tail + 1 <= fuel)%nat /\
  parseAssertion context zone
    {| Text := t0; unread := name :: open :: flat_map entryWords es ++ tail |}
  = match parseObjects fuel
            (Scan {| Text := open; unread := tail |}) (omap entryObject es)
    with
    | None => None
    | Some (inl err) => Some (inl err)
    | Some (inr (objects, sc)) =>
        Some (inr ({| A_SubjectName := name; A_SubjectZone := zone;
                      A_Context := context; A_Content := objects;
                      A_Signatures := [] |}, sc))
    end.
Proof.
  intros Hs. unfold parseAssertion.
  change (Scan (Scan {| Text := t0;
            unread := name :: open :: flat_map entryWords es ++ tail |}))
    with {| Text := open; unread := flat_map entryWords es ++ tail |}.
  change (Text (Scan {| Text := t0;
            unread := name :: open :: flat_map entryWords es ++ tail |}))
    with name.
  destruct (turnsFor_Scan open (flat_map entryWords es) tail) as (k & -> & Hk).
  pose proof (entryWords_length es) as Hlen.
  exists (length (flat_map entryWords es) + (length tail + k) - length es)%nat.
  split; [lia|].
  replace (length (flat_map entryWords es) + (length tail + k))%nat
    with (length es + (length (flat_map entryWords es) + (length tail + k)
                       - length es))%nat at 1 by lia.
  rewrite parseObjects_entries by exact Hs. reflexivity.
Qed.






Lemma keyObjectTag_cases tag :
  keyObjectTag tag = true ->
  tag = ":deleg:" \/ tag = ":infra:" \/ tag = ":extra:".
Proof.
  unfold keyObjectTag. intros H.
  apply orb_true_iff in H. destruct H as [H|H].
  - apply orb_true_iff in H. destruct H as [H|H]; apply String.eqb_eq in H;
      auto.
  - apply String.eqb_eq in H. auto.
Qed.

(** X22: the entries [:deleg:], [:infra:] and [:extra:] cannot carry
    data: such an entry followed by a word that is neither the start of
    another entry nor the closing bracket makes [parseAssertion] fail
    with the error for an unknown object type, wherever the entry
    stands among one-word entries. *)
Theorem parseAssertion_key_data (context zone t0 name open : string)
    (es : list (string * string)) (tag data : string) (rest : list string) :
  forallb isSimpleEntry es = true ->
  keyObjectTag tag = true ->
  objectTag data = false ->
  data <> "]" ->
  parseAssertion context zone
    {| Text := t0;
       unread := name :: open :: flat_map entryWords es ++
                 tag :: data :: rest |}
  = Some (inl ErrObjectType).
Proof.
  intros Hs Htag Hdata Hclose.
  destruct (parseAssertion_entries context zone t0 name open es
              (tag :: data :: rest) Hs) as (fuel & Hfuel & ->).
  destruct fuel as [|[|fuel]]; try (simpl in Hfuel; lia).
  assert (Hturn : forall objects,
             parseObjects (S (S fuel)) {| Text := tag; unread := data :: rest |}
               objects
             = parseObjects (S fuel) {| Text := data; unread := rest |}
                 objects).
  { intros objects.
    destruct (keyObjectTag_cases tag Htag) as [->|[->| ->]]; reflexivity. }
  cbn [Scan unread]. rewrite Hturn.
  cbn [parseObjects Text].
  apply String.eqb_neq in Hclose. rewrite Hclose.
  unfold objectTag in Hdata.
  destruct (simpleObjectType data); [discriminate|].
  apply orb_false_iff in Hdata. destruct Hdata as [Hdata Hsrv].
  apply orb_false_iff in Hdata. destruct Hdata as [Hkey Hcert].
  rewrite Hkey, Hcert, Hsrv. reflexivity.
Qed.

End ZoneFile.

(** * The capnp encoder *)

Section EncoderFacts.

Import rainslib rainsd rainsd.rainspub rainsd.encoder.

Variable encodedKey : Type.
Variable encodePublicKey : PublicKey -> result (string + encodedKey).
Variable allocError : allocation -> option string.

Local Abbreviation encodeObject := (encodeObject encodedKey encodePublicKey allocError).
Local Abbreviation encodeObjectsFrom :=
  (encodeObjectsFrom encodedKey encodePublicKey allocError).
Local Abbreviation encodeObjects :=
  (encodeObjects encodedKey encodePublicKey allocError).

Ltac encode_cases :=
  repeat match goal with
         | |- context [match allocError ?a with _ => _ end] =>
             destruct (allocError a)
         | |- context [if ?b then _ else _] => destruct b eqn:?
         | |- context [match Value ?o with _ => _ end] => destruct (Value o)
         | |- context [match encodePublicKey ?k with _ => _ end] =>
             destruct (encodePublicKey k) as [[?|?]|?]
         end.

Lemma encodeObject_listed i o :
  match encodeObject i o with
  | Ok (ListSet e) => listed (Type_ o) = true /\ objType e = int32 (Type_ o)
  | Ok (Continue e) => listed (Type_ o) = false
  | _ => True
  end.
Proof.
  unfold encoder.encodeObject, setString, setKey, asString, asPublicKey,
    asNamesetExpression, listed.
  destruct (allocError (NewObj i)); [exact I|].
  destruct (Type_ o =? OTName) eqn:E1.
  { destruct (Value o); try exact I. destruct (allocError _); [exact I|].
    reflexivity. }
  destruct (Type_ o =? OTCertInfo) eqn:E7.
  { apply Z.eqb_eq in E7. rewrite E7. cbn.
    destruct (Value o); try exact I. destruct (allocError _); [exact I|].
    reflexivity. }
  destruct (Type_ o =? OTServiceInfo) eqn:E8.
  { apply Z.eqb_eq in E8. rewrite E8. cbn.
    destruct (Value o); try exact I. destruct (allocError _); [exact I|].
    reflexivity. }
  cbn [orb negb]. encode_cases; try exact I; split; reflexivity.
Qed.

Lemma encodeObjectsFrom_slots objects : forall i acc sets err,
  encodeObjectsFrom i objects acc = Ok (sets, err) ->
  exists rest,
    map fst acc ++ listedFrom i objects = map fst sets ++ rest /\
    (err = None -> rest = []).
Proof.
  induction objects as [|o objects IH]; intros i acc sets err H.
  - inversion H; subst. exists []. split; reflexivity.
  - cbn [encoder.encodeObjectsFrom listedFrom] in *.
    pose proof (encodeObject_listed i o) as Ho.
    destruct (encodeObject i o) as [[e|e|err']|msg]; [| | |discriminate].
    + destruct Ho as [Ho _]. rewrite Ho. apply IH in H.
      destruct H as (rest & Hr & Hn). exists rest. split; [|exact Hn].
      rewrite <- Hr, map_app, <- app_assoc. reflexivity.
    + rewrite Ho. apply IH in H. exact H.
    + inversion H; subst. eexists. split; [reflexivity|discriminate].
Qed.

(** X23: [encodeObjects] calls [list.Set] for the objects that are not
    of type [OTName], [OTCertInfo] or [OTServiceInfo], in order, and for
    no other: when it returns without error, the slots of the name,
    certificate and service objects of the list have not been set, and
    when it returns an error, the slots set are those of a prefix. *)
Theorem encodeObjects_slots (objects : list Object)
    (sets : list (nat * obj encodedKey)) (err : option string) :
  encodeObjects objects = Ok (sets, err) ->
  exists rest,
    listedSlots objects = map fst sets ++ rest /\
    (err = None -> rest = []).
Proof.
  intros H. apply encodeObjectsFrom_slots in H. exact H.
Qed.

Lemma simpleObjectType_cases tag t :
  simpleObjectType tag = Some t ->
  (tag = ":name:" /\ t = OTName) \/ (tag = ":ip6:" /\ t = OTIP6Addr) \/
  (tag = ":ip4:" /\ t = OTIP4Addr) \/ (tag = ":redir:" /\ t = OTRedirection) \/
  (tag = ":nameset:" /\ t = OTNameset) \/ (tag = ":regr:" /\ t = OTRegistrar) \/
  (tag = ":regt:" /\ t = OTRegistrant).
Proof.
  unfold simpleObjectType.
  repeat match goal with
         | |- context [if String.eqb ?a ?b then _ else _] =>
             destruct (String.eqb_spec a b)
         end; intros H; inversion H; subst; tauto.
Qed.

Lemma encodeObjectsFrom_parsed es :
  (forall a, allocError a = None) ->
  forallb isSimpleEntry es = true ->
  forall i acc,
  match encodeObjectsFrom i (omap entryObject es) acc with
  | Ok (sets, None) =>
      forallb encodable es = true /\
      map fst sets = map fst acc ++ seq i (length es)
  | _ => forallb encodable es = false
  end.
Proof.
  intros Halloc. induction es as [|[tag v] es IH]; intros Hs i acc.
  - simpl. rewrite app_nil_r. auto.
  - cbn [forallb] in Hs. apply andb_true_iff in Hs. destruct Hs as [Hh Hs].
    unfold isSimpleEntry in Hh. cbn [fst] in Hh.
    destruct (simpleObjectType tag) as [t|] eqn:Ht; [|discriminate].
    change (omap entryObject ((tag, v) :: es))
      with (match entryObject (tag, v) with
            | Some y => y :: omap entryObject es
            | None => omap entryObject es
            end).
    unfold entryObject at 1. cbn [fst snd]. rewrite Ht.
    cbn [encoder.encodeObjectsFrom].
    unfold encoder.encodeObject. rewrite Halloc. cbn [Type_ Value].
    destruct (simpleObjectType_cases _ _ Ht)
      as [[-> ->]|[[-> ->]|[[-> ->]|[[-> ->]|[[-> ->]|[[-> ->]|[-> ->]]]]]]];
      cbn.
    all: try reflexivity.
    all: match goal with
         | |- context [encoder.encodeObjectsFrom _ _ _ ?j ?l ?acc'] =>
             specialize (IH Hs j acc');
             destruct (encoder.encodeObjectsFrom encodedKey encodePublicKey
                         allocError j l acc') as [[sets [err|]]|msg]
         end; auto.
    all: destruct IH as [IH1 IH2]; split; [exact IH1|].
    all: rewrite IH2, map_app, <- app_assoc; reflexivity.
Qed.

(** X24: what the zone-file parser returns for an assertion of one-word
    entries can be encoded only if no entry is a [:name:] or a
    [:nameset:] entry: the parser stores the data of both as a plain
    string, for which [encodeObjects] returns the error of a failed
    type assertion ([:name:]) or panics ([:nameset:]). Without such an
    entry, and as long as no allocation fails, every object of the
    assertion is passed to [list.Set], in order. *)
Theorem encodeObjects_parsed (context zone : string) (a : assertionSource) :
  (forall al, allocError al = None) ->
  simpleAssertion a = true ->
  match encodeObjects (A_Content (assertionOf context zone a)) with
  | Ok (sets, None) =>
      forallb encodable (snd a) = true /\
      map fst sets = seq 0 (length (snd a))
  | _ => forallb encodable (snd a) = false
  end.
Proof.
  intros Halloc Hs.
  exact (encodeObjectsFrom_parsed (snd a) Halloc Hs 0%nat []).
Qed.

End EncoderFacts.

(** * More sample runs *)

Section MoreSamples.

Import rainslib rainsd rainsd.rainspub rainsd.encoder.

(** The sample zone, consistent, at clock 1500 on empty caches. *)
Lemma assert_insertions_sample :
  sectionHasObjects (SecZone sampleZone) = true /\
  exists s',
    assert (vA := sigValidityA) (vS := sigValidityS) (vZ := sigValidityZ)
      sampleConfig alwaysConsistent alwaysConsistent alwaysConsistent
      sampleParse 1500
      {| SWS_Section := SecZone sampleZone;
         SWS_Sender := sampleUpstream; SWS_Token := 42%N |}
      false emptyEngine = Done tt s' /\
    List.filter isCacheAdd (added (trace emptyEngine) (trace s')) =
      sectionInsertions (vA := sigValidityA) (vS := sigValidityS)
        (vZ := sigValidityZ) sampleConfig 1500 false (SecZone sampleZone).
Proof.
  assert (H1 : sectionHasObjects (SecZone sampleZone) = true) by reflexivity.
  split; [exact H1|].
  destruct (assert_insertions (vA := sigValidityA) (vS := sigValidityS)
              (vZ := sigValidityZ) sampleConfig alwaysConsistent
              alwaysConsistent alwaysConsistent sampleParse 1500
              {| SWS_Section := SecZone sampleZone;
                 SWS_Sender := sampleUpstream; SWS_Token := 42%N |}
              false emptyEngine H1) as (s' & Hrun & Hadd).
  exists s'. split; [exact Hrun|exact Hadd].
Defined.

(** The sample assertion under a check that refuses everything. *)
Lemma assert_inconsistent_dropped_sample :
  passesConsistency neverConsistent neverConsistent neverConsistent
    (assertionsCache waitingEngine) (negAssertionCache waitingEngine)
    (SecAssertion sampleAssertion) = false /\
  exists evs,
    assert (vA := sigValidityA) (vS := sigValidityS) (vZ := sigValidityZ)
      sampleConfig neverConsistent neverConsistent neverConsistent
      sampleParse 1500
      {| SWS_Section := SecAssertion sampleAssertion;
         SWS_Sender := sampleUpstream; SWS_Token := 42%N |}
      false waitingEngine = Done tt (addEvents waitingEngine evs) /\
    forallb isLog evs = true.
Proof.
  assert (H1 : passesConsistency neverConsistent neverConsistent
                 neverConsistent (assertionsCache waitingEngine)
                 (negAssertionCache waitingEngine)
                 (SecAssertion sampleAssertion) = false) by reflexivity.
  split; [exact H1|].
  exact (assert_inconsistent_dropped (vA := sigValidityA)
           (vS := sigValidityS) (vZ := sigValidityZ) sampleConfig
           neverConsistent neverConsistent neverConsistent sampleParse 1500
           {| SWS_Section := SecAssertion sampleAssertion;
              SWS_Sender := sampleUpstream; SWS_Token := 42%N |}
           false waitingEngine H1).
Defined.

(** The sample query on the engine that holds the sample assertion. *)
Lemma query_assertion_cache_hit_sample :
  getZoneAndName (Q_Name sampleQuery)
    = Ok [ {| zone := "ch"; name := "ethz" |} ] /\
  fst (ac_Get (assertionsCache cachedEngine) (Q_Context sampleQuery)
         "ch" "ethz" (Q_Type sampleQuery)
         (ContainsOption sampleQuery ExpiredAssertionsOk))
    = ([sampleAssertion], true) /\
  exists s',
    query sampleConfig sampleServer sampleDelegate sampleParse 1500
      sampleQuery sampleClient cachedEngine = Done tt s' /\
    List.filter isSendTo (added (trace cachedEngine) (trace s')) =
      List.map (fun b => EvSendTo b sampleClient)
        (option_list
           (sampleParse {| Msg_Content := [SecAssertion sampleAssertion];
                           Msg_Token := 7%N |})) /\
    pendingQueries s' = pendingQueries cachedEngine.
Proof.
  assert (H1 : getZoneAndName (Q_Name sampleQuery)
               = Ok [ {| zone := "ch"; name := "ethz" |} ]) by reflexivity.
  assert (H2 : fst (ac_Get (assertionsCache cachedEngine)
                      (Q_Context sampleQuery) "ch" "ethz"
                      (Q_Type sampleQuery)
                      (ContainsOption sampleQuery ExpiredAssertionsOk))
               = ([sampleAssertion], true)) by reflexivity.
  split; [exact H1|]. split; [exact H2|].
  destruct (query_assertion_cache_hit sampleConfig sampleServer
              sampleDelegate sampleParse 1500 sampleQuery sampleClient
              cachedEngine {| zone := "ch"; name := "ethz" |}
              sampleAssertion [] H1 H2)
    as (s' & Hrun & Hadd & _ & Hpq & _).
  exists s'. split; [exact Hrun|]. split; [|exact Hpq].
  rewrite Hadd. reflexivity.
Defined.

(** The sample query on the engine that holds the sample shard. *)
Lemma query_negative_cache_hit_sample :
  getZoneAndName (Q_Name sampleQuery)
    = Ok [ {| zone := "ch"; name := "ethz" |} ] /\
  snd (fst (ac_Get (assertionsCache negCachedEngine) (Q_Context sampleQuery)
              "ch" "ethz" (Q_Type sampleQuery)
              (ContainsOption sampleQuery ExpiredAssertionsOk))) = false /\
  fst (nc_Get (negAssertionCache negCachedEngine) (Q_Context sampleQuery)
         "ch" "ethz") = (SecShard sampleShard, true) /\
  exists s',
    query sampleConfig sampleServer sampleDelegate sampleParse 1500
      sampleQuery sampleClient negCachedEngine = Done tt s' /\
    List.filter isSendTo (added (trace negCachedEngine) (trace s')) =
      List.map (fun b => EvSendTo b sampleClient)
        (option_list
           (sampleParse {| Msg_Content := [SecShard sampleShard];
                           Msg_Token := 7%N |})) /\
    pendingQueries s' = pendingQueries negCachedEngine.
Proof.
  assert (H1 : getZoneAndName (Q_Name sampleQuery)
               = Ok [ {| zone := "ch"; name := "ethz" |} ]) by reflexivity.
  assert (H2 : snd (fst (ac_Get (assertionsCache negCachedEngine)
                           (Q_Context sampleQuery) "ch" "ethz"
                           (Q_Type sampleQuery)
                           (ContainsOption sampleQuery ExpiredAssertionsOk)))
               = false) by reflexivity.
  assert (H3 : fst (nc_Get (negAssertionCache negCachedEngine)
                      (Q_Context sampleQuery) "ch" "ethz")
               = (SecShard sampleShard, true)) by reflexivity.
  split; [exact H1|]. split; [exact H2|]. split; [exact H3|].
  destruct (query_negative_cache_hit sampleConfig sampleServer
              sampleDelegate sampleParse 1500 sampleQuery sampleClient
              negCachedEngine {| zone := "ch"; name := "ethz" |}
              (SecShard sampleShard) H1 H2 H3)
    as (s' & Hrun & Hadd & Hpq & _).
  exists s'. split; [exact Hrun|]. split; [|exact Hpq].
  rewrite Hadd. reflexivity.
Defined.

(** The sample query on empty caches, the resolver naming the server
    itself. *)
Lemma query_self_delegation_sample :
  ContainsOption sampleQuery CachedAnswersOnly = false /\
  getZoneAndName (Q_Name sampleQuery)
    = Ok [ {| zone := "ch"; name := "ethz" |} ] /\
  ConnInfo_Equal
    (selfDelegate (assertionsCache emptyEngine) (Q_Context sampleQuery) "ch")
    sampleServer = true /\
  exists s',
    query sampleConfig sampleServer selfDelegate sampleParse 1500
      sampleQuery sampleClient emptyEngine = Done tt s' /\
    List.filter (fun e => isSendQuery e || isPendingAdd e)
      (added (trace emptyEngine) (trace s')) = [] /\
    In (EvSendNotificationMsg 7%N sampleClient NoAssertionAvail) (trace s').
Proof.
  assert (H0 : ContainsOption sampleQuery CachedAnswersOnly = false)
    by reflexivity.
  assert (H1 : getZoneAndName (Q_Name sampleQuery)
               = Ok [ {| zone := "ch"; name := "ethz" |} ]) by reflexivity.
  assert (H2 : snd (fst (ac_Get (assertionsCache emptyEngine)
                           (Q_Context sampleQuery) "ch" "ethz"
                           (Q_Type sampleQuery)
                           (ContainsOption sampleQuery ExpiredAssertionsOk)))
               = false) by reflexivity.
  assert (H3 : snd (fst (nc_Get (negAssertionCache emptyEngine)
                           (Q_Context sampleQuery) "ch" "ethz")) = false)
    by reflexivity.
  assert (H4 : ConnInfo_Equal
                 (selfDelegate (assertionsCache emptyEngine)
                    (Q_Context sampleQuery) "ch") sampleServer = true)
    by reflexivity.
  split; [exact H0|]. split; [exact H1|]. split; [exact H4|].
  destruct (query_self_delegation sampleConfig sampleServer selfDelegate
              sampleParse 1500 sampleQuery sampleClient emptyEngine
              {| zone := "ch"; name := "ethz" |} H0 H1 H2 H3 H4)
    as (s' & Hrun & Hadd & _).
  exists s'. split; [exact Hrun|]. rewrite Hadd. split; [reflexivity|].
  change (trace s') with (added (trace emptyEngine) (trace s')).
  rewrite Hadd. right. left. reflexivity.
Defined.

(** The future shard at clock 1500, two waiters under its token. *)
Lemma future_shard_rejected_sample :
  0 < 1500 /\
  1500 + MaxCacheShardValidity sampleConfig
    < ValidFrom (Validity := sigValidityS) futureShard /\
  exists s',
    assertShard (vA := sigValidityA) (vS := sigValidityS) sampleConfig
      1500 futureShard false 42%N waitingEngine = Done false s' /\
    negAssertionCache s' = [] /\
    pq_table (pendingQueries s') !! 42%N = None.
Proof.
  assert (H1 : 0 < 1500) by reflexivity.
  assert (H2 : 1500 + MaxCacheShardValidity sampleConfig
               < ValidFrom (Validity := sigValidityS) futureShard)
    by reflexivity.
  split; [exact H1|]. split; [exact H2|].
  destruct (future_shard_rejected (vA := sigValidityA) (vS := sigValidityS)
              sampleConfig 1500 futureShard false 42%N waitingEngine H1 H2)
    as (s' & Hrun & _ & _ & Hnc & Hpq).
  exists s'. split; [exact Hrun|]. split; [exact Hnc|].
  rewrite Hpq. apply lookup_delete_eq.
Defined.

(** The future zone at clock 1500, two waiters under its token. *)
Lemma future_zone_rejected_sample :
  0 < 1500 /\
  1500 + MaxCacheZoneValidity sampleConfig
    < ValidFrom (Validity := sigValidityZ) futureZone /\
  exists s',
    assertZone (vA := sigValidityA) (vS := sigValidityS)
      (vZ := sigValidityZ) sampleConfig 1500 futureZone false 42%N
      waitingEngine = Done false s' /\
    negAssertionCache s' = [] /\
    pq_table (pendingQueries s') !! 42%N = None.
Proof.
  assert (H1 : 0 < 1500) by reflexivity.
  assert (H2 : 1500 + MaxCacheZoneValidity sampleConfig
               < ValidFrom (Validity := sigValidityZ) futureZone)
    by reflexivity.
  split; [exact H1|]. split; [exact H2|].
  destruct (future_zone_rejected (vA := sigValidityA) (vS := sigValidityS)
              (vZ := sigValidityZ) sampleConfig 1500 futureZone false 42%N
              waitingEngine H1 H2)
    as (s' & Hrun & _ & _ & Hnc & Hpq).
  exists s'. split; [exact Hrun|]. split; [exact Hnc|].
  rewrite Hpq. apply lookup_delete_eq.
Defined.

(** Two aliases for the same name, with as many types each. *)
Lemma NameObject_CompareTo_same_length_sample :
  let n := {| Name := "ethz2.ch"; Types := [OTIP4Addr; OTIP6Addr] |} in
  let m := {| Name := "ethz2.ch"; Types := [OTIP4Addr; OTDelegation] |} in
  length (Types n) = length (Types m) /\
  NameObject_CompareTo n m = Ok (-1) /\
  NameObject_CompareTo m n = Ok 1.
Proof.
  cbv zeta.
  assert (H1 : length (Types {| Name := "ethz2.ch";
                                Types := [OTIP4Addr; OTIP6Addr] |})
               = length (Types {| Name := "ethz2.ch";
                                  Types := [OTIP4Addr; OTDelegation] |}))
    by reflexivity.
  split; [exact H1|].
  destruct (NameObject_CompareTo_same_length _ _ H1) as (r & Hr & Hs & _).
  assert (Hm : r = -1) by (vm_compute in Hr; congruence).
  subst r. split; [exact Hr|exact Hs].
Defined.

(** Three address objects. *)
Lemma CompareTo_strings_sample :
  let o := {| Type_ := OTIP4Addr; Value := VString "127.0.0.1" |} in
  let p := {| Type_ := OTIP4Addr; Value := VString "127.0.0.2" |} in
  let q := {| Type_ := OTIP4Addr; Value := VString "192.0.2.1" |} in
  stringValued o = true /\ stringValued p = true /\ stringValued q = true /\
  CompareTo o p = Ok (-1) /\ CompareTo p o = Ok 1 /\
  CompareTo o q = Ok (-1).
Proof.
  cbv zeta.
  assert (H1 : stringValued {| Type_ := OTIP4Addr;
                               Value := VString "127.0.0.1" |} = true)
    by reflexivity.
  assert (H2 : stringValued {| Type_ := OTIP4Addr;
                               Value := VString "127.0.0.2" |} = true)
    by reflexivity.
  assert (H3 : stringValued {| Type_ := OTIP4Addr;
                               Value := VString "192.0.2.1" |} = true)
    by reflexivity.
  split; [exact H1|]. split; [exact H2|]. split; [exact H3|].
  destruct (CompareTo_strings _ _ _ H1 H2 H3) as (r & Hr & Hs & _ & _ & Ht).
  assert (Hm : r = -1) by (vm_compute in Hr; congruence).
  subst r. split; [exact Hr|]. split; [exact Hs|].
  apply Ht; reflexivity.
Defined.

(** The alias of the test message, its types listed in two orders. *)
Lemma Sort_then_CompareTo_sample :
  Permutation [OTIP6Addr; OTIP4Addr] [OTIP4Addr; OTIP6Addr] /\
  CompareTo
    (fst (Sort {| Type_ := OTName;
                  Value := VNameObject
                             {| Name := "ethz2.ch";
                                Types := [OTIP6Addr; OTIP4Addr] |} |}))
    (fst (Sort {| Type_ := OTName;
                  Value := VNameObject
                             {| Name := "ethz2.ch";
                                Types := [OTIP4Addr; OTIP6Addr] |} |}))
  = Ok 0.
Proof.
  assert (H1 : Permutation [OTIP6Addr; OTIP4Addr] [OTIP4Addr; OTIP6Addr])
    by apply perm_swap.
  split; [exact H1|].
  exact (Sort_then_CompareTo OTName "ethz2.ch" _ _ H1).
Defined.

(** A zone file with an assertion and a shard of one assertion. *)
Lemma parseZoneFile_assertions_sample :
  let words :=
    [":Z:"; "."; "ch"; "["; ":A:"; "ethz"; "["; ":ip4:"; "127.0.0.1"; "]";
     ":S:"; "["; ":A:"; "epfl"; "["; ":srv:"; "www"; "80"; "1"; "]"; "]";
     "]"]%string in
  exists a1 a2,
    parseZoneFile words = (false, Some (inr [a1; a2])) /\
    A_SubjectName a1 = "ethz"%string /\ A_SubjectName a2 = "epfl"%string /\
    Forall (fromHeader "." "ch") [a1; a2].
Proof.
  cbv zeta.
  eexists. eexists.
  assert (H1 : parseZoneFile
                 [":Z:"; "."; "ch"; "["; ":A:"; "ethz"; "["; ":ip4:";
                  "127.0.0.1"; "]"; ":S:"; "["; ":A:"; "epfl"; "["; ":srv:";
                  "www"; "80"; "1"; "]"; "]"; "]"]%string
               = (false, Some (inr [_; _]))) by (vm_compute; reflexivity).
  split; [exact H1|]. split; [reflexivity|]. split; [reflexivity|].
  exact (parseZoneFile_assertions _ _ _ H1).
Defined.

(** A zone file cut off inside its first assertion. *)
Lemma parseZoneFile_unterminated_sample :
  let words :=
    [":Z:"; "."; "ch"; "["; ":A:"; "ethz"; "["; ":ip4:"; "127.0.0.1"]%string
  in
  ~ In "]"%string words /\
  exists err, snd (parseZoneFile words) = Some (inl err).
Proof.
  cbv zeta.
  assert (H1 : ~ In "]"%string
                 [":Z:"; "."; "ch"; "["; ":A:"; "ethz"; "["; ":ip4:";
                  "127.0.0.1"]%string).
  { intros H. repeat (destruct H as [H|H]; [discriminate H|]). exact H. }
  split; [exact H1|].
  exact (parseZoneFile_unterminated _ H1).
Defined.



(** A delegation entry followed by the name of a key. *)
Lemma parseAssertion_key_data_sample :
  forallb isSimpleEntry [(":ip4:", "127.0.0.1")]%string = true /\
  keyObjectTag ":deleg:" = true /\
  objectTag "ed25519" = false /\
  "ed25519"%string <> "]"%string /\
  parseAssertion "." "ch"
    {| Text := ":A:";
       unread := ["ch"; "["; ":ip4:"; "127.0.0.1"; ":deleg:"; "ed25519";
                  "5a4b"; "]"; "]"]%string |}
    = Some (inl ErrObjectType).
Proof.
  assert (H1 : forallb isSimpleEntry [(":ip4:", "127.0.0.1")]%string = true)
    by reflexivity.
  assert (H2 : keyObjectTag ":deleg:" = true) by reflexivity.
  assert (H3 : objectTag "ed25519" = false) by reflexivity.
  assert (H4 : "ed25519"%string <> "]"%string) by discriminate.
  split; [exact H1|]. split; [exact H2|]. split; [exact H3|].
  split; [exact H4|].
  exact (parseAssertion_key_data "." "ch" ":A:" "ch" "[" _ ":deleg:"
           "ed25519" ["5a4b"; "]"; "]"]%string H1 H2 H3 H4).
Defined.

(** An alias, an address and a service: only the address reaches the
    list. *)
Lemma encodeObjects_slots_sample :
  let objects :=
    [ {| Type_ := OTName;
         Value := VNameObject {| Name := "ethz2.ch";
                                 Types := [OTIP4Addr; OTIP6Addr] |} |};
      ip4Object;
      {| Type_ := OTServiceInfo;
         Value := VServiceInfo {| SI_Name := "www"; SI_Port := 80;
                                  SI_Priority := 1 |} |} ] in
  exists sets,
    encodeObjects unit (fun _ => Ok (inr tt)) (fun _ => None) objects
      = Ok (sets, None) /\
    listedSlots objects = [1%nat] /\
    map fst sets = [1%nat].
Proof.
  cbv zeta. eexists.
  assert (H1 : encodeObjects unit (fun _ => Ok (inr tt)) (fun _ => None)
                 [ {| Type_ := OTName;
                      Value := VNameObject
                                 {| Name := "ethz2.ch";
                                    Types := [OTIP4Addr; OTIP6Addr] |} |};
                   ip4Object;
                   {| Type_ := OTServiceInfo;
                      Value := VServiceInfo
                                 {| SI_Name := "www"; SI_Port := 80;
                                    SI_Priority := 1 |} |} ]
               = Ok (_, None)) by (vm_compute; reflexivity).
  split; [exact H1|]. split; [reflexivity|].
  destruct (encodeObjects_slots _ _ _ _ _ _ H1) as (rest & Hslots & Hrest).
  rewrite (Hrest eq_refl), app_nil_r in Hslots.
  rewrite <- Hslots. reflexivity.
Defined.

(** An assertion read from a zone file with an alias entry. *)
Lemma encodeObjects_parsed_sample :
  let a : assertionSource :=
    ("ethz", [(":ip4:", "127.0.0.1"); (":name:", "ethz2.ch")])%string in
  simpleAssertion a = true /\
  forallb encodable (snd a) = false /\
  encodeObjects unit (fun _ => Ok (inr tt)) (fun _ => None)
    (A_Content (assertionOf "." "ch" a))
  = Ok ([(0%nat, {| objType := 3; value := Ip4Value unit "127.0.0.1" |})],
        Some "Type assertion failed"%string).
Proof.
  cbv zeta.
  assert (H1 : simpleAssertion
                 ("ethz", [(":ip4:", "127.0.0.1");
                           (":name:", "ethz2.ch")])%string = true)
    by reflexivity.
  split; [exact H1|].
  pose proof (encodeObjects_parsed unit (fun _ => Ok (inr tt))
                (fun _ => None) "." "ch" _ (fun _ => eq_refl) H1) as H.
  split; [exact H|reflexivity].
Defined.

End MoreSamples.
